(** * SafeVault: access control, validation and note sanitization

    A shallow embedding of the server side of SafeVault
    (src/utils/security.js, src/middleware/validation.js,
    src/routes/vault.js, src/routes/users.js, src/database/setup.js) and
    the properties its design document states about them.  The
    collaborators are held as the code meets them: express-validator's
    chains, validator.js [isLength], node-postgres' parameters and the
    columns of PostgreSQL.

    Strings are JavaScript strings: finite sequences of UTF-16 code units.
    A code unit is a number; the literals of the sources are ASCII. *)

From Stdlib Require Import Ascii String.
From Stdlib Require Import List NArith ZArith Bool Lia Arith.
From Stdlib Require DecimalPos DecimalN.
From Stdlib Require Import Permutation Sorted.
Import ListNotations.

(* ================================================================== *)
(** ** JavaScript strings *)
(* ================================================================== *)

Module JS.

Definition char := N.
Definition str := list char.

(** An ASCII literal of the source as a sequence of code units. *)
Definition lit (s : string) : str := map N_of_ascii (list_ascii_of_string s).

Definition char_eqb : char -> char -> bool := N.eqb.

Open Scope N_scope.

(** [WhiteSpace] and [LineTerminator] of ECMAScript: what [\s] matches and
    what [String.prototype.trim] (and validator.js [trim]) removes. *)
Definition isWhiteSpace (c : char) : bool :=
  ((9 <=? c) && (c <=? 13)) || (c =? 32) || (c =? 160) || (c =? 5760)
  || ((8192 <=? c) && (c <=? 8202)) || (c =? 8232) || (c =? 8233)
  || (c =? 8239) || (c =? 8287) || (c =? 12288) || (c =? 65279).

Definition isDigit (c : char) : bool := (48 <=? c) && (c <=? 57).
Definition isUpper (c : char) : bool := (65 <=? c) && (c <=? 90).
Definition isLower (c : char) : bool := (97 <=? c) && (c <=? 122).

(** [\w] without the unicode flag: [A-Za-z0-9_]. *)
Definition isWordChar (c : char) : bool :=
  isDigit c || isUpper c || isLower c || (c =? 95).

(** Canonicalisation of the [i] flag (no [u] flag), restricted to what can
    meet an ASCII pattern character: a code unit above 127 never
    canonicalises to an ASCII one, so only [a-z] are folded. *)
Definition canon (c : char) : char := if isLower c then c - 32 else c.

Definition ci_eqb (p c : char) : bool := canon p =? canon c.

Close Scope N_scope.

(** [prefix_ci p s]: [s] starts with the literal [p] up to case; the result
    is what follows the prefix. *)
Fixpoint prefix_ci (p s : str) : option str :=
  match p with
  | [] => Some s
  | x :: p' =>
      match s with
      | [] => None
      | c :: s' => if ci_eqb x c then prefix_ci p' s' else None
      end
  end.

Fixpoint dropWhile (f : char -> bool) (s : str) : str :=
  match s with
  | [] => []
  | c :: t => if f c then dropWhile f t else s
  end.

Fixpoint takeWhile (f : char -> bool) (s : str) : str :=
  match s with
  | [] => []
  | c :: t => if f c then c :: takeWhile f t else []
  end.

Definition trimStart (s : str) : str := dropWhile isWhiteSpace s.
Definition trimEnd (s : str) : str := rev (dropWhile isWhiteSpace (rev s)).

(** [String.prototype.trim]. *)
Definition trim (s : str) : str := trimEnd (trimStart s).

(** [s.repeat(n)]. *)
Definition repeat_str (s : str) (n : nat) : str := concat (repeat s n).

(** [s.includes(p)] (case sensitive). *)
Fixpoint prefixb (p s : str) : bool :=
  match p with
  | [] => true
  | x :: p' =>
      match s with
      | [] => false
      | c :: s' => char_eqb x c && prefixb p' s'
      end
  end.

Fixpoint includes (s p : str) : bool :=
  prefixb p s || match s with [] => false | _ :: t => includes t p end.

(** [a === b] on strings. *)
Fixpoint text_eqb (a b : str) : bool :=
  match a, b with
  | [], [] => true
  | x :: a', y :: b' => N.eqb x y && text_eqb a' b'
  | _, _ => false
  end.

(** [l.join(sep)]. *)
Definition join (sep : str) (l : list str) : str :=
  match l with
  | [] => []
  | x :: t => x ++ flat_map (fun y => sep ++ y) t
  end.

(** A value of a field of a JSON body as the routes can meet it: a
    string, or an array (of strings and arrays).  A number, a boolean,
    [null] or an object is read by every validator and sanitizer through
    its text, which no chain lets through as anything but a string (see
    [Validation]); such a value is left to the string that stands for
    it. *)
Unset Elimination Schemes.
Inductive Value := VText (s : str) | VList (l : list Value).
Set Elimination Schemes.

(** [String(v)]: a string is itself, an array is its elements joined by
    commas ([Array.prototype.toString]). *)
Fixpoint String_of (v : Value) : str :=
  match v with
  | VText s => s
  | VList l => join [44%N] (map String_of l)
  end.

(** [!v]: the empty string is falsy, an array (even empty) is not. *)
Definition falsy (v : Value) : bool :=
  match v with
  | VText [] => true
  | _ => false
  end.

(** *** [String.prototype.replace] with a global regular expression

    A regular expression is represented by its matcher at a position:
    [m s] is the length of the match that starts at the head of [s], when
    there is one.  None of the expressions of the sources looks behind the
    start of the match, so the matcher only sees the rest of the string.
    [replace_go] scans as the [g] flag prescribes: leftmost match first,
    the search resumes where the match ended, an empty match advances by
    one code unit; [skip] counts the code units of the current match that
    remain to be consumed. *)
Fixpoint replace_go (m : str -> option nat) (f : str -> str)
         (skip : nat) (s : str) : str :=
  match s with
  | [] =>
      match skip with
      | O => match m [] with Some _ => f [] | None => [] end
      | S _ => []
      end
  | c :: t =>
      match skip with
      | S k => replace_go m f k t
      | O =>
          match m s with
          | Some (S n) => f (firstn (S n) s) ++ replace_go m f n t
          | Some O => f [] ++ c :: replace_go m f 0 t
          | None => c :: replace_go m f 0 t
          end
      end
  end.

Definition replace_all (m : str -> option nat) (f : str -> str) (s : str) : str :=
  replace_go m f 0 s.

(** Replacement by the empty string. *)
Definition remove_all (m : str -> option nat) (s : str) : str :=
  replace_all m (fun _ => []) s.

(** *** [parseInt(s, 10)]

    Leading white space is skipped, one sign is accepted, then the longest
    run of decimal digits is read; whatever follows is ignored.  [None] is
    [NaN].  The result is a Number: the double nearest to the integer the
    digits spell, ties to the even significand.  Every integer up to 2^53
    in magnitude is a double; beyond, [toNumber] rounds to 53 significant
    bits, and an integer that rounds to 2^1024 or more gives [Infinity],
    held here as 2^1024 itself with its sign (no double is that large). *)
Definition digit_val (c : char) : Z := Z.of_N c - 48.

Definition digits_val (ds : str) : Z :=
  fold_left (fun acc c => 10 * acc + digit_val c)%Z ds 0%Z.

Definition toNumber (z : Z) : Z :=
  let a := Z.abs z in
  if (a <=? 2 ^ 53)%Z then z
  else
    let e := (Z.log2 a - 52)%Z in
    let q := Z.shiftr a e in
    let r := (a - Z.shiftl q e)%Z in
    let half := Z.shiftl 1 (e - 1) in
    let q' := if (half <? r)%Z || ((r =? half)%Z && Z.odd q)
              then (q + 1)%Z else q in
    let v := Z.shiftl q' e in
    (Z.sgn z * (if (2 ^ 1024 <=? v)%Z then 2 ^ 1024 else v))%Z.

Definition parseInt (s : str) : option Z :=
  let s1 := trimStart s in
  let '(neg, s2) :=
    match s1 with
    | c :: t => if N.eqb c 45 then (true, t)
                else if N.eqb c 43 then (false, t) else (false, s1)
    | [] => (false, s1)
    end in
  match takeWhile isDigit s2 with
  | [] => None
  | ds => Some (toNumber (if neg then (- digits_val ds)%Z else digits_val ds))
  end.

(** *** [String(n)] for an integer

    The decimal digits, most significant first, after a minus sign for a
    negative number: the form in which an identifier appears in a path. *)
Fixpoint uint_chars (d : Decimal.uint) : str :=
  match d with
  | Decimal.Nil => []
  | Decimal.D0 l => 48%N :: uint_chars l
  | Decimal.D1 l => 49%N :: uint_chars l
  | Decimal.D2 l => 50%N :: uint_chars l
  | Decimal.D3 l => 51%N :: uint_chars l
  | Decimal.D4 l => 52%N :: uint_chars l
  | Decimal.D5 l => 53%N :: uint_chars l
  | Decimal.D6 l => 54%N :: uint_chars l
  | Decimal.D7 l => 55%N :: uint_chars l
  | Decimal.D8 l => 56%N :: uint_chars l
  | Decimal.D9 l => 57%N :: uint_chars l
  end.

Definition Number_toString (z : Z) : str :=
  match z with
  | Z0 => uint_chars (N.to_uint 0)
  | Zpos p => uint_chars (N.to_uint (Npos p))
  | Zneg p => 45%N :: uint_chars (N.to_uint (Npos p))
  end.

End JS.

Import JS.

(* ================================================================== *)
(** ** src/utils/security.js *)
(* ================================================================== *)

Module Security.

(** The class of [escapeHtml]'s expression: ampersand, less-than,
    greater-than, double quote (34) and apostrophe (39). *)
Definition isHtmlSpecial (c : char) : bool :=
  N.eqb c 38 || N.eqb c 60 || N.eqb c 62 || N.eqb c 34 || N.eqb c 39.

Definition match_html_special (s : str) : option nat :=
  match s with
  | c :: _ => if isHtmlSpecial c then Some 1 else None
  | [] => None
  end.

(** The object [map] of [escapeHtml], applied to a match. *)
Definition escape_map (m : str) : str :=
  match m with
  | [c] =>
      if N.eqb c 38 then lit "&amp;"
      else if N.eqb c 60 then lit "&lt;"
      else if N.eqb c 62 then lit "&gt;"
      else if N.eqb c 34 then lit "&quot;"
      else if N.eqb c 39 then lit "&#039;"
      else m
  | _ => m
  end.

(** [text.replace(/[...]/g, (m) => map[m])] over that class. *)
Definition escapeHtml (text : str) : str :=
  replace_all match_html_special escape_map text.

(** The script-block expression of [sanitizeInput], flags [gi], at a
    position.  Its pieces, in order: the literal [<script]; [\b]; [[^<]*];
    a starred group made of the negative lookahead [(?!<\/script>)], a
    [<] and [[^<]*]; the literal [<\/script>].
    After [<script] and the word boundary, [[^<]*] runs to the next [<];
    the group then consumes one [<]-led segment at a time as long as the
    [<] does not open the closing tag, and no shorter choice of either star
    can succeed (the next code unit would not be a [<]).  So the match ends
    with the first closing tag found after [<script]. *)
Fixpoint find_close (r : str) : option nat :=
  match prefix_ci (lit "</script>") r with
  | Some _ => Some 9
  | None =>
      match r with
      | [] => None
      | _ :: t => option_map S (find_close t)
      end
  end.

Definition word_boundary_after_word (r : str) : bool :=
  match r with
  | [] => true
  | c :: _ => negb (isWordChar c)
  end.

Definition match_script (s : str) : option nat :=
  match prefix_ci (lit "<script") s with
  | None => None
  | Some r =>
      if word_boundary_after_word r
      then option_map (fun n => 7 + n) (find_close r)
      else None
  end.

(** [/on\w+\s*=\s*[\x22'][^\x22']*[\x22']/i] at a position (the double
    quote of the source is written \x22 here).  Every quantifier is
    followed by something its own class excludes, so each takes its longest
    run and there is nothing to backtrack to. *)
Definition isQuote (c : char) : bool := N.eqb c 34 || N.eqb c 39.

Definition match_handler (s : str) : option nat :=
  match prefix_ci (lit "on") s with
  | None => None
  | Some r0 =>
      let w := takeWhile isWordChar r0 in
      let r1 := dropWhile isWordChar r0 in
      match w with
      | [] => None
      | _ =>
          let ws1 := takeWhile isWhiteSpace r1 in
          match dropWhile isWhiteSpace r1 with
          | e :: r2 =>
              if N.eqb e 61 then
                let ws2 := takeWhile isWhiteSpace r2 in
                match dropWhile isWhiteSpace r2 with
                | q :: r3 =>
                    if isQuote q then
                      let v := takeWhile (fun c => negb (isQuote c)) r3 in
                      match dropWhile (fun c => negb (isQuote c)) r3 with
                      | q' :: _ =>
                          Some (2 + length w + length ws1 + 1 + length ws2
                                + 1 + length v + 1)
                      | [] => None
                      end
                    else None
                | [] => None
                end
              else None
          | [] => None
          end
      end
  end.

(** [/javascript:/i] at a position. *)
Definition match_javascript (s : str) : option nat :=
  match prefix_ci (lit "javascript:") s with
  | Some _ => Some 11
  | None => None
  end.

(** The three [replace] calls of [sanitizeInput], in the order of the
    source. *)
Definition sanitizeInput (input : str) : str :=
  remove_all match_javascript
    (remove_all match_handler
       (remove_all match_script input)).

(** [if (!note) return ''] : the empty string is the only falsy string. *)
Definition sanitizeNote (note : str) : str :=
  match note with
  | [] => []
  | _ => let sanitized := sanitizeInput note in escapeHtml sanitized
  end.

(** The three functions on any value: each returns what is not a string
    as it got it ([typeof ... !== 'string']), and [sanitizeNote] returns
    the empty string for a falsy note. *)
Definition escapeHtml_any (text : Value) : Value :=
  match text with
  | VText s => VText (escapeHtml s)
  | VList _ => text
  end.

Definition sanitizeInput_any (input : Value) : Value :=
  match input with
  | VText s => VText (sanitizeInput s)
  | VList _ => input
  end.

Definition sanitizeNote_any (note : Value) : Value :=
  if falsy note then VText []
  else let sanitized := sanitizeInput_any note in escapeHtml_any sanitized.

End Security.

Import Security.

(* ================================================================== *)
(** ** src/middleware/validation.js *)
(* ================================================================== *)

(** The arrays of this file are express-validator chains followed by
    [handleValidationErrors].  A chain works on one field of [req.body]:
    its sanitizers and validators run in the order written, a sanitizer
    writes its result back into the request (so the route reads the
    sanitized field), a validator that fails adds its message and the chain
    goes on; [optional()] skips the chain when the field is missing. *)
Module Validation.

(** One entry of [errors.array()]. *)
Record VError := { field : string; message : string }.

(** The parsed JSON body of a vault-item request whose fields are strings
    or missing ([undefined]): [req.body.name] and [req.body.note].  The
    chains of this first part are those of the source on such bodies; the
    bodies with an array in a field come after ([AnyItemBody]). *)
Record ItemBody := { name : option str; note : option str }.

(** The parsed JSON body of a search request. *)
Record SearchBody := { query : option str }.

(** express-validator reads a missing field as the empty string. *)
Definition toString (v : option str) : str :=
  match v with Some s => s | None => [] end.

(** validator.js [isLength] counts characters: the code units, less one
    for each surrogate pair and one for each variation selector U+FE0E or
    U+FE0F that comes after a code unit that is not one.  Both are counted
    as [String.prototype.match] counts the matches of a two-unit
    expression with the [g] flag: from the left, a match consumes its two
    code units. *)
Definition isHighSurrogate (c : char) : bool := N.leb 55296 c && N.leb c 56319.
Definition isLowSurrogate (c : char) : bool := N.leb 56320 c && N.leb c 57343.

Fixpoint surrogatePairs (s : str) : nat :=
  match s with
  | c1 :: ((c2 :: t) as s') =>
      if isHighSurrogate c1 && isLowSurrogate c2
      then S (surrogatePairs t) else surrogatePairs s'
  | _ => 0
  end.

Definition isPresentationSelector (c : char) : bool :=
  N.eqb c 65038 || N.eqb c 65039.

Fixpoint presentationSequences (s : str) : nat :=
  match s with
  | c1 :: ((c2 :: t) as s') =>
      if negb (isPresentationSelector c1) && isPresentationSelector c2
      then S (presentationSequences t) else presentationSequences s'
  | _ => 0
  end.

Definition len (s : str) : nat :=
  length s - presentationSequences s - surrogatePairs s.

Definition isLength (min : nat) (max : option nat) (s : str) : bool :=
  Nat.leb min (len s)
  && match max with Some m => Nat.leb (len s) m | None => true end.

(** [/^[a-zA-Z0-9\s\-_]+$/]: the class, and a non-empty string made of it
    only (without the [m] flag [$] is the end of the input). *)
Definition isNameChar (c : char) : bool :=
  isLower c || isUpper c || isDigit c || isWhiteSpace c
  || N.eqb c 45 || N.eqb c 95.

Definition matches_name (s : str) : bool :=
  match s with
  | [] => false
  | _ => forallb isNameChar s
  end.

(** A validator of a chain with its [withMessage]: the error it adds. *)
Definition check (ok : bool) (f msg : string) : list VError :=
  if ok then [] else [{| field := f; message := msg |}].

(** The chain of [body('name')]: [trim] rewrites the field, then both
    validators run on the trimmed value (no bail: every failure is kept). *)
Definition name_chain (v : option str) : str * list VError :=
  let t := trim (toString v) in
  (t,
   check (isLength 1 (Some 255) t) "name"
         "Name must be between 1 and 255 characters"
   ++ check (matches_name t) "name"
         "Name can only contain letters, numbers, spaces, hyphens, and underscores").

(** The chain of [body('note')]: [optional] skips a missing field. *)
Definition note_chain (v : option str) : option str * list VError :=
  match v with
  | None => (None, [])
  | Some s =>
      let t := trim s in
      (Some t,
       check (isLength 0 (Some 5000) t) "note"
             "Note must be at most 5000 characters")
  end.

(** The chain of [body('query')] of [validateSearch]. *)
Definition query_chain (v : option str) : option str * list VError :=
  match v with
  | None => (None, [])
  | Some s =>
      let t := trim s in
      (Some t,
       check (isLength 0 (Some 100) t) "query"
             "Search query must be at most 100 characters")
  end.

(** [validateVaultItem] up to [handleValidationErrors]: the request body as
    the sanitizers leave it, and the collected errors. *)
Definition validateVaultItem (b : ItemBody) : ItemBody * list VError :=
  let '(n, e1) := name_chain (name b) in
  let '(o, e2) := note_chain (note b) in
  ({| name := Some n; note := o |}, e1 ++ e2).

Definition validateSearch (b : SearchBody) : SearchBody * list VError :=
  let '(q, e) := query_chain (query b) in
  ({| query := q |}, e).

(** *** The chains on any value of a field

    express-validator's [toString]: a string is itself; of an array the
    first element counts, read as [String] reads it; the empty array is
    the empty text. *)
Definition toText (v : Value) : str :=
  match v with
  | VText s => s
  | VList [] => []
  | VList (x :: _) => String_of x
  end.

(** A validator or sanitizer of a chain runs on each element of an array
    field, and on the field itself otherwise. *)
Definition values_of (v : Value) : list Value :=
  match v with
  | VList l => l
  | _ => [v]
  end.

(** A validator with its message: one error for each element it refuses. *)
Definition check_each (ok : str -> bool) (f msg : string) (v : Value)
  : list VError :=
  flat_map (fun x => check (ok (toText x)) f msg) (values_of v).

(** A sanitizer: the field becomes the sanitized text, an array field the
    array of the sanitized texts of its elements. *)
Definition sanitize_each (san : str -> str) (v : Value) : Value :=
  match v with
  | VList l => VList (map (fun x => VText (san (toText x))) l)
  | _ => VText (san (toText v))
  end.

(** The parsed JSON bodies, any value in a field. *)
Record AnyItemBody := { any_name : option Value; any_note : option Value }.
Record AnySearchBody := { any_query : option Value }.

(** A missing name is read as the empty text and written back as such. *)
Definition name_chain_any (v : option Value) : Value * list VError :=
  let t := sanitize_each trim (match v with Some x => x | None => VText [] end) in
  (t,
   check_each (isLength 1 (Some 255)) "name"
     "Name must be between 1 and 255 characters" t
   ++ check_each matches_name "name"
        "Name can only contain letters, numbers, spaces, hyphens, and underscores" t).

Definition note_chain_any (v : option Value) : option Value * list VError :=
  match v with
  | None => (None, [])
  | Some x =>
      let t := sanitize_each trim x in
      (Some t,
       check_each (isLength 0 (Some 5000)) "note"
         "Note must be at most 5000 characters" t)
  end.

Definition query_chain_any (v : option Value) : option Value * list VError :=
  match v with
  | None => (None, [])
  | Some x =>
      let t := sanitize_each trim x in
      (Some t,
       check_each (isLength 0 (Some 100)) "query"
         "Search query must be at most 100 characters" t)
  end.

Definition validateVaultItem_any (b : AnyItemBody) : AnyItemBody * list VError :=
  let '(n, e1) := name_chain_any (any_name b) in
  let '(o, e2) := note_chain_any (any_note b) in
  ({| any_name := Some n; any_note := o |}, e1 ++ e2).

Definition validateSearch_any (b : AnySearchBody) : AnySearchBody * list VError :=
  let '(q, e) := query_chain_any (any_query b) in
  ({| any_query := q |}, e).

(** A body of strings among the bodies of any values. *)
Definition item_body (b : ItemBody) : AnyItemBody :=
  {| any_name := option_map VText (name b);
     any_note := option_map VText (note b) |}.

Definition search_body (b : SearchBody) : AnySearchBody :=
  {| any_query := option_map VText (query b) |}.

End Validation.

(* ================================================================== *)
(** ** The storage collaborator: src/database/setup.js and the queries *)
(* ================================================================== *)

Module Store.

Local Open Scope Z_scope.

(** The role of an account: [users.role] is [VARCHAR(50)], and the code
    knows three values of it; [other_role] is any other text. *)
Inductive Role := admin | user | auditor | other_role (text : str).

Definition role_eqb (a b : Role) : bool :=
  match a, b with
  | admin, admin | user, user | auditor, auditor => true
  | other_role x, other_role y => text_eqb x y
  | _, _ => false
  end.

(** A row of [users]. *)
Record User := {
  u_id : Z; email : str; password_hash : str; role : Role; u_created_at : Z }.

(** A row of [vault_items]. *)
Record Item := {
  id : Z; owner_id : Z; name : str; note : str;
  created_at : Z; updated_at : Z }.

(** The two tables and the sequence behind [vault_items.id SERIAL]
    (the value the next [nextval] returns). *)
Record DB := {
  users : list User; vault_items : list Item; vault_items_id_seq : Z }.

(** What the [SELECT]/[RETURNING] lists of the routes keep of a row. *)
Record ItemRow := {
  r_id : Z; r_name : str; r_note : str; r_created_at : Z; r_updated_at : Z }.

Record UserRow := {
  ur_id : Z; ur_email : str; ur_role : Role; ur_created_at : Z }.

Definition item_row (it : Item) : ItemRow :=
  {| r_id := id it; r_name := name it; r_note := note it;
     r_created_at := created_at it; r_updated_at := updated_at it |}.

Definition user_row (u : User) : UserRow :=
  {| ur_id := u_id u; ur_email := email u; ur_role := role u;
     ur_created_at := u_created_at u |}.

(** [INTEGER] columns hold 32-bit values: a parameter outside the range
    makes the query fail. *)
Definition int4 (z : Z) : bool := (-2147483648 <=? z) && (z <=? 2147483647).

(** *** Texts on their way to the tables

    node-postgres sends a string as UTF-8: a surrogate that is not half of
    a pair leaves as U+FFFD, every other code unit as it is. *)
Definition isSurrogate (c : char) : bool := N.leb 55296 c && N.leb c 57343.

Fixpoint wire (s : str) : str :=
  match s with
  | c1 :: ((c2 :: t) as s') =>
      if Validation.isHighSurrogate c1 && Validation.isLowSurrogate c2
      then c1 :: c2 :: wire t
      else (if isSurrogate c1 then 65533%N else c1) :: wire s'
  | [c] => [if isSurrogate c then 65533%N else c]
  | [] => []
  end.

(** An array parameter leaves as the text of a PostgreSQL array: the
    elements between braces, separated by commas, a string between double
    quotes with its backslashes and double quotes escaped, an array in
    braces of its own. *)
Definition escapeElement (s : str) : str :=
  34%N :: flat_map (fun c => if N.eqb c 92 then [92%N; 92%N]
                             else if N.eqb c 34 then [92%N; 34%N]
                             else [c]) s
  ++ [34%N].

Fixpoint arrayString (v : Value) : str :=
  match v with
  | VText s => escapeElement s
  | VList l => 123%N :: join [44%N] (map arrayString l) ++ [125%N]
  end.

(** The text a parameter of a statement leaves as. *)
Definition param_text (v : Value) : str :=
  match v with
  | VText s => s
  | VList _ => arrayString v
  end.

(** PostgreSQL refuses a text parameter that holds U+0000, whatever the
    statement would have done with it. *)
Definition sendable (s : str) : bool := forallb (fun c => negb (N.eqb c 0)) s.

(** [VARCHAR(n)] counts characters: a surrogate pair is one. *)
Definition chars (s : str) : nat :=
  (length s - Validation.surrogatePairs s)%nat.

(** A value stored into a [VARCHAR(n)] column: as it is when it fits; cut
    to [n] characters when all that exceeds is spaces; refused otherwise.
    The statement is refused before it touches a row or a sequence. *)
Definition varchar (n : nat) (s : str) : option str :=
  if Nat.leb (chars s) n then Some s
  else
    let excess := (chars s - n)%nat in
    if forallb (N.eqb 32) (skipn (length s - excess)%nat s)
    then Some (firstn (length s - excess)%nat s)
    else None.

(** [ORDER BY created_at DESC]; rows of equal time come in some order, here
    the one of the insertion sort. *)
Fixpoint insert_desc (x : Item) (l : list Item) : list Item :=
  match l with
  | [] => [x]
  | y :: l' =>
      if created_at y <? created_at x then x :: l else y :: insert_desc x l'
  end.

Definition order_by_created_desc (l : list Item) : list Item :=
  fold_right insert_desc [] l.

(** The statements the routes send, with their parameters. *)
Inductive SQL :=
| SelectItemsByOwner (owner : Z)
| SearchItems (owner : Z) (pattern : str)
| SelectItem (item owner : Z)
| InsertItem (owner : Z) (nm nt : str)
| UpdateItem (nm nt : str) (item owner : Z)
| DeleteItemAny (item : Z)
| DeleteItemOwned (item owner : Z)
| SelectUser (usr : Z)
| DeleteUser (usr : Z).

(** A query returns rows or throws. *)
Inductive Result (A : Type) := Ok (a : A) | Thrown.
Arguments Ok {A} a.
Arguments Thrown {A}.

(** The state a request runs in: the database and the statements sent so
    far. *)
Record World := { db : DB; log : list SQL }.

Definition M (A : Type) : Type := World -> Result A * World.

Definition ret {A} (a : A) : M A := fun w => (Ok a, w).

(** An exception before any statement, such as a [TypeError]. *)
Definition throw {A} : M A := fun w => (Thrown, w).

Definition bind {A B} (m : M A) (k : A -> M B) : M B :=
  fun w => match m w with
           | (Ok a, w') => k a w'
           | (Thrown, w') => (Thrown, w')
           end.

Notation "x <- m ;; k" := (bind m (fun x => k))
  (at level 61, m at next level, right associativity).

(** [await pool.query(text, params)]: the statement is recorded and run. *)
Definition pool_query {A} (q : SQL) (run : DB -> Result A * DB) : M A :=
  fun w => let '(r, d) := run (db w) in
           (r, {| db := d; log := log w ++ [q] |}).

Definition is_item (i o : Z) (it : Item) : bool :=
  (id it =? i) && (owner_id it =? o).

Definition select_items_by_owner (o : Z) : M (list ItemRow) :=
  pool_query (SelectItemsByOwner o) (fun d =>
    (Ok (map item_row
           (order_by_created_desc
              (filter (fun it => owner_id it =? o) (vault_items d)))), d)).

Definition select_item (i o : Z) : M (list ItemRow) :=
  pool_query (SelectItem i o) (fun d =>
    if int4 i
    then (Ok (map item_row (filter (is_item i o) (vault_items d))), d)
    else (Thrown, d)).

(** [INSERT INTO vault_items ... RETURNING ...]: the texts must be
    acceptable ([name] is [VARCHAR(255)], [note] is [TEXT]) and are stored
    as they travelled; then the sequence is advanced (and stays advanced
    when the row is refused); the owner must be a row of [users]. *)
Definition insert_item (now o : Z) (nm nt : str) : M (list ItemRow) :=
  pool_query (InsertItem o nm nt) (fun d =>
    if sendable nm && sendable nt then
      match varchar 255 (wire nm) with
      | None => (Thrown, d)
      | Some nm' =>
          let i := vault_items_id_seq d in
          if int4 i then
            if existsb (fun u => u_id u =? o) (users d) then
              let it := {| id := i; owner_id := o; name := nm'; note := wire nt;
                           created_at := now; updated_at := now |} in
              (Ok [item_row it],
               {| users := users d; vault_items := vault_items d ++ [it];
                  vault_items_id_seq := i + 1 |})
            else
              (Thrown, {| users := users d; vault_items := vault_items d;
                          vault_items_id_seq := i + 1 |})
          else (Thrown, d)
      end
    else (Thrown, d)).

Definition set_item (now : Z) (nm nt : str) (it : Item) : Item :=
  {| id := id it; owner_id := owner_id it; name := nm; note := nt;
     created_at := created_at it; updated_at := now |}.

(** [UPDATE vault_items SET name = $1, note = $2, updated_at = ... WHERE
    id = $3 AND owner_id = $4 RETURNING ...], with the same conditions on
    the texts. *)
Definition update_item (now : Z) (nm nt : str) (i o : Z) : M (list ItemRow) :=
  pool_query (UpdateItem nm nt i o) (fun d =>
    if sendable nm && sendable nt && int4 i then
      match varchar 255 (wire nm) with
      | None => (Thrown, d)
      | Some nm' =>
          (Ok (map item_row
                 (map (set_item now nm' (wire nt))
                      (filter (is_item i o) (vault_items d)))),
           {| users := users d;
              vault_items :=
                map (fun it => if is_item i o it
                               then set_item now nm' (wire nt) it else it)
                    (vault_items d);
              vault_items_id_seq := vault_items_id_seq d |})
      end
    else (Thrown, d)).

Definition delete_item_any (i : Z) : M (list Z) :=
  pool_query (DeleteItemAny i) (fun d =>
    if int4 i then
      (Ok (map id (filter (fun it => id it =? i) (vault_items d))),
       {| users := users d;
          vault_items := filter (fun it => negb (id it =? i)) (vault_items d);
          vault_items_id_seq := vault_items_id_seq d |})
    else (Thrown, d)).

Definition delete_item_owned (i o : Z) : M (list Z) :=
  pool_query (DeleteItemOwned i o) (fun d =>
    if int4 i then
      (Ok (map id (filter (is_item i o) (vault_items d))),
       {| users := users d;
          vault_items := filter (fun it => negb (is_item i o it)) (vault_items d);
          vault_items_id_seq := vault_items_id_seq d |})
    else (Thrown, d)).

Definition select_user (i : Z) : M (list UserRow) :=
  pool_query (SelectUser i) (fun d =>
    if int4 i
    then (Ok (map user_row (filter (fun u => u_id u =? i) (users d))), d)
    else (Thrown, d)).

(** [DELETE FROM users]: [ON DELETE CASCADE] removes the items of the
    deleted account. *)
Definition delete_user (i : Z) : M (list Z) :=
  pool_query (DeleteUser i) (fun d =>
    if int4 i then
      (Ok (map u_id (filter (fun u => u_id u =? i) (users d))),
       {| users := filter (fun u => negb (u_id u =? i)) (users d);
          vault_items :=
            if existsb (fun u => u_id u =? i) (users d)
            then filter (fun it => negb (owner_id it =? i)) (vault_items d)
            else vault_items d;
          vault_items_id_seq := vault_items_id_seq d |})
    else (Thrown, d)).

(** The constraints of the schema: primary keys are unique and were drawn
    from the sequence, every item has an owner. *)
Record wf (d : DB) : Prop := {
  wf_item_ids : NoDup (map id (vault_items d));
  wf_item_range : forall it, In it (vault_items d) ->
                    1 <= id it < vault_items_id_seq d;
  wf_seq : 1 <= vault_items_id_seq d <= 2147483648;
  wf_user_ids : NoDup (map u_id (users d));
  wf_user_range : forall u, In u (users d) -> int4 (u_id u) = true;
  wf_owner : forall it, In it (vault_items d) ->
               existsb (fun u => u_id u =? owner_id it) (users d) = true }.

(** A computation that keeps the constraints of the schema. *)
Definition preserves {A} (m : M A) : Prop :=
  forall w, wf (db w) -> wf (db (snd (m w))).

End Store.

(* ================================================================== *)
(** ** src/routes/vault.js and src/routes/users.js *)
(* ================================================================== *)

Module Routes.

Import Store.

(** [req.user], set by [requireAuth]: the id of a row of [users] (a 32-bit
    integer, so that of the parameters of a statement only a path
    identifier can be out of range) and the role. *)
Record Principal := { pid : Z; prole : Role }.

(** The JSON bodies the routes send; [result.rows[0]] is a row or
    [undefined]. *)
Inductive Json :=
| JItems (rows : list ItemRow)
| JItem (row : option ItemRow)
| JUser (row : option UserRow)
| JError (msg : string)
| JValidation (details : list Validation.VError)
| JMessage (msg : string).

Record Response := { status : nat; json : Json }.

Definition Handler : Type := World -> Response * World.

(** A route that keeps the constraints of the schema. *)
Definition keeps_schema (h : Handler) : Prop :=
  forall w, wf (db w) -> wf (db (snd (h w))).

Definition send (st : nat) (j : Json) : M Response :=
  ret {| status := st; json := j |}.

(** [try { ... } catch (error) { res.status(500)... }] *)
Definition try_catch (m : M Response) : Handler :=
  fun w => match m w with
           | (Ok r, w') => (r, w')
           | (Thrown, w') =>
               ({| status := 500; json := JError "Internal server error" |}, w')
           end.

(** A validation array in front of a route: [handleValidationErrors]
    answers 400 when a chain left an error, otherwise the route runs on the
    body as the sanitizers left it. *)
Definition validated {B} (v : B -> B * list Validation.VError)
           (route : B -> Handler) (b : B) : Handler :=
  fun w => let '(b', errs) := v b in
           match errs with
           | [] => route b' w
           | _ => ({| status := 400; json := JValidation errs |}, w)
           end.

(** Modelled from the spec: [requireRole] of src/middleware/auth.js, which
    is not among the sources.  The request goes on iff the role of the
    principal is the expected one; otherwise it is answered 403 with the
    message [Access denied]. *)
Definition requireRole (expected : Role) (P : Principal) (next : Handler) : Handler :=
  fun w => if role_eqb (prole P) expected then next w
           else ({| status := 403; json := JError "Access denied" |}, w).

(** The state after one more statement that changed no table. *)
Definition logged (w : World) (q : SQL) : World :=
  {| db := db w; log := log w ++ [q] |}.

(** [note || ''] *)
Definition note_or_empty (v : option str) : str :=
  match v with Some s => s | None => [] end.

(** [router.get('/')] of vault.js *)
Definition vault_get (P : Principal) : Handler :=
  try_catch (
    rows <- select_items_by_owner (pid P) ;;
    send 200 (JItems rows)).

(** [router.get('/:id')] of vault.js *)
Definition vault_get_id (P : Principal) (id_param : str) : Handler :=
  try_catch (
    match parseInt id_param with
    | None => send 400 (JError "Invalid item ID")
    | Some itemId =>
        rows <- select_item itemId (pid P) ;;
        match rows with
        | [] => send 404 (JError "Vault item not found")
        | _ => send 200 (JItem (hd_error rows))
        end
    end).

(** [router.post('/', validateVaultItem, ...)] of vault.js, on a body of
    strings *)
Definition vault_post (now : Z) (P : Principal) : Validation.ItemBody -> Handler :=
  validated Validation.validateVaultItem (fun b =>
    try_catch (
      let sanitizedNote := sanitizeNote (note_or_empty (Validation.note b)) in
      rows <- insert_item now (pid P)
                (trim (Validation.toString (Validation.name b))) sanitizedNote ;;
      send 201 (JItem (hd_error rows)))).

(** [router.put('/:id', validateVaultItem, ...)] of vault.js, on a body of
    strings *)
Definition vault_put_id (now : Z) (P : Principal) (id_param : str)
  : Validation.ItemBody -> Handler :=
  validated Validation.validateVaultItem (fun b =>
    try_catch (
      match parseInt id_param with
      | None => send 400 (JError "Invalid item ID")
      | Some itemId =>
          let sanitizedNote := sanitizeNote (note_or_empty (Validation.note b)) in
          rows <- update_item now
                    (trim (Validation.toString (Validation.name b)))
                    sanitizedNote itemId (pid P) ;;
          match rows with
          | [] => send 404 (JError "Vault item not found")
          | _ => send 200 (JItem (hd_error rows))
          end
      end)).

(** [router.delete('/:id')] of vault.js *)
Definition vault_delete_id (P : Principal) (id_param : str) : Handler :=
  try_catch (
    match parseInt id_param with
    | None => send 400 (JError "Invalid item ID")
    | Some itemId =>
        result <- (if role_eqb (prole P) admin
                   then delete_item_any itemId
                   else delete_item_owned itemId (pid P)) ;;
        match result with
        | [] => send 404 (JError "Vault item not found")
        | _ => send 200 (JMessage "Vault item deleted successfully")
        end
    end).

Section Search.

(** [name ILIKE $2 OR note ILIKE $2] is decided by the storage engine:
    [ilike text pattern]. *)
Variable ilike : str -> str -> bool.

Definition search_items (o : Z) (pattern : str) : M (list ItemRow) :=
  pool_query (SearchItems o pattern) (fun d =>
    if sendable pattern then
      (Ok (map item_row
             (order_by_created_desc
                (filter (fun it => (owner_id it =? o)%Z
                                   && (ilike (name it) (wire pattern)
                                       || ilike (note it) (wire pattern)))
                        (vault_items d)))), d)
    else (Thrown, d)).

(** [router.post('/search', validateSearch, ...)] of vault.js, on a body
    of strings *)
Definition vault_search (P : Principal) : Validation.SearchBody -> Handler :=
  validated Validation.validateSearch (fun b =>
    try_catch (
      match Validation.query b with
      | None => send 200 (JItems [])
      | Some q =>
          match q with
          | [] => send 200 (JItems [])
          | _ =>
              if Nat.eqb (length (trim q)) 0 then send 200 (JItems [])
              else
                let searchPattern := lit "%" ++ trim q ++ lit "%" in
                rows <- search_items (pid P) searchPattern ;;
                send 200 (JItems rows)
          end
      end)).

End Search.

(** *** The same three routes on a body with any value in a field

    [name.trim()] and [query.trim()] throw when the field is an array
    ([trim] is not a function of arrays); [sanitizeNote] hands an array
    back as it is, and the statement then carries the array. *)
Definition vault_post_any (now : Z) (P : Principal)
  : Validation.AnyItemBody -> Handler :=
  validated Validation.validateVaultItem_any (fun b =>
    try_catch (
      let sanitizedNote :=
        sanitizeNote_any (match Validation.any_note b with
                          | Some v => if falsy v then VText [] else v
                          | None => VText []
                          end) in
      match Validation.any_name b with
      | Some (VText n) =>
          rows <- insert_item now (pid P) (trim n) (param_text sanitizedNote) ;;
          send 201 (JItem (hd_error rows))
      | _ => throw
      end)).

Definition vault_put_id_any (now : Z) (P : Principal) (id_param : str)
  : Validation.AnyItemBody -> Handler :=
  validated Validation.validateVaultItem_any (fun b =>
    try_catch (
      match parseInt id_param with
      | None => send 400 (JError "Invalid item ID")
      | Some itemId =>
          let sanitizedNote :=
            sanitizeNote_any (match Validation.any_note b with
                              | Some v => if falsy v then VText [] else v
                              | None => VText []
                              end) in
          match Validation.any_name b with
          | Some (VText n) =>
              rows <- update_item now (trim n) (param_text sanitizedNote)
                        itemId (pid P) ;;
              match rows with
              | [] => send 404 (JError "Vault item not found")
              | _ => send 200 (JItem (hd_error rows))
              end
          | _ => throw
          end
      end)).

(** The note parameter of the two statements, from the note of the body
    the route reads: [sanitizeNote(note || '')] as it leaves. *)
Definition note_parameter (o : option Value) : str :=
  param_text (sanitizeNote_any (match o with
                                | Some v => if falsy v then VText [] else v
                                | None => VText []
                                end)).

(** The same from the body of the request: the chains rewrite the body
    before the route reads it. *)
Definition sent_note (b : Validation.AnyItemBody) : str :=
  note_parameter (Validation.any_note (fst (Validation.validateVaultItem_any b))).

Section SearchAny.

Variable ilike : str -> str -> bool.

Definition vault_search_any (P : Principal)
  : Validation.AnySearchBody -> Handler :=
  validated Validation.validateSearch_any (fun b =>
    try_catch (
      match Validation.any_query b with
      | None => send 200 (JItems [])
      | Some (VList _) => throw
      | Some (VText q) =>
          match q with
          | [] => send 200 (JItems [])
          | _ =>
              if Nat.eqb (length (trim q)) 0 then send 200 (JItems [])
              else
                let searchPattern := lit "%" ++ trim q ++ lit "%" in
                rows <- search_items ilike (pid P) searchPattern ;;
                send 200 (JItems rows)
          end
      end)).

End SearchAny.

(** [router.get('/:id')] of users.js, behind [router.use(requireRole('admin'))] *)
Definition users_get_id (P : Principal) (id_param : str) : Handler :=
  requireRole admin P (
    try_catch (
      match parseInt id_param with
      | None => send 400 (JError "Invalid user ID")
      | Some userId =>
          rows <- select_user userId ;;
          match rows with
          | [] => send 404 (JError "User not found")
          | _ => send 200 (JUser (hd_error rows))
          end
      end)).

(** [router.delete('/:id')] of users.js, behind the same gate *)
Definition users_delete_id (P : Principal) (id_param : str) : Handler :=
  requireRole admin P (
    try_catch (
      match parseInt id_param with
      | None => send 400 (JError "Invalid user ID")
      | Some userId =>
          if (userId =? pid P)%Z
          then send 400 (JError "Cannot delete your own account")
          else
            result <- delete_user userId ;;
            match result with
            | [] => send 404 (JError "User not found")
            | _ => send 200 (JMessage "User deleted successfully")
            end
      end)).

End Routes.

(* ================================================================== *)
(** ** Notions of the design document *)
(* ================================================================== *)

Module Design.

(** The entity-encoding stage, character by character: the replacement of
    each of the five significant characters, any other character kept. *)
Definition entity (c : char) : str :=
  if N.eqb c 38 then lit "&amp;"
  else if N.eqb c 60 then lit "&lt;"
  else if N.eqb c 62 then lit "&gt;"
  else if N.eqb c 34 then lit "&quot;"
  else if N.eqb c 39 then lit "&#039;"
  else [c].

Definition encode (s : str) : str := flat_map entity s.



(** The expression [m] matches nowhere in [s]. *)
Fixpoint no_match (m : str -> option nat) (s : str) : bool :=
  match m s with
  | Some _ => false
  | None => match s with [] => true | _ :: t => no_match m t end
  end.

(** [s] holds the token [javascript:] in some letter case. *)
Definition has_javascript (s : str) : bool :=
  negb (no_match match_javascript s).

(** [s] holds an ampersand. *)
Definition has_ampersand (s : str) : bool := existsb (N.eqb 38) s.

(** [s] holds none of the five significant characters. *)
Definition plain (s : str) : Prop :=
  forall x, In x s -> isHtmlSpecial x = false.

(** Sanitizing once more changes nothing. *)
Definition stable (s : str) : Prop := sanitizeNote s = s.

End Design.

(* ================================================================== *)
(** ** A small database for the examples *)
(* ================================================================== *)

Module Scenario.

Import Store Routes.

Local Open Scope Z_scope.

Definition alice : User :=
  {| u_id := 1; email := lit "admin@safevault.com"; password_hash := lit "h1";
     role := admin; u_created_at := 0 |}.
Definition bob : User :=
  {| u_id := 2; email := lit "user@test.com"; password_hash := lit "h2";
     role := user; u_created_at := 1 |}.
Definition carol : User :=
  {| u_id := 3; email := lit "carol@test.com"; password_hash := lit "h3";
     role := user; u_created_at := 2 |}.

Definition item1 : Item :=
  {| id := 1; owner_id := 2; name := lit "Item 1"; note := lit "Note 1";
     created_at := 10; updated_at := 10 |}.
Definition item2 : Item :=
  {| id := 2; owner_id := 2; name := lit "Item 2"; note := lit "Note 2";
     created_at := 11; updated_at := 11 |}.
Definition item3 : Item :=
  {| id := 3; owner_id := 3; name := lit "Carol Item"; note := lit "Test";
     created_at := 12; updated_at := 12 |}.
Definition item4 : Item :=
  {| id := 4; owner_id := 1; name := lit "Admin Item"; note := lit "Test";
     created_at := 13; updated_at := 13 |}.

Definition db0 : DB :=
  {| users := [alice; bob; carol];
     vault_items := [item1; item2; item3; item4];
     vault_items_id_seq := 5 |}.

Definition w0 : World := {| db := db0; log := [] |}.

Definition as_alice : Principal := {| pid := 1; prole := admin |}.
Definition as_bob : Principal := {| pid := 2; prole := user |}.
Definition as_carol : Principal := {| pid := 3; prole := user |}.

End Scenario.

(* ================================================================== *)
(** ** Relations used to state what the code keeps *)
(* ================================================================== *)

Module Notions.

(** [subseq s t]: [s] is [t] with some code units deleted, none added,
    changed or moved. *)
Inductive subseq : str -> str -> Prop :=
| subseq_nil : subseq [] []
| subseq_skip c s t : subseq s t -> subseq s (c :: t)
| subseq_keep c s t : subseq s t -> subseq (c :: s) (c :: t).

(** The order of [ORDER BY created_at DESC]. *)
Definition newer_first (a b : Store.Item) : Prop :=
  (Store.created_at b <= Store.created_at a)%Z.

(** The fields of an item that no route rewrites. *)
Definition same_identity (a b : Store.Item) : Prop :=
  Store.id a = Store.id b /\ Store.owner_id a = Store.owner_id b
  /\ Store.created_at a = Store.created_at b.

End Notions.

(* ================================================================== *)
(** ** Accounts: the rest of validation.js, users.js and vault.js, and
       src/database/setup.js *)
(* ================================================================== *)

Module Accounts.

Import Store.

(** *** The chains of [validateUser] and [validateUserUpdate]

    First on a body whose fields are strings.  A field as a chain may
    leave it: missing, a string, or [false] (what validator.js
    [normalizeEmail] returns for an address it cannot normalise).  The
    validators read a field through express-validator's [toString]: the
    empty string for a missing field, the text [false] for [false].  The
    bodies with an array in a field come after ([AnyUpdate]). *)
Inductive Field := Undefined | Text (s : str) | FalseValue.

Definition fieldString (v : Field) : str :=
  match v with
  | Undefined => []
  | Text s => s
  | FalseValue => lit "false"
  end.

(** [if (email)], [if (role)]: a non-empty string. *)
Definition truthy (v : Field) : bool :=
  match v with
  | Text (_ :: _) => true
  | _ => false
  end.

(** The dot of a regular expression without the [s] flag matches any code
    unit but a line terminator. *)
Definition isLineTerminator (c : char) : bool :=
  N.eqb c 10 || N.eqb c 13 || N.eqb c 8232 || N.eqb c 8233.

(** What [.*] can run over from the start of the text. *)
Definition first_line (s : str) : str :=
  takeWhile (fun c => negb (isLineTerminator c)) s.

(** [(?=.*[class])] at the start of the text: the greedy [.*] gives back
    code units until one of the class follows; none of the three classes
    holds a line terminator, so the lookahead succeeds iff the first line
    holds a code unit of the class. *)
Definition ahead (cls : char -> bool) (s : str) : bool :=
  existsb cls (first_line s).

(** [/^(?=.*[a-z])(?=.*[A-Z])(?=.*\d)/] *)
Definition matches_password (s : str) : bool :=
  ahead isLower s && ahead isUpper s && ahead isDigit s.

(** The chain of [body('password')] of [validateUser]. *)
Definition password_chain (v : Field) : list Validation.VError :=
  let s := fieldString v in
  Validation.check (Validation.isLength 8 (Some 100) s) "password"
    "Password must be between 8 and 100 characters"
  ++ Validation.check (matches_password s) "password"
       "Password must contain at least one uppercase letter, one lowercase letter, and one number".

(** [isIn(['admin', 'user', 'auditor'])]: one of the texts, as it is. *)
Definition role_names : list str := [lit "admin"; lit "user"; lit "auditor"].

Definition isIn (values : list str) (s : str) : bool :=
  existsb (text_eqb s) values.

(** The chain of [body('role')] of [validateUserUpdate]. *)
Definition role_chain (v : Field) : list Validation.VError :=
  match v with
  | Undefined => []
  | _ =>
      Validation.check (isIn role_names (fieldString v)) "role"
        "Role must be one of: admin, user, auditor"
  end.

(** The role a name of [role_names] stands for in the table. *)
Definition role_of_name (s : str) : option Role :=
  if text_eqb s (lit "admin") then Some admin
  else if text_eqb s (lit "user") then Some user
  else if text_eqb s (lit "auditor") then Some auditor
  else None.

(** The value of the column for a text. *)
Definition role_of_text (s : str) : Role :=
  match role_of_name s with
  | Some r => r
  | None => other_role s
  end.

Record UserForm := { f_email : Field; f_password : Field }.
Record UpdateForm := { up_email : Field; up_role : Field }.

(** *** The state of the server for these routes and for the setup: the
    tables, the sequence behind [users.id SERIAL], the statements sent. *)
Inductive Statement :=
| CreateUsers
| CreateVaultItems
| CreateOwnerIndex
| SelectUserIdByEmail (e : str)
| InsertUser (e h : str) (r : Role)
| SelectAllUsers
| SelectAllItemsWithOwner
| UpdateUser (e r : option str) (usr : Z).

Record Server := { tables : DB; users_id_seq : Z; sent : list Statement }.

(** The errors a statement can raise, by what the routes tell apart:
    [23505] and the others. *)
Inductive PgError := unique_violation | other_error.

Inductive Outcome (A : Type) := Done (a : A) | Failed (e : PgError).
Arguments Done {A} a.
Arguments Failed {A} e.

Definition Q (A : Type) : Type := Server -> Outcome A * Server.

Definition query {A} (q : Statement) (run : Server -> Outcome A * Server) : Q A :=
  fun s => let '(r, s') := run s in
           (r, {| tables := tables s'; users_id_seq := users_id_seq s';
                  sent := sent s ++ [q] |}).

Definition with_tables (s : Server) (d : DB) : Server :=
  {| tables := d; users_id_seq := users_id_seq s; sent := sent s |}.

(** The JSON bodies of these routes. *)
Inductive Body :=
| BUsers (rows : list UserRow)
| BItemsWithOwner (rows : list (ItemRow * str))
| BUser (row : option UserRow)
| BError (msg : string)
| BValidation (details : list Validation.VError).

Record Reply := { code : nat; body : Body }.

Definition Route : Type := Server -> Reply * Server.

Definition reply (c : nat) (b : Body) : Reply := {| code := c; body := b |}.

Definition internal_error : Reply := reply 500 (BError "Internal server error").

(** Modelled from the spec: [requireRole('admin')] of
    src/middleware/auth.js, which is not among the sources, in front of
    these routes: 403 with [Access denied] unless the role is admin. *)
Definition admin_only (P : Routes.Principal) (next : Route) : Route :=
  fun s => if role_eqb (Routes.prole P) admin then next s
           else (reply 403 (BError "Access denied"), s).

(** A validation array in front of a route, as [Routes.validated]. *)
Definition checked {B} (v : B -> B * list Validation.VError)
           (route : B -> Route) (b : B) : Route :=
  fun s => let '(b', errs) := v b in
           match errs with
           | [] => route b' s
           | _ => (reply 400 (BValidation errs), s)
           end.

(** [ORDER BY created_at DESC] on accounts. *)
Fixpoint insert_user_desc (x : User) (l : list User) : list User :=
  match l with
  | [] => [x]
  | y :: l' =>
      if (u_created_at y <? u_created_at x)%Z then x :: l
      else y :: insert_user_desc x l'
  end.

Definition users_newest_first (l : list User) : list User :=
  fold_right insert_user_desc [] l.

(** [router.get('/')] of users.js *)
Definition users_get (P : Routes.Principal) : Route :=
  admin_only P (fun s =>
    match query SelectAllUsers (fun s =>
            (Done (map user_row (users_newest_first (users (tables s)))), s)) s with
    | (Done rows, s') => (reply 200 (BUsers rows), s')
    | (Failed _, s') => (internal_error, s')
    end).

(** [vault_items v JOIN users u ON v.owner_id = u.id]: one row for each
    item and each account with the owner's id. *)
Definition join_owner (us : list User) (it : Item) : list (ItemRow * str) :=
  map (fun u => (item_row it, email u))
      (filter (fun u => (owner_id it =? u_id u)%Z) us).

(** [router.get('/all', requireRole('admin'), ...)] of vault.js *)
Definition vault_get_all (P : Routes.Principal) : Route :=
  admin_only P (fun s =>
    match query SelectAllItemsWithOwner (fun s =>
            (Done (flat_map (join_owner (users (tables s)))
                            (order_by_created_desc (vault_items (tables s)))), s)) s with
    | (Done rows, s') => (reply 200 (BItemsWithOwner rows), s')
    | (Failed _, s') => (internal_error, s')
    end).

Section Email.

(** validator.js [isEmail] and [normalizeEmail] (a string, or [false]) are
    taken as they come. *)
Variable isEmail : str -> bool.
Variable normalizeEmail : str -> option str.

(** [.isEmail()...normalizeEmail().isLength({ max: 255 })...]: the
    address is checked as sent, rewritten, and its length checked as
    rewritten. *)
Definition email_steps (v : Field) : Field * list Validation.VError :=
  let s := fieldString v in
  let v' := match normalizeEmail s with
            | Some t => Text t
            | None => FalseValue
            end in
  (v',
   Validation.check (isEmail s) "email" "Must be a valid email address"
   ++ Validation.check (Validation.isLength 0 (Some 255) (fieldString v'))
        "email" "Email must be at most 255 characters").

(** [validateUser] up to [handleValidationErrors]. *)
Definition validateUser (b : UserForm) : UserForm * list Validation.VError :=
  let '(e, errs) := email_steps (f_email b) in
  ({| f_email := e; f_password := f_password b |},
   errs ++ password_chain (f_password b)).

(** The chain of [body('email')] of [validateUserUpdate]: [optional()]
    skips a missing field. *)
Definition email_update_chain (v : Field) : Field * list Validation.VError :=
  match v with
  | Undefined => (Undefined, [])
  | _ => email_steps v
  end.

(** [validateUserUpdate] up to [handleValidationErrors]. *)
Definition validateUserUpdate (b : UpdateForm)
  : UpdateForm * list Validation.VError :=
  let '(e, errs) := email_update_chain (up_email b) in
  ({| up_email := e; up_role := up_role b |}, errs ++ role_chain (up_role b)).

(** [UPDATE users SET ... WHERE id = $n RETURNING id, email, role,
    created_at], with the fields the route put in the statement, each as
    the text it leaves as.  The identifier must be a 32-bit integer.  The
    values are brought to their columns when the statement is prepared,
    whatever rows it would meet: [email] is [VARCHAR(255)], [role] is
    [VARCHAR(50)] (see [varchar]); a role leaves as UTF-8 and must hold no
    U+0000 (an address has passed [isEmail]).  [email] is [UNIQUE]: the
    statement fails with [23505] when a row it rewrites would share its
    address with another row. *)
Definition rewrite_user (e : option str) (r : option Role) (u : User) : User :=
  {| u_id := u_id u;
     email := match e with Some t => t | None => email u end;
     password_hash := password_hash u;
     role := match r with Some x => x | None => role u end;
     u_created_at := u_created_at u |}.

(** What a parameter becomes in its column; [None] when it is refused. *)
Definition stored_email (e : option str) : option (option str) :=
  match e with
  | None => Some None
  | Some t => option_map Some (varchar 255 t)
  end.

Definition stored_role (r : option str) : option (option Role) :=
  match r with
  | None => Some None
  | Some name =>
      if sendable name
      then option_map (fun x => Some (role_of_text x)) (varchar 50 (wire name))
      else None
  end.

Definition update_user (e r : option str) (i : Z) : Q (list UserRow) :=
  query (UpdateUser e r i) (fun s =>
    let us := users (tables s) in
    let hit := fun u => (u_id u =? i)%Z in
    let targets := filter hit us in
    if negb (int4 i) then (Failed other_error, s)
    else match stored_email e, stored_role r with
         | Some e', Some r' =>
             let clash :=
               match e', targets with
               | Some t, _ :: rest =>
                   negb (Nat.eqb (length rest) 0)
                   || existsb (fun u => negb (hit u) && text_eqb (email u) t) us
               | _, _ => false
               end in
             if clash then (Failed unique_violation, s)
             else
               (Done (map user_row (map (rewrite_user e' r') targets)),
                with_tables s
                  {| users := map (fun u => if hit u then rewrite_user e' r' u else u) us;
                     vault_items := vault_items (tables s);
                     vault_items_id_seq := vault_items_id_seq (tables s) |})
         | _, _ => (Failed other_error, s)
         end).

(** [router.put('/:id', validateUserUpdate, ...)] of users.js, on a body
    of strings *)
Definition users_put_id (P : Routes.Principal) (id_param : str)
  : UpdateForm -> Route :=
  fun b => admin_only P (checked validateUserUpdate (fun b s =>
    match parseInt id_param with
    | None => (reply 400 (BError "Invalid user ID"), s)
    | Some userId =>
        let e := if truthy (up_email b)
                 then Some (fieldString (up_email b)) else None in
        let r := if truthy (up_role b)
                 then Some (fieldString (up_role b)) else None in
        match e, r with
        | None, None => (reply 400 (BError "No fields to update"), s)
        | _, _ =>
            match update_user e r userId s with
            | (Done [], s') => (reply 404 (BError "User not found"), s')
            | (Done rows, s') => (reply 200 (BUser (hd_error rows)), s')
            | (Failed unique_violation, s') =>
                (reply 400 (BError "Email already exists"), s')
            | (Failed other_error, s') => (internal_error, s')
            end
        end
    end) b).

(** *** The same route on a body with any value in a field

    An array passes a chain when each of its elements does.
    [normalizeEmail] rewrites each element of an array address (to a
    string, or to [false]); the chain of [role] has no sanitizer, so the
    route reads the role as it was sent.  An array is truthy, and the
    statement carries it as the text of an array. *)
Record AnyUpdate := { any_email : option Value; any_role : option Value }.

(** The address as the chain leaves it. *)
Inductive Address :=
| AText (s : str)
| AFalse
| AList (l : list (option str)).

Definition shown (o : option str) : str :=
  match o with Some t => t | None => lit "false" end.

Definition email_chain_any (v : option Value)
  : option Address * list Validation.VError :=
  match v with
  | None => (None, [])
  | Some x =>
      let a := match x with
               | VList l =>
                   AList (map (fun y => normalizeEmail (Validation.toText y)) l)
               | _ =>
                   match normalizeEmail (Validation.toText x) with
                   | Some t => AText t
                   | None => AFalse
                   end
               end in
      let after := match a with
                   | AList l => l
                   | AText t => [Some t]
                   | AFalse => [None]
                   end in
      (Some a,
       Validation.check_each isEmail "email" "Must be a valid email address" x
       ++ flat_map (fun o =>
                      Validation.check
                        (Validation.isLength 0 (Some 255) (shown o))
                        "email" "Email must be at most 255 characters") after)
  end.

Definition role_chain_any (v : option Value) : list Validation.VError :=
  match v with
  | None => []
  | Some x =>
      Validation.check_each (isIn role_names) "role"
        "Role must be one of: admin, user, auditor" x
  end.

Definition validateUserUpdate_any (b : AnyUpdate)
  : (option Address * option Value) * list Validation.VError :=
  let '(e, errs) := email_chain_any (any_email b) in
  ((e, any_role b), errs ++ role_chain_any (any_role b)).

(** The text an address leaves as, when the route puts it in the
    statement ([if (email)]). *)
Definition email_param (a : option Address) : option str :=
  match a with
  | Some (AText (c :: t)) => Some (c :: t)
  | Some (AList l) =>
      Some (123%N :: join [44%N] (map (fun o => escapeElement (shown o)) l)
            ++ [125%N])
  | _ => None
  end.

(** The same for the role ([if (role)]). *)
Definition role_param (v : option Value) : option str :=
  match v with
  | Some (VText (c :: t)) => Some (c :: t)
  | Some (VList l) => Some (arrayString (VList l))
  | _ => None
  end.

Definition users_put_id_any (P : Routes.Principal) (id_param : str)
  : AnyUpdate -> Route :=
  fun b => admin_only P (fun s =>
    let '((email, role), errs) := validateUserUpdate_any b in
    match errs with
    | _ :: _ => (reply 400 (BValidation errs), s)
    | [] =>
        match parseInt id_param with
        | None => (reply 400 (BError "Invalid user ID"), s)
        | Some userId =>
            match email_param email, role_param role with
            | None, None => (reply 400 (BError "No fields to update"), s)
            | e, r =>
                match update_user e r userId s with
                | (Done [], s') => (reply 404 (BError "User not found"), s')
                | (Done rows, s') => (reply 200 (BUser (hd_error rows)), s')
                | (Failed unique_violation, s') =>
                    (reply 400 (BError "Email already exists"), s')
                | (Failed other_error, s') => (internal_error, s')
                end
            end
        end
    end).

(** A body of strings among the bodies of any values ([false] in a field
    is read as its text). *)
Definition any_field (v : Field) : option Value :=
  match v with
  | Undefined => None
  | Text s => Some (VText s)
  | FalseValue => Some (VText (lit "false"))
  end.

Definition any_update (b : UpdateForm) : AnyUpdate :=
  {| any_email := any_field (up_email b); any_role := any_field (up_role b) |}.

End Email.

(** *** [setupDatabase] of src/database/setup.js

    [CREATE TABLE IF NOT EXISTS] and [CREATE INDEX IF NOT EXISTS] leave
    existing tables as they are; a table that did not exist is an empty
    one afterwards, which is how the model holds it from the start. *)
Definition create_if_not_exists (q : Statement) : Q unit :=
  query q (fun s => (Done tt, s)).

(** [SELECT id FROM users WHERE email = $1] *)
Definition select_user_id_by_email (e : str) : Q (list Z) :=
  query (SelectUserIdByEmail e) (fun s =>
    (Done (map u_id (filter (fun u => text_eqb (email u) e) (users (tables s)))), s)).

(** [INSERT INTO users (email, password_hash, role) VALUES ...]: both
    texts are brought to [VARCHAR(255)] when the statement is prepared
    (see [varchar]); then the id comes from the sequence (which stays
    advanced when the row is refused) and the time from the clock; the
    address as stored must be new. *)
Definition insert_user (now : Z) (e h : str) (r : Role) : Q unit :=
  query (InsertUser e h r) (fun s =>
    match varchar 255 e, varchar 255 h with
    | Some e', Some h' =>
        let i := users_id_seq s in
        if negb (int4 i) then (Failed other_error, s)
        else
          let s1 := {| tables := tables s; users_id_seq := (i + 1)%Z;
                       sent := sent s |} in
          if existsb (fun u => text_eqb (email u) e') (users (tables s))
          then (Failed unique_violation, s1)
          else
            (Done tt,
             with_tables s1
               {| users := users (tables s)
                           ++ [{| u_id := i; email := e'; password_hash := h';
                                  role := r; u_created_at := now |}];
                  vault_items := vault_items (tables s);
                  vault_items_id_seq := vault_items_id_seq (tables s) |})
    | _, _ => (Failed other_error, s)
    end).

Definition then_ {A B} (m : Q A) (k : A -> Q B) : Q B :=
  fun s => match m s with
           | (Done a, s') => k a s'
           | (Failed e, s') => (Failed e, s')
           end.

(** [process.env.X || default]: an unset or empty variable gives the
    default. *)
Definition env_or (v : option str) (default : str) : str :=
  match v with
  | Some (c :: t) => c :: t
  | _ => default
  end.

(** One of the two blocks of [setupDatabase]: the account is inserted
    when no row has the address.  [digest] is what [bcrypt.hash] returned
    for this run. *)
Definition ensure_account (now : Z) (e digest : str) (r : Role) : Q unit :=
  then_ (select_user_id_by_email e) (fun existing =>
    match existing with
    | [] => insert_user now e digest r
    | _ => fun s => (Done tt, s)
    end).

(** [setupDatabase]: the exit code of the process and the state it
    leaves.  [env_email] is [DEFAULT_ADMIN_EMAIL]; the two digests are
    those of the default passwords; [now] and [now'] are the times of the
    two insertions. *)
Definition setupDatabase (now now' : Z) (env_email : option str)
           (admin_digest user_digest : str) : Server -> nat * Server :=
  fun s =>
    let run :=
      then_ (create_if_not_exists CreateUsers) (fun _ =>
      then_ (create_if_not_exists CreateVaultItems) (fun _ =>
      then_ (create_if_not_exists CreateOwnerIndex) (fun _ =>
      then_ (ensure_account now (env_or env_email (lit "admin@safevault.com"))
                            admin_digest admin) (fun _ =>
      ensure_account now' (lit "user@test.com") user_digest user)))) in
    match run s with
    | (Done _, s') => (0, s')
    | (Failed _, s') => (1, s')
    end.

(** The constraints of [users] in the schema: addresses and ids are
    unique, and the ids were drawn from the sequence. *)
Record accounts_ok (s : Server) : Prop := {
  ok_emails : NoDup (map email (users (tables s)));
  ok_ids : NoDup (map u_id (users (tables s)));
  ok_range : forall u, In u (users (tables s)) ->
               (1 <= u_id u < users_id_seq s)%Z;
  ok_seq : (1 <= users_id_seq s <= 2147483648)%Z }.

(** The fields of an account that no route rewrites. *)
Definition same_account (a b : User) : Prop :=
  u_id a = u_id b /\ password_hash a = password_hash b
  /\ u_created_at a = u_created_at b.

(** The order of [ORDER BY created_at DESC] on accounts. *)
Definition newer_account_first (a b : User) : Prop :=
  (u_created_at b <= u_created_at a)%Z.

(** The state after a statement that left the tables as they were. *)
Definition noted (s : Server) (q : Statement) : Server :=
  {| tables := tables s; users_id_seq := users_id_seq s; sent := sent s ++ [q] |}.

(** The state of the examples: the tables of [Scenario]. *)
Definition s0 : Server :=
  {| tables := Scenario.db0; users_id_seq := 4; sent := [] |}.

Definition empty_server : Server :=
  {| tables := {| users := []; vault_items := []; vault_items_id_seq := 1 |};
     users_id_seq := 1; sent := [] |}.

End Accounts.

(* ================================================================== *)
(** ** The definitions at work *)
(* ================================================================== *)

(** The payloads of tests/xss.test.js and their stored forms. *)
Example escape_all_five :
  escapeHtml (lit "a<b & 'c'") = lit "a&lt;b &amp; &#039;c&#039;".
Proof. vm_compute. reflexivity. Qed.

Example script_block_removed :
  sanitizeNote (lit "x<script>alert(1)</script>y") = lit "xy".
Proof. vm_compute. reflexivity. Qed.

Example script_block_any_case :
  sanitizeNote (lit "x<SCRIPT src=a>alert(<b>1</b>)</ScRiPt>y<script>")
  = lit "xy&lt;script&gt;".
Proof. vm_compute. reflexivity. Qed.

Example quoted_handler_removed :
  sanitizeNote (lit "<img src=x onerror = 'alert(1)'>") = lit "&lt;img src=x &gt;".
Proof. vm_compute. reflexivity. Qed.

Example unquoted_handler_kept :
  sanitizeNote (lit "<img src=x onerror=alert(1)>")
  = lit "&lt;img src=x onerror=alert(1)&gt;".
Proof. vm_compute. reflexivity. Qed.

Example javascript_token_single_pass :
  sanitizeNote (lit "JavaScript:alert(1) javajavascript:script:")
  = lit "alert(1) javascript:".
Proof. vm_compute. reflexivity. Qed.

(** Stripping before encoding is not encoding before stripping. *)
Example order_of_stages_matters :
  escapeHtml (sanitizeInput (lit "<script>x</script>")) = []
  /\ sanitizeInput (escapeHtml (lit "<script>x</script>"))
     = lit "&lt;script&gt;x&lt;/script&gt;".
Proof. vm_compute. split; reflexivity. Qed.

Example parseInt_prefix : parseInt (lit "  -12abc") = Some (-12)%Z.
Proof. vm_compute. reflexivity. Qed.

Example parseInt_NaN : parseInt (lit "abc") = None.
Proof. vm_compute. reflexivity. Qed.

Example valid_item_has_no_error :
  snd (Validation.validateVaultItem
         {| Validation.name := Some (lit "Valid Item Name 123");
            Validation.note := Some (lit "Valid note content") |}) = [].
Proof. vm_compute. reflexivity. Qed.

Example long_name_has_one_error :
  length (snd (Validation.validateVaultItem
         {| Validation.name := Some (repeat_str (lit "a") 256);
            Validation.note := None |})) = 1.
Proof. vm_compute. reflexivity. Qed.

(** An empty name fails both validators of its chain. *)
Example empty_name_has_two_errors :
  length (snd (Validation.validateVaultItem
         {| Validation.name := Some (lit "   ");
            Validation.note := Some (lit "Test note") |})) = 2.
Proof. vm_compute. reflexivity. Qed.

(** [GET /api/vault] lists the requester's items, newest first. *)
Example own_items_newest_first :
  fst (Routes.vault_get Scenario.as_bob Scenario.w0)
  = {| Routes.status := 200;
       Routes.json := Routes.JItems [Store.item_row Scenario.item2;
                                     Store.item_row Scenario.item1] |}.
Proof. vm_compute. reflexivity. Qed.

(** [parseInt] gives a Number: past 2^53 the nearest one. *)
Example parseInt_rounds_to_a_Number :
  parseInt (lit "9007199254740993") = Some 9007199254740992%Z.
Proof. reflexivity. Qed.

(** [isLength] discounts a variation selector that follows another
    character, once; a selector at the start or after a selector counts. *)
Example selector_after_a_character :
  Validation.len [97; 65039; 65039]%N = 2
  /\ Validation.isLength 0 (Some 100) (65039%N :: repeat 97%N 100) = false.
Proof. split; vm_compute; reflexivity. Qed.

(** [VARCHAR(3)] keeps a text of three characters, cuts the spaces past
    them and refuses anything else past them. *)
Example varchar_cuts_trailing_spaces :
  Store.varchar 3 (lit "abc") = Some (lit "abc")
  /\ Store.varchar 3 (lit "abc  ") = Some (lit "abc")
  /\ Store.varchar 3 (lit "abcd") = None
  /\ Store.varchar 3 (lit "ab d ") = None.
Proof. repeat split; reflexivity. Qed.

(** A surrogate without its other half leaves as U+FFFD; a pair leaves
    as it is. *)
Example lone_surrogate_on_the_wire :
  Store.wire [55357; 97]%N = [65533; 97]%N
  /\ Store.wire [55357; 56832; 97]%N = [55357; 56832; 97]%N.
Proof. split; reflexivity. Qed.

(** The array of one string as a parameter: the string between double
    quotes, between braces. *)
Example array_parameter :
  Store.param_text (VList [VText (lit "admin")])
  = (123 :: 34 :: lit "admin" ++ [34; 125])%N.
Proof. reflexivity. Qed.

(* ================================================================== *)
(** ** Reading back a printed identifier *)
(* ================================================================== *)

Section ParseIntFacts.

Lemma digits_acc d : forall acc,
  fold_left (fun a c => 10 * a + digit_val c)%Z (uint_chars d) (Z.pos acc)
  = Z.pos (Pos.of_uint_acc d acc).
Proof.
  induction d; intros acc; cbn [uint_chars fold_left Pos.of_uint_acc];
    [reflexivity | ..];
    rewrite <- IHd; f_equal; unfold digit_val; lia.
Qed.

Lemma digits_of_uint d :
  fold_left (fun a c => 10 * a + digit_val c)%Z (uint_chars d) 0%Z
  = Z.of_N (Pos.of_uint d).
Proof.
  induction d; cbn [uint_chars fold_left Pos.of_uint Z.of_N];
    [reflexivity | exact IHd | ..];
    rewrite <- digits_acc; f_equal.
Qed.

Lemma isDigit_plain c :
  isDigit c = true ->
  isWhiteSpace c = false /\ N.eqb c 45 = false /\ N.eqb c 43 = false.
Proof.
  unfold isDigit, isWhiteSpace. intros H.
  apply andb_true_iff in H. destruct H as [A B].
  apply N.leb_le in A. apply N.leb_le in B.
  repeat split;
    repeat (apply orb_false_iff; split);
    try (apply andb_false_iff; rewrite !N.leb_gt; lia);
    apply N.eqb_neq; lia.
Qed.

Lemma takeWhile_all f s : forallb f s = true -> takeWhile f s = s.
Proof.
  induction s as [|c t IH]; simpl; [reflexivity |].
  intros H. apply andb_true_iff in H. destruct H as [-> H]. now rewrite IH.
Qed.

Lemma parseInt_digits ds :
  ds <> [] -> forallb isDigit ds = true ->
  parseInt ds = Some (toNumber (digits_val ds))
  /\ parseInt (45%N :: ds) = Some (toNumber (- digits_val ds))%Z.
Proof.
  destruct ds as [|c t]; [congruence |]. intros _ H.
  pose proof (takeWhile_all _ _ H) as T.
  simpl in H. apply andb_true_iff in H. destruct H as [Hc Ht].
  destruct (isDigit_plain _ Hc) as [W [M Pl]].
  unfold parseInt, trimStart. cbn [dropWhile].
  rewrite W. change (isWhiteSpace 45%N) with false. cbv iota.
  rewrite M, Pl. change (N.eqb 45%N 45%N) with true. cbv iota.
  rewrite T. auto.
Qed.

Lemma uint_chars_digits d : forallb isDigit (uint_chars d) = true.
Proof. induction d; simpl; auto. Qed.

Lemma parseInt_uint d :
  d <> Decimal.Nil ->
  parseInt (uint_chars d) = Some (toNumber (Z.of_N (N.of_uint d)))
  /\ parseInt (45%N :: uint_chars d) = Some (toNumber (- Z.of_N (N.of_uint d)))%Z.
Proof.
  intros H. unfold N.of_uint. rewrite <- digits_of_uint.
  apply parseInt_digits; [|apply uint_chars_digits].
  destruct d; [congruence | ..]; discriminate.
Qed.

(** An integer printed in decimal is read as the Number nearest to it. *)
Lemma parseInt_numeral z : parseInt (Number_toString z) = Some (toNumber z).
Proof.
  destruct z as [|p|p]; [reflexivity | |].
  - unfold Number_toString.
    destruct (parseInt_uint (N.to_uint (Npos p))) as [H _].
    { apply DecimalPos.Unsigned.to_uint_nonnil. }
    rewrite H, DecimalN.Unsigned.of_to. reflexivity.
  - unfold Number_toString.
    destruct (parseInt_uint (N.to_uint (Npos p))) as [_ H].
    { apply DecimalPos.Unsigned.to_uint_nonnil. }
    rewrite H, DecimalN.Unsigned.of_to. reflexivity.
Qed.

(** Up to 2^53 in magnitude every integer is a Number. *)
Lemma toNumber_exact z : (Z.abs z <= 2 ^ 53)%Z -> toNumber z = z.
Proof.
  intros H. unfold toNumber. apply Z.leb_le in H. now rewrite H.
Qed.

(** An identifier printed in decimal is read back as itself. *)
Lemma parseInt_Number_toString z :
  (Z.abs z <= 2 ^ 53)%Z -> parseInt (Number_toString z) = Some z.
Proof.
  intros H. now rewrite parseInt_numeral, toNumber_exact.
Qed.

End ParseIntFacts.

(* ================================================================== *)
(** ** Properties of the sanitization pipeline *)
(* ================================================================== *)

Section SanitizeFacts.

Import Design.

Lemma replace_go_no_match m f s :
  no_match m s = true -> replace_go m f 0 s = s.
Proof.
  induction s as [|c t IH]; simpl.
  - destruct (m []); [discriminate | reflexivity].
  - destruct (m (c :: t)); [discriminate |].
    intros H. now rewrite IH.
Qed.

Lemma escapeHtml_encode s : escapeHtml s = encode s.
Proof.
  unfold escapeHtml, replace_all, encode.
  induction s as [|c t IH]; simpl; [reflexivity |].
  unfold entity, isHtmlSpecial.
  destruct (N.eqb c 38); simpl; [now rewrite IH |].
  destruct (N.eqb c 60); simpl; [now rewrite IH |].
  destruct (N.eqb c 62); simpl; [now rewrite IH |].
  destruct (N.eqb c 34); simpl; [now rewrite IH |].
  destruct (N.eqb c 39); simpl; now rewrite IH.
Qed.

(** Of the five significant characters only the ampersand survives
    encoding. *)
Lemma entity_special c x :
  In x (entity c) -> isHtmlSpecial x = true -> x = 38%N.
Proof.
  unfold entity.
  destruct (N.eqb_spec c 38); [|destruct (N.eqb_spec c 60);
    [|destruct (N.eqb_spec c 62); [|destruct (N.eqb_spec c 34);
      [|destruct (N.eqb_spec c 39)]]]];
    simpl; intros H Hx;
    repeat (destruct H as [H|H]; [subst x; try reflexivity; try discriminate |]);
    try contradiction.
  unfold isHtmlSpecial in Hx.
  repeat (apply orb_true_iff in Hx; destruct Hx as [Hx|Hx]);
    apply N.eqb_eq in Hx; congruence.
Qed.

Lemma encode_special s x :
  In x (encode s) -> isHtmlSpecial x = true -> x = 38%N.
Proof.
  unfold encode. rewrite in_flat_map. intros [c [_ H]]. eauto using entity_special.
Qed.

Lemma ci_eqb_lt c : ci_eqb 60%N c = true -> c = 60%N.
Proof.
  unfold ci_eqb, canon.
  replace (isLower 60%N) with false by reflexivity. unfold isLower.
  destruct (N.leb_spec 97 c); destruct (N.leb_spec c 122); cbn [andb];
    intros E; apply N.eqb_eq in E; lia.
Qed.

Lemma match_script_head c t n : match_script (c :: t) = Some n -> c = 60%N.
Proof.
  unfold match_script. simpl prefix_ci.
  destruct (ci_eqb 60%N c) eqn:E; [intros _; now apply ci_eqb_lt | discriminate].
Qed.

Lemma In_dropWhile f x s : In x (dropWhile f s) -> In x s.
Proof.
  induction s as [|c t IH]; simpl; [tauto |].
  destruct (f c); simpl; tauto.
Qed.

Lemma prefix_ci_In p : forall s r x, prefix_ci p s = Some r -> In x r -> In x s.
Proof.
  induction p as [|a p IH]; simpl; intros s r x.
  - intros [= ->]. tauto.
  - destruct s as [|c s]; [discriminate |].
    destruct (ci_eqb a c); [|discriminate].
    intros H Hx. right. eauto.
Qed.

(** An event-handler match needs a quote in the text. *)
Lemma match_handler_quote s n :
  match_handler s = Some n -> exists q, In q s /\ isQuote q = true.
Proof.
  unfold match_handler.
  destruct (prefix_ci (lit "on") s) as [r0|] eqn:E0; [|discriminate].
  destruct (takeWhile isWordChar r0); [discriminate |].
  destruct (dropWhile isWhiteSpace (dropWhile isWordChar r0)) as [|e r2] eqn:E1;
    [discriminate |].
  destruct (N.eqb e 61); [|discriminate].
  destruct (dropWhile isWhiteSpace r2) as [|q r3] eqn:E2; [discriminate |].
  destruct (isQuote q) eqn:Eq; [|discriminate].
  intros _. exists q. split; [|assumption].
  eapply prefix_ci_In; [exact E0 |].
  apply In_dropWhile with (f := isWordChar).
  apply In_dropWhile with (f := isWhiteSpace). rewrite E1. right.
  apply In_dropWhile with (f := isWhiteSpace). rewrite E2. now left.
Qed.

Lemma plain_tail c t : plain (c :: t) -> plain t.
Proof. intros H x Hx. apply H. now right. Qed.

Lemma plain_no_script s : plain s -> no_match match_script s = true.
Proof.
  induction s as [|c t IH]; intros H; [reflexivity |].
  simpl. destruct (match_script (c :: t)) eqn:E.
  - apply match_script_head in E. subst c.
    specialize (H 60%N (or_introl eq_refl)). discriminate.
  - apply IH. eapply plain_tail; eauto.
Qed.

Lemma isQuote_special q : isQuote q = true -> isHtmlSpecial q = true.
Proof.
  unfold isQuote, isHtmlSpecial. intros H.
  apply orb_true_iff in H. destruct H as [H|H]; rewrite H;
    repeat rewrite orb_true_r; reflexivity.
Qed.

Lemma plain_no_handler s : plain s -> no_match match_handler s = true.
Proof.
  induction s as [|c t IH]; intros H; [reflexivity |].
  simpl no_match. destruct (match_handler (c :: t)) eqn:E.
  - apply match_handler_quote in E. destruct E as [q [Hq Q]].
    apply isQuote_special in Q. rewrite (H q Hq) in Q. discriminate.
  - apply IH. eapply plain_tail; eauto.
Qed.

Lemma plain_no_special s : plain s -> no_match match_html_special s = true.
Proof.
  induction s as [|c t IH]; intros H; [reflexivity |].
  simpl. rewrite (H c (or_introl eq_refl)). apply IH. eapply plain_tail; eauto.
Qed.

(** A text without significant characters and without the token is left
    as it is by the whole pipeline. *)
Lemma plain_stable s :
  plain s -> has_javascript s = false -> stable s.
Proof.
  unfold has_javascript, stable. intros P J. apply negb_false_iff in J.
  destruct s as [|c t]; [reflexivity |].
  unfold sanitizeNote, sanitizeInput, remove_all, replace_all, escapeHtml, replace_all.
  rewrite (replace_go_no_match _ _ _ (plain_no_script _ P)).
  rewrite (replace_go_no_match _ _ _ (plain_no_handler _ P)).
  rewrite (replace_go_no_match _ _ _ J).
  apply replace_go_no_match, plain_no_special, P.
Qed.

Lemma sanitizeNote_encode s : sanitizeNote s = encode (sanitizeInput s).
Proof.
  destruct s; [reflexivity |]. unfold sanitizeNote. apply escapeHtml_encode.
Qed.

Lemma sanitizeNote_plain s :
  has_ampersand (sanitizeNote s) = false -> plain (sanitizeNote s).
Proof.
  intros A x Hx. destruct (isHtmlSpecial x) eqn:E; [|reflexivity].
  rewrite sanitizeNote_encode in Hx, A.
  pose proof (encode_special _ _ Hx E) as ->.
  unfold has_ampersand in A.
  assert (existsb (N.eqb 38) (encode (sanitizeInput s)) = true) as A'.
  { apply existsb_exists. exists 38%N. split; [assumption | reflexivity]. }
  congruence.
Qed.

Lemma includes_head s p c q : p = c :: q -> includes s p = true -> In c s.
Proof.
  intros ->. induction s as [|x t IH]; simpl.
  - discriminate.
  - unfold char_eqb. destruct (N.eqb_spec c x); simpl; [intros _; now left |].
    intros H. right. auto.
Qed.

(** No sanitized note holds a less-than sign. *)
Lemma sanitizeNote_no_lt s : ~ In 60%N (sanitizeNote s).
Proof.
  intros H. rewrite sanitizeNote_encode in H.
  apply encode_special in H; [discriminate | reflexivity].
Qed.

Lemma sanitizeNote_no_script_tag s :
  includes (sanitizeNote s) (lit "<script>") = false.
Proof.
  destruct (includes (sanitizeNote s) (lit "<script>")) eqn:E; [|reflexivity].
  exfalso. apply (sanitizeNote_no_lt s).
  eapply includes_head; [|exact E]. reflexivity.
Qed.

End SanitizeFacts.

(* ================================================================== *)
(** ** The claims about the sanitization pipeline *)
(* ================================================================== *)

(** C2, as stated, fails: an ampersand is encoded again by a second pass
    ([&] becomes [&amp;], then [&amp;amp;]), and one pass of the
    [javascript:] removal can leave a token that the next pass removes. *)
Lemma C2_sanitizeNote_not_idempotent :
  ~ (forall s, sanitizeNote (sanitizeNote s) = sanitizeNote s).
Proof.
  intros H. specialize (H (lit "&")). vm_compute in H. discriminate.
Qed.

(** C2, amended: sanitizing twice is the same as sanitizing once whenever
    the sanitized note holds no ampersand (nothing had to be encoded) and
    no [javascript:] token. *)
Theorem C2_sanitizeNote_idempotent_on_plain_output s :
  Design.has_ampersand (sanitizeNote s) = false ->
  Design.has_javascript (sanitizeNote s) = false ->
  sanitizeNote (sanitizeNote s) = sanitizeNote s.
Proof.
  intros A J. apply plain_stable; [now apply sanitizeNote_plain | exact J].
Qed.

Lemma C2_idempotent_witness :
  Design.has_ampersand (sanitizeNote (lit "Valid note content")) = false
  /\ Design.has_javascript (sanitizeNote (lit "Valid note content")) = false
  /\ sanitizeNote (sanitizeNote (lit "Valid note content"))
     = sanitizeNote (lit "Valid note content").
Proof.
  refine (conj eq_refl (conj eq_refl _)).
  apply (C2_sanitizeNote_idempotent_on_plain_output (lit "Valid note content"));
    reflexivity.
Defined.

(* ================================================================== *)
(** ** What the three passes of [sanitizeInput] remove *)
(* ================================================================== *)

Section StrippingFacts.










Lemma takeWhile_stop f ds c rest :
  forallb f ds = true -> f c = false -> takeWhile f (ds ++ c :: rest) = ds.
Proof.
  intros H E. induction ds as [|d ds IH]; simpl in *; [now rewrite E |].
  apply andb_true_iff in H. destruct H as [-> H]. now rewrite IH.
Qed.









End StrippingFacts.




(* ================================================================== *)
(** ** Facts about the tables *)
(* ================================================================== *)

Section StoreFacts.

Import Store.

Lemma db_eta d :
  {| users := users d; vault_items := vault_items d;
     vault_items_id_seq := vault_items_id_seq d |} = d.
Proof. now destruct d. Qed.

Lemma filter_none {A} (f : A -> bool) l :
  (forall x, In x l -> f x = false) -> filter f l = [].
Proof.
  induction l as [|a l IH]; simpl; intros H; [reflexivity |].
  rewrite (H a (or_introl eq_refl)). apply IH. intros x Hx. apply H. now right.
Qed.

Lemma filter_all {A} (f : A -> bool) l :
  (forall x, In x l -> f x = true) -> filter f l = l.
Proof.
  induction l as [|a l IH]; simpl; intros H; [reflexivity |].
  rewrite (H a (or_introl eq_refl)). f_equal. apply IH.
  intros x Hx. apply H. now right.
Qed.

Lemma filter_length_le {A} (f g : A -> bool) l :
  (forall x, f x = true -> g x = true) ->
  length (filter f l) <= length (filter g l).
Proof.
  intros H. induction l as [|a l IH]; simpl; [lia |].
  destruct (f a) eqn:F.
  - rewrite (H a F). simpl. lia.
  - destruct (g a); simpl; lia.
Qed.

(** The primary key singles a row out. *)
Lemma filter_key (f : Item -> bool) l I :
  NoDup (map id l) -> In I l -> f I = true ->
  (forall J, In J l -> f J = true -> id J = id I) ->
  filter f l = [I].
Proof.
  induction l as [|a l IH]; simpl; [tauto |].
  intros N HI F K. inversion N as [|? ? Hnot N']; subst.
  destruct HI as [->|HI].
  - rewrite F. f_equal. apply filter_none. intros J HJ.
    destruct (f J) eqn:FJ; [|reflexivity]. exfalso. apply Hnot.
    rewrite <- (K J (or_intror HJ) FJ). now apply in_map.
  - destruct (f a) eqn:Fa.
    + exfalso. apply Hnot. rewrite (K a (or_introl eq_refl) Fa). now apply in_map.
    + apply IH; auto.
Qed.

Lemma filter_other_key (f : Item -> bool) l I :
  NoDup (map id l) -> In I l -> f I = false ->
  (forall J, In J l -> f J = true -> id J = id I) ->
  filter f l = [].
Proof.
  intros N HI F K. apply filter_none. intros J HJ.
  destruct (f J) eqn:FJ; [|reflexivity].
  assert (J = I) as ->; [|congruence].
  specialize (K J HJ FJ). clear F FJ f.
  induction l as [|a l IH]; simpl in *; [tauto |].
  inversion N as [|? ? Hnot N']; subst.
  destruct HJ as [->|HJ], HI as [->|HI]; auto.
  - exfalso. apply Hnot. rewrite K. now apply in_map.
  - exfalso. apply Hnot. rewrite <- K. now apply in_map.
Qed.

Lemma wf_int4 d I : wf d -> In I (vault_items d) -> int4 (id I) = true.
Proof.
  intros W HI. pose proof (wf_item_range _ W I HI). pose proof (wf_seq _ W).
  unfold int4. apply andb_true_iff. split; apply Z.leb_le; lia.
Qed.

Lemma is_item_key i o J : is_item i o J = true -> id J = i.
Proof.
  unfold is_item. intros H. apply andb_true_iff in H. now apply Z.eqb_eq.
Qed.

Lemma In_insert_desc x y l : In x (insert_desc y l) <-> x = y \/ In x l.
Proof.
  induction l as [|a l IH]; simpl; [intuition congruence |].
  destruct (created_at a <? created_at y)%Z; simpl; [intuition congruence |].
  rewrite IH. intuition congruence.
Qed.

Lemma In_order x l : In x (order_by_created_desc l) <-> In x l.
Proof.
  induction l as [|a l IH]; simpl; [tauto |].
  rewrite In_insert_desc, IH. intuition congruence.
Qed.

Lemma length_insert_desc y l : length (insert_desc y l) = S (length l).
Proof.
  induction l as [|a l IH]; simpl; [reflexivity |].
  destruct (created_at a <? created_at y)%Z; simpl; congruence.
Qed.

Lemma length_order l : length (order_by_created_desc l) = length l.
Proof.
  induction l as [|a l IH]; simpl; [reflexivity |].
  now rewrite length_insert_desc, IH.
Qed.

End StoreFacts.

(* ================================================================== *)
(** ** What validation lets through, and how it travels *)
(* ================================================================== *)

Section ValidationFacts.

Import Store Routes.

Lemma check_nil ok f m : Validation.check ok f m = [] <-> ok = true.
Proof. unfold Validation.check. destruct ok; split; congruence. Qed.

(** No character of a name is half of a surrogate pair or a variation
    selector: the length [isLength] sees is the number of code units. *)
Lemma isNameChar_counts c :
  Validation.isNameChar c = true ->
  Validation.isHighSurrogate c = false
  /\ Validation.isPresentationSelector c = false.
Proof.
  unfold Validation.isNameChar, isLower, isUpper, isDigit, isWhiteSpace,
    Validation.isHighSurrogate, Validation.isPresentationSelector.
  intros H.
  repeat rewrite ?orb_true_iff, ?andb_true_iff, ?N.leb_le, ?N.eqb_eq in H.
  split.
  - apply andb_false_iff. rewrite !N.leb_gt. lia.
  - apply orb_false_iff. rewrite !N.eqb_neq. lia.
Qed.

Lemma name_no_pairs t :
  forallb Validation.isNameChar t = true -> Validation.surrogatePairs t = 0.
Proof.
  induction t as [|c1 t IH]; [reflexivity |].
  intros H. simpl in H. apply andb_true_iff in H. destruct H as [H1 H2].
  destruct t as [|c2 t]; [reflexivity |].
  change (Validation.surrogatePairs (c1 :: c2 :: t))
    with (if Validation.isHighSurrogate c1 && Validation.isLowSurrogate c2
          then S (Validation.surrogatePairs t)
          else Validation.surrogatePairs (c2 :: t)).
  destruct (isNameChar_counts _ H1) as [-> _]. simpl. auto.
Qed.

Lemma name_no_selectors t :
  forallb Validation.isNameChar t = true -> Validation.presentationSequences t = 0.
Proof.
  induction t as [|c1 t IH]; [reflexivity |].
  intros H. simpl in H. apply andb_true_iff in H. destruct H as [H1 H2].
  destruct t as [|c2 t]; [reflexivity |].
  change (Validation.presentationSequences (c1 :: c2 :: t))
    with (if negb (Validation.isPresentationSelector c1)
             && Validation.isPresentationSelector c2
          then S (Validation.presentationSequences t)
          else Validation.presentationSequences (c2 :: t)).
  simpl in H2. apply andb_true_iff in H2. destruct H2 as [H2 H3].
  destruct (isNameChar_counts _ H2) as [_ ->].
  rewrite andb_false_r. apply IH. simpl. now rewrite H2.
Qed.

Lemma name_len t :
  forallb Validation.isNameChar t = true -> Validation.len t = length t.
Proof.
  intros H. unfold Validation.len.
  rewrite (name_no_pairs _ H), (name_no_selectors _ H). lia.
Qed.

Lemma name_chain_accepts n :
  snd (Validation.name_chain n) = []
  <-> (1 <= length (trim (Validation.toString n)) <= 255
       /\ forallb Validation.isNameChar (trim (Validation.toString n)) = true).
Proof.
  unfold Validation.name_chain. cbv zeta. simpl snd.
  set (t := trim (Validation.toString n)).
  split.
  - intros H. apply app_eq_nil in H. destruct H as [H1 H2].
    apply check_nil in H1. apply check_nil in H2.
    assert (forallb Validation.isNameChar t = true) as F
      by (unfold Validation.matches_name in H2; destruct t; [discriminate | exact H2]).
    split; [|exact F].
    unfold Validation.isLength in H1. rewrite (name_len _ F) in H1.
    apply andb_true_iff in H1. destruct H1 as [A B].
    apply Nat.leb_le in A. apply Nat.leb_le in B. lia.
  - intros [L F].
    assert (Validation.isLength 1 (Some 255) t = true) as H1.
    { unfold Validation.isLength. rewrite (name_len _ F).
      apply andb_true_iff. split; apply Nat.leb_le; lia. }
    assert (Validation.matches_name t = true) as H2.
    { unfold Validation.matches_name. destruct t; [simpl in L; lia | exact F]. }
    rewrite H1, H2. reflexivity.
Qed.

Lemma validated_rejects {B} (v : B -> B * list Validation.VError) route b w :
  snd (v b) <> [] ->
  validated v route b w = ({| status := 400; json := JValidation (snd (v b)) |}, w).
Proof.
  unfold validated. destruct (v b) as [b' errs]. simpl.
  destruct errs; [congruence | reflexivity].
Qed.

Lemma validateVaultItem_name_errors b :
  snd (Validation.name_chain (Validation.name b)) <> [] ->
  snd (Validation.validateVaultItem b) <> [].
Proof.
  unfold Validation.validateVaultItem.
  destruct (Validation.name_chain (Validation.name b)) as [n e1].
  destruct (Validation.note_chain (Validation.note b)) as [o e2]. simpl.
  intros H E. apply app_eq_nil in E. tauto.
Qed.

Lemma validateVaultItem_note b :
  Validation.note (fst (Validation.validateVaultItem b))
  = option_map trim (Validation.note b).
Proof.
  unfold Validation.validateVaultItem.
  destruct (Validation.name_chain (Validation.name b)) as [n e1].
  unfold Validation.note_chain. destruct (Validation.note b); reflexivity.
Qed.

Lemma note_or_empty_trim o :
  note_or_empty (option_map trim o) = trim (note_or_empty o).
Proof. destruct o; reflexivity. Qed.

Lemma dropWhile_idem f s : dropWhile f (dropWhile f s) = dropWhile f s.
Proof.
  induction s as [|c t IH]; simpl; [reflexivity |].
  destruct (f c) eqn:E; [exact IH |]. simpl. now rewrite E.
Qed.

Lemma dropWhile_snoc f l c :
  f c = false -> dropWhile f (l ++ [c]) = dropWhile f l ++ [c].
Proof.
  intros E. induction l as [|a l IH]; simpl; [now rewrite E |].
  destruct (f a); [exact IH | reflexivity].
Qed.

Lemma dropWhile_head f s :
  dropWhile f s = [] \/ exists c t, dropWhile f s = c :: t /\ f c = false.
Proof.
  induction s as [|a s IH]; simpl; [now left |].
  destruct (f a) eqn:E; [exact IH |]. right. eauto.
Qed.

(** Trimming a trimmed text changes nothing. *)
Lemma trim_idem s : trim (trim s) = trim s.
Proof.
  unfold trim, trimEnd, trimStart.
  set (u := dropWhile isWhiteSpace s).
  assert (dropWhile isWhiteSpace (rev (dropWhile isWhiteSpace (rev u)))
          = rev (dropWhile isWhiteSpace (rev u))) as H.
  { destruct (dropWhile_head isWhiteSpace s) as [E|[c [t [E W]]]];
      fold u in E; rewrite E.
    - reflexivity.
    - simpl rev. rewrite (dropWhile_snoc _ _ _ W), rev_app_distr. simpl.
      now rewrite W. }
  rewrite H, rev_involutive, dropWhile_idem. reflexivity.
Qed.

(** A text without surrogates travels as it is. *)
Lemma wire_plain s :
  forallb (fun c => negb (isSurrogate c)) s = true -> wire s = s.
Proof.
  induction s as [|c1 s IH]; [reflexivity |].
  intros H. simpl in H. apply andb_true_iff in H. destruct H as [H1 H2].
  apply negb_true_iff in H1.
  destruct s as [|c2 t]; [simpl; now rewrite H1 |].
  change (wire (c1 :: c2 :: t))
    with (if Validation.isHighSurrogate c1 && Validation.isLowSurrogate c2
          then c1 :: c2 :: wire t
          else (if isSurrogate c1 then 65533%N else c1) :: wire (c2 :: t)).
  assert (Validation.isHighSurrogate c1 = false) as ->.
  { unfold isSurrogate in H1. unfold Validation.isHighSurrogate.
    apply andb_false_iff in H1. apply andb_false_iff.
    rewrite !N.leb_gt in *. lia. }
  simpl. rewrite H1. f_equal. now apply IH.
Qed.

(** The code units a travelling text can hold: those it had, and U+FFFD. *)
Lemma In_wire c s : In c (wire s) -> c = 65533%N \/ In c s.
Proof.
  assert (H : forall n s, length s <= n ->
                forall c, In c (wire s) -> c = 65533%N \/ In c s).
  { clear. induction n as [|n IH]; intros s L c.
    - destruct s; [simpl; tauto | simpl in L; lia].
    - destruct s as [|c1 [|c2 t]].
      + simpl. tauto.
      + simpl. destruct (isSurrogate c1); intros [<-|[]]; auto.
      + change (wire (c1 :: c2 :: t))
          with (if Validation.isHighSurrogate c1 && Validation.isLowSurrogate c2
                then c1 :: c2 :: wire t
                else (if isSurrogate c1 then 65533%N else c1) :: wire (c2 :: t)).
        simpl in L.
        destruct (Validation.isHighSurrogate c1 && Validation.isLowSurrogate c2).
        * intros [<-|[<-|H]]; [right; now left | right; right; now left |].
          destruct (IH t ltac:(lia) c H); [now left | right; right; now right].
        * intros [<-|H].
          -- destruct (isSurrogate c1); [now left | right; now left].
          -- destruct (IH (c2 :: t) ltac:(simpl; lia) c H);
               [now left | right; now right]. }
  exact (H (length s) s (le_n _) c).
Qed.

(** A sanitized note holds no less-than sign, and travelling adds none. *)
Lemma stored_note_no_script_tag s :
  includes (wire (sanitizeNote s)) (lit "<script>") = false.
Proof.
  destruct (includes (wire (sanitizeNote s)) (lit "<script>")) eqn:E;
    [|reflexivity].
  exfalso.
  assert (H : In 60%N (wire (sanitizeNote s)))
    by (eapply includes_head; [|exact E]; reflexivity).
  apply In_wire in H. destruct H as [H|H]; [discriminate |].
  exact (sanitizeNote_no_lt s H).
Qed.

Lemma isNameChar_travels c :
  Validation.isNameChar c = true ->
  isSurrogate c = false /\ N.eqb c 0 = false.
Proof.
  unfold Validation.isNameChar, isLower, isUpper, isDigit, isWhiteSpace, isSurrogate.
  intros H.
  repeat rewrite ?orb_true_iff, ?andb_true_iff, ?N.leb_le, ?N.eqb_eq in H.
  split.
  - apply andb_false_iff. rewrite !N.leb_gt. lia.
  - apply N.eqb_neq. lia.
Qed.

(** An accepted name is stored as it is. *)
Lemma name_travels t :
  forallb Validation.isNameChar t = true -> length t <= 255 ->
  sendable t = true /\ varchar 255 (wire t) = Some t.
Proof.
  intros F L. split.
  - unfold sendable. apply forallb_forall. intros c Hc.
    rewrite forallb_forall in F. now destruct (isNameChar_travels c (F c Hc)) as [_ ->].
  - rewrite wire_plain.
    + unfold varchar, chars. rewrite (name_no_pairs _ F), Nat.sub_0_r.
      apply Nat.leb_le in L. now rewrite L.
    + apply forallb_forall. intros c Hc.
      rewrite forallb_forall in F. now destruct (isNameChar_travels c (F c Hc)) as [-> _].
Qed.

(** The name the route reads after a validation without error. *)
Lemma validated_name_travels b :
  snd (Validation.validateVaultItem b) = [] ->
  let nm := trim (Validation.toString
                    (Validation.name (fst (Validation.validateVaultItem b)))) in
  sendable nm = true /\ varchar 255 (wire nm) = Some nm.
Proof.
  intros Hv. cbv zeta.
  assert (N : snd (Validation.name_chain (Validation.name b)) = []).
  { destruct (snd (Validation.name_chain (Validation.name b))) eqn:E; [reflexivity |].
    exfalso. apply (validateVaultItem_name_errors b); [rewrite E; discriminate | exact Hv]. }
  apply name_chain_accepts in N. destruct N as [L F].
  assert (E : Validation.toString
                (Validation.name (fst (Validation.validateVaultItem b)))
              = trim (Validation.toString (Validation.name b))).
  { unfold Validation.validateVaultItem, Validation.name_chain.
    destruct (Validation.note_chain (Validation.note b)). reflexivity. }
  rewrite E.
  assert (T : trim (trim (Validation.toString (Validation.name b)))
              = trim (Validation.toString (Validation.name b))).
  { apply trim_idem. }
  rewrite T. apply name_travels; [exact F | lia].
Qed.

End ValidationFacts.

(* ================================================================== *)
(** ** The routes, evaluated *)
(* ================================================================== *)

Section RouteFacts.

Import Store Routes.

Lemma vault_get_id_eval P p w i :
  parseInt p = Some i -> int4 i = true ->
  vault_get_id P p w =
  (match filter (is_item i (pid P)) (vault_items (db w)) with
   | [] => {| status := 404; json := JError "Vault item not found" |}
   | it :: _ => {| status := 200; json := JItem (Some (item_row it)) |}
   end, logged w (SelectItem i (pid P))).
Proof.
  intros Hp Hi.
  unfold vault_get_id, try_catch, bind, select_item, pool_query, send, ret.
  rewrite Hp, Hi.
  destruct (filter (is_item i (pid P)) (vault_items (db w))); reflexivity.
Qed.

Lemma vault_delete_id_user_eval P p w i :
  parseInt p = Some i -> int4 i = true -> role_eqb (prole P) admin = false ->
  vault_delete_id P p w =
  (match filter (is_item i (pid P)) (vault_items (db w)) with
   | [] => {| status := 404; json := JError "Vault item not found" |}
   | _ => {| status := 200; json := JMessage "Vault item deleted successfully" |}
   end,
   {| db := {| users := users (db w);
               vault_items := filter (fun it => negb (is_item i (pid P) it))
                                     (vault_items (db w));
               vault_items_id_seq := vault_items_id_seq (db w) |};
      log := log w ++ [DeleteItemOwned i (pid P)] |}).
Proof.
  intros Hp Hi Hr.
  unfold vault_delete_id, try_catch, bind, delete_item_owned, pool_query, send, ret.
  rewrite Hp, Hr, Hi.
  destruct (filter (is_item i (pid P)) (vault_items (db w))); reflexivity.
Qed.

Lemma vault_delete_id_admin_eval P p w i :
  parseInt p = Some i -> int4 i = true -> role_eqb (prole P) admin = true ->
  vault_delete_id P p w =
  (match filter (fun it => id it =? i)%Z (vault_items (db w)) with
   | [] => {| status := 404; json := JError "Vault item not found" |}
   | _ => {| status := 200; json := JMessage "Vault item deleted successfully" |}
   end,
   {| db := {| users := users (db w);
               vault_items := filter (fun it => negb (id it =? i)%Z)
                                     (vault_items (db w));
               vault_items_id_seq := vault_items_id_seq (db w) |};
      log := log w ++ [DeleteItemAny i] |}).
Proof.
  intros Hp Hi Hr.
  unfold vault_delete_id, try_catch, bind, delete_item_any, pool_query, send, ret.
  rewrite Hp, Hr, Hi.
  destruct (filter (fun it => id it =? i)%Z (vault_items (db w))); reflexivity.
Qed.

Lemma vault_put_id_eval now P p b w i :
  snd (Validation.validateVaultItem b) = [] ->
  parseInt p = Some i -> int4 i = true ->
  let b' := fst (Validation.validateVaultItem b) in
  let nm := trim (Validation.toString (Validation.name b')) in
  let nt := sanitizeNote (note_or_empty (Validation.note b')) in
  vault_put_id now P p b w =
  if sendable nt then
    (match filter (is_item i (pid P)) (vault_items (db w)) with
     | [] => {| status := 404; json := JError "Vault item not found" |}
     | it :: _ =>
         {| status := 200;
            json := JItem (Some (item_row (set_item now nm (wire nt) it))) |}
     end,
     {| db := {| users := users (db w);
                 vault_items :=
                   map (fun it => if is_item i (pid P) it
                                  then set_item now nm (wire nt) it else it)
                       (vault_items (db w));
                 vault_items_id_seq := vault_items_id_seq (db w) |};
        log := log w ++ [UpdateItem nm nt i (pid P)] |})
  else
    ({| status := 500; json := JError "Internal server error" |},
     logged w (UpdateItem nm nt i (pid P))).
Proof.
  intros Hv Hp Hi. cbv zeta.
  destruct (validated_name_travels b Hv) as [Sn Vn].
  unfold vault_put_id, validated.
  destruct (Validation.validateVaultItem b) as [b' errs]. simpl in Hv. subst errs.
  simpl fst in *.
  unfold try_catch, bind, update_item, pool_query, send, ret.
  rewrite Hp, Hi, Sn, Vn. cbn [andb].
  destruct (sendable (sanitizeNote (note_or_empty (Validation.note b'))));
    [|reflexivity].
  destruct (filter (is_item i (pid P)) (vault_items (db w))); reflexivity.
Qed.

Lemma role_eqb_admin r : role_eqb r admin = true <-> r = admin.
Proof. destruct r; simpl; split; congruence. Qed.

Lemma role_eqb_not_admin r : r <> admin -> role_eqb r admin = false.
Proof. destruct r; simpl; congruence. Qed.

End RouteFacts.

(* ================================================================== *)
(** ** Bodies with any value in a field *)
(* ================================================================== *)

Section AnyBodyFacts.

Import Store Routes.

Lemma check_each_nil ok f m v :
  Validation.check_each ok f m v = []
  <-> Forall (fun x => ok (Validation.toText x) = true) (Validation.values_of v).
Proof.
  unfold Validation.check_each.
  induction (Validation.values_of v) as [|x l IH]; simpl.
  - split; [constructor | reflexivity].
  - split.
    + intros H. apply app_eq_nil in H as [H1 H2]. constructor.
      * now apply check_nil in H1.
      * now apply IH.
    + intros H. inversion H as [|? ? H1 H2]; subst.
      rewrite (proj2 (check_nil _ _ _) H1). now apply IH.
Qed.

Lemma check_each_text ok f m t :
  Validation.check_each ok f m (VText t) = Validation.check (ok t) f m.
Proof. unfold Validation.check_each. cbn. apply app_nil_r. Qed.

(** On a body of strings the chains on any value are the chains on
    strings. *)
Lemma validateVaultItem_any_on_strings b :
  Validation.validateVaultItem_any (Validation.item_body b)
  = (Validation.item_body (fst (Validation.validateVaultItem b)),
     snd (Validation.validateVaultItem b)).
Proof.
  unfold Validation.validateVaultItem_any, Validation.validateVaultItem,
    Validation.item_body, Validation.name_chain_any, Validation.name_chain,
    Validation.note_chain_any, Validation.note_chain.
  destruct b as [[n|] [o|]];
    cbn [Validation.name Validation.note Validation.any_name Validation.any_note
         option_map Validation.sanitize_each Validation.toText
         Validation.toString fst snd];
    rewrite !check_each_text; reflexivity.
Qed.

Lemma validateSearch_any_on_strings b :
  Validation.validateSearch_any (Validation.search_body b)
  = (Validation.search_body (fst (Validation.validateSearch b)),
     snd (Validation.validateSearch b)).
Proof.
  unfold Validation.validateSearch_any, Validation.validateSearch,
    Validation.search_body, Validation.query_chain_any, Validation.query_chain.
  destruct b as [[q|]];
    cbn [Validation.query Validation.any_query option_map
         Validation.sanitize_each Validation.toText fst snd];
    rewrite ?check_each_text; reflexivity.
Qed.

Lemma note_parameter_text o :
  note_parameter (option_map VText o) = sanitizeNote (note_or_empty o).
Proof. destruct o as [[|c t]|]; reflexivity. Qed.

(** [POST /api/vault] on any body is, on a body of strings, the route on
    strings. *)
Lemma vault_post_any_on_strings now P b w :
  vault_post_any now P (Validation.item_body b) w = vault_post now P b w.
Proof.
  unfold vault_post_any, vault_post, validated.
  rewrite validateVaultItem_any_on_strings.
  destruct (Validation.validateVaultItem b) as [b' errs] eqn:V. cbn [fst snd].
  destruct errs; [|reflexivity].
  assert (N : exists n, Validation.name b' = Some n).
  { unfold Validation.validateVaultItem in V.
    destruct (Validation.name_chain (Validation.name b)),
      (Validation.note_chain (Validation.note b)).
    injection V as <- _. cbn. eauto. }
  destruct N as [n N].
  unfold Validation.item_body. cbn [Validation.any_name Validation.any_note].
  rewrite N. cbn [option_map Validation.toString].
  unfold try_catch. cbv zeta.
  change (param_text (sanitizeNote_any
            (match option_map VText (Validation.note b') with
             | Some v => if falsy v then VText [] else v
             | None => VText []
             end)))
    with (note_parameter (option_map VText (Validation.note b'))).
  now rewrite note_parameter_text.
Qed.

(** The same for [PUT /api/vault/:id]. *)
Lemma vault_put_id_any_on_strings now P p b w :
  vault_put_id_any now P p (Validation.item_body b) w = vault_put_id now P p b w.
Proof.
  unfold vault_put_id_any, vault_put_id, validated.
  rewrite validateVaultItem_any_on_strings.
  destruct (Validation.validateVaultItem b) as [b' errs] eqn:V. cbn [fst snd].
  destruct errs; [|reflexivity].
  assert (N : exists n, Validation.name b' = Some n).
  { unfold Validation.validateVaultItem in V.
    destruct (Validation.name_chain (Validation.name b)),
      (Validation.note_chain (Validation.note b)).
    injection V as <- _. cbn. eauto. }
  destruct N as [n N].
  unfold Validation.item_body. cbn [Validation.any_name Validation.any_note].
  rewrite N. cbn [option_map Validation.toString].
  unfold try_catch. destruct (parseInt p); [|reflexivity].
  cbv zeta.
  change (param_text (sanitizeNote_any
            (match option_map VText (Validation.note b') with
             | Some v => if falsy v then VText [] else v
             | None => VText []
             end)))
    with (note_parameter (option_map VText (Validation.note b'))).
  now rewrite note_parameter_text.
Qed.

(** The same for [POST /api/vault/search]. *)
Lemma vault_search_any_on_strings ilike P b w :
  vault_search_any ilike P (Validation.search_body b) w = vault_search ilike P b w.
Proof.
  unfold vault_search_any, vault_search, validated.
  rewrite validateSearch_any_on_strings.
  destruct (Validation.validateSearch b) as [b' errs]. cbn [fst snd].
  destruct errs; [|reflexivity].
  unfold Validation.search_body. cbn [Validation.any_query].
  destruct (Validation.query b'); reflexivity.
Qed.

(** A body whose note is a string or missing has an array for a name, or
    is a body of strings. *)
Lemma any_body_cases b o :
  Validation.any_note b = option_map VText o ->
  (exists l, Validation.any_name b = Some (VList l))
  \/ exists nm, b = Validation.item_body
                      {| Validation.name := nm; Validation.note := o |}.
Proof.
  destruct b as [[[n|l]|] nt]; cbn; intros ->.
  - right. exists (Some n). reflexivity.
  - left. eauto.
  - right. exists None. reflexivity.
Qed.

(** The note parameter of a request whose note is a string or missing. *)
Lemma sent_note_text b o :
  Validation.any_note b = option_map VText o ->
  sent_note b = sanitizeNote (trim (note_or_empty o)).
Proof.
  intros H. unfold sent_note, Validation.validateVaultItem_any.
  destruct (Validation.name_chain_any (Validation.any_name b)) as [n e1].
  rewrite H. destruct o as [s|]; [|reflexivity].
  cbn [option_map Validation.note_chain_any Validation.sanitize_each
       Validation.toText Validation.any_note fst note_or_empty].
  exact (note_parameter_text (Some (trim s))).
Qed.

(** An array for a name is trimmed element by element by the chain;
    [name.trim()] of the route then throws, before any statement. *)
Lemma vault_post_any_array_name now P b l w :
  Validation.any_name b = Some (VList l) ->
  (status (fst (vault_post_any now P b w)) = 400
   \/ status (fst (vault_post_any now P b w)) = 500)
  /\ snd (vault_post_any now P b w) = w.
Proof.
  intros Hn. unfold vault_post_any, validated, Validation.validateVaultItem_any,
    Validation.name_chain_any.
  rewrite Hn. cbn [Validation.sanitize_each].
  destruct (Validation.note_chain_any (Validation.any_note b)) as [o e2].
  match goal with |- context [?x ++ e2] => destruct (x ++ e2) end.
  - cbn. auto.
  - cbn. auto.
Qed.

Lemma vault_put_id_any_array_name now P p b l w :
  Validation.any_name b = Some (VList l) ->
  (status (fst (vault_put_id_any now P p b w)) = 400
   \/ status (fst (vault_put_id_any now P p b w)) = 500)
  /\ snd (vault_put_id_any now P p b w) = w.
Proof.
  intros Hn. unfold vault_put_id_any, validated, Validation.validateVaultItem_any,
    Validation.name_chain_any.
  rewrite Hn. cbn [Validation.sanitize_each].
  destruct (Validation.note_chain_any (Validation.any_note b)) as [o e2].
  match goal with |- context [?x ++ e2] => destruct (x ++ e2) end.
  - unfold try_catch. destruct (parseInt p); cbn; auto.
  - cbn. auto.
Qed.

(** A name without error is a string, or an array. *)
Lemma validated_any_name b :
  snd (Validation.validateVaultItem_any b) = [] ->
  (exists n, Validation.any_name b = Some (VText n))
  \/ exists l, Validation.any_name b = Some (VList l).
Proof.
  unfold Validation.validateVaultItem_any, Validation.name_chain_any.
  destruct (Validation.any_name b) as [[n|l]|]; eauto.
  destruct (Validation.note_chain_any (Validation.any_note b)) as [o e2].
  cbn. discriminate.
Qed.

(** The string name of a validation without error, as the route reads
    it and sends it. *)
Lemma validated_any_name_travels b n :
  snd (Validation.validateVaultItem_any b) = [] ->
  Validation.any_name b = Some (VText n) ->
  Validation.any_name (fst (Validation.validateVaultItem_any b))
  = Some (VText (trim n))
  /\ sendable (trim n) = true
  /\ varchar 255 (wire (trim n)) = Some (trim n).
Proof.
  unfold Validation.validateVaultItem_any, Validation.name_chain_any.
  intros Hv Hn. rewrite Hn in *.
  cbn [Validation.sanitize_each Validation.toText] in *.
  rewrite !check_each_text in Hv.
  destruct (Validation.note_chain_any (Validation.any_note b)) as [o e2].
  cbn [fst snd Validation.any_name] in *.
  apply app_eq_nil in Hv as [Hv _].
  split; [reflexivity |].
  assert (N : snd (Validation.name_chain (Some n)) = []) by exact Hv.
  apply name_chain_accepts in N as [L F]. cbn [Validation.toString] in L, F.
  apply name_travels; [exact F | lia].
Qed.

Lemma vault_post_any_eval now P b w n :
  snd (Validation.validateVaultItem_any b) = [] ->
  Validation.any_name b = Some (VText n) ->
  let nm := trim n in
  let nt := sent_note b in
  let i := vault_items_id_seq (db w) in
  let it := {| id := i; owner_id := pid P; name := nm; note := wire nt;
               created_at := now; updated_at := now |} in
  vault_post_any now P b w =
  if sendable nt then
    if int4 i then
      if existsb (fun u => (u_id u =? pid P)%Z) (users (db w)) then
        ({| status := 201; json := JItem (Some (item_row it)) |},
         {| db := {| users := users (db w);
                     vault_items := vault_items (db w) ++ [it];
                     vault_items_id_seq := (i + 1)%Z |};
            log := log w ++ [InsertItem (pid P) nm nt] |})
      else
        ({| status := 500; json := JError "Internal server error" |},
         {| db := {| users := users (db w);
                     vault_items := vault_items (db w);
                     vault_items_id_seq := (i + 1)%Z |};
            log := log w ++ [InsertItem (pid P) nm nt] |})
    else
      ({| status := 500; json := JError "Internal server error" |},
       logged w (InsertItem (pid P) nm nt))
  else
    ({| status := 500; json := JError "Internal server error" |},
     logged w (InsertItem (pid P) nm nt)).
Proof.
  intros Hv Hn. cbv zeta.
  destruct (validated_any_name_travels b n Hv Hn) as (En & Sn & Vn).
  unfold vault_post_any, validated, sent_note, note_parameter.
  destruct (Validation.validateVaultItem_any b) as [b' errs].
  cbn [fst snd] in *. subst errs.
  unfold try_catch, bind, insert_item, pool_query, send, ret.
  rewrite En, trim_idem, Sn, Vn. cbn [andb].
  match goal with |- context [sendable ?x] => destruct (sendable x) end;
    [|reflexivity].
  destruct (int4 (vault_items_id_seq (db w))); [|reflexivity].
  destruct (existsb (fun u => (u_id u =? pid P)%Z) (users (db w))); reflexivity.
Qed.

Lemma vault_put_id_any_eval now P p b w i n :
  snd (Validation.validateVaultItem_any b) = [] ->
  Validation.any_name b = Some (VText n) ->
  parseInt p = Some i -> int4 i = true ->
  let nm := trim n in
  let nt := sent_note b in
  vault_put_id_any now P p b w =
  if sendable nt then
    (match filter (is_item i (pid P)) (vault_items (db w)) with
     | [] => {| status := 404; json := JError "Vault item not found" |}
     | it :: _ =>
         {| status := 200;
            json := JItem (Some (item_row (set_item now nm (wire nt) it))) |}
     end,
     {| db := {| users := users (db w);
                 vault_items :=
                   map (fun it => if is_item i (pid P) it
                                  then set_item now nm (wire nt) it else it)
                       (vault_items (db w));
                 vault_items_id_seq := vault_items_id_seq (db w) |};
        log := log w ++ [UpdateItem nm nt i (pid P)] |})
  else
    ({| status := 500; json := JError "Internal server error" |},
     logged w (UpdateItem nm nt i (pid P))).
Proof.
  intros Hv Hn Hp Hi. cbv zeta.
  destruct (validated_any_name_travels b n Hv Hn) as (En & Sn & Vn).
  unfold vault_put_id_any, validated, sent_note, note_parameter.
  destruct (Validation.validateVaultItem_any b) as [b' errs].
  cbn [fst snd] in *. subst errs.
  unfold try_catch, bind, update_item, pool_query, send, ret.
  rewrite Hp, En, trim_idem, Hi, Sn, Vn. cbn [andb].
  match goal with |- context [sendable ?x] => destruct (sendable x) end;
    [|reflexivity].
  destruct (filter (is_item i (pid P)) (vault_items (db w))); reflexivity.
Qed.

Lemma vault_put_id_any_array_name_eval now P p b l w i :
  snd (Validation.validateVaultItem_any b) = [] ->
  Validation.any_name b = Some (VList l) ->
  parseInt p = Some i ->
  vault_put_id_any now P p b w
  = ({| status := 500; json := JError "Internal server error" |}, w).
Proof.
  intros Hv Hn Hp. unfold vault_put_id_any, validated.
  revert Hv. unfold Validation.validateVaultItem_any, Validation.name_chain_any.
  rewrite Hn. cbn [Validation.sanitize_each].
  destruct (Validation.note_chain_any (Validation.any_note b)) as [o e2].
  cbn [snd]. intros ->. unfold try_catch. rewrite Hp. reflexivity.
Qed.

End AnyBodyFacts.

(* ================================================================== *)
(** ** The claims about ownership and roles *)
(* ================================================================== *)

Section AccessClaims.

Import Store Routes Scenario.

Lemma wf_db0 : wf db0.
Proof.
  split.
  - simpl. repeat constructor; simpl; intuition discriminate.
  - intros it H. simpl in H. intuition (subst; simpl; lia).
  - simpl. lia.
  - simpl. repeat constructor; simpl; intuition discriminate.
  - intros u H. simpl in H. intuition (subst; reflexivity).
  - intros it H. simpl in H. intuition (subst; reflexivity).
Qed.

(** C3: a principal that is not an admin and asks for, or deletes, an
    existing item of another owner is answered 404 [Vault item not found]
    (not 403), and the delete leaves every table as it was, the item in
    place.  The path parameter [p] is any text the route reads as the id
    of the item, its decimal numeral for one
    ([parseInt_Number_toString]). *)
Theorem C3_foreign_item_is_not_found P I p w :
  wf (db w) -> In I (vault_items (db w)) ->
  prole P <> admin -> owner_id I <> pid P ->
  parseInt p = Some (id I) ->
  fst (vault_get_id P p w)
    = {| status := 404; json := JError "Vault item not found" |}
  /\ db (snd (vault_get_id P p w)) = db w
  /\ fst (vault_delete_id P p w)
    = {| status := 404; json := JError "Vault item not found" |}
  /\ db (snd (vault_delete_id P p w)) = db w
  /\ In I (vault_items (db (snd (vault_delete_id P p w)))).
Proof.
  intros W HI Hrole Hown Hp.
  pose proof (wf_int4 _ _ W HI) as Hi.
  assert (forall J, In J (vault_items (db w)) ->
                    is_item (id I) (pid P) J = false) as Hnone.
  { intros J HJ. destruct (is_item (id I) (pid P) J) eqn:E; [|reflexivity].
    exfalso.
    assert (filter (is_item (id I) (pid P)) (vault_items (db w)) = []) as F.
    { apply filter_other_key with (I := I); eauto using wf_item_ids.
      - unfold is_item. rewrite Z.eqb_refl. simpl. now apply Z.eqb_neq.
      - intros. eapply is_item_key; eauto. }
    assert (In J (filter (is_item (id I) (pid P)) (vault_items (db w)))) as HJ'
      by (apply filter_In; auto).
    rewrite F in HJ'. destruct HJ'. }
  rewrite (vault_get_id_eval _ _ _ _ Hp Hi).
  rewrite (vault_delete_id_user_eval _ _ _ _ Hp Hi (role_eqb_not_admin _ Hrole)).
  rewrite (filter_none _ _ Hnone). simpl.
  assert (filter (fun it => negb (is_item (id I) (pid P) it)) (vault_items (db w))
          = vault_items (db w)) as Hall.
  { apply filter_all. intros J HJ. now rewrite (Hnone J HJ). }
  rewrite Hall, db_eta. auto.
Qed.

Lemma C3_foreign_item_witness :
  fst (vault_get_id as_carol (Number_toString (id item1)) w0)
    = {| status := 404; json := JError "Vault item not found" |}
  /\ db (snd (vault_get_id as_carol (Number_toString (id item1)) w0)) = db w0
  /\ fst (vault_delete_id as_carol (Number_toString (id item1)) w0)
    = {| status := 404; json := JError "Vault item not found" |}
  /\ db (snd (vault_delete_id as_carol (Number_toString (id item1)) w0)) = db w0
  /\ In item1 (vault_items
                 (db (snd (vault_delete_id as_carol
                             (Number_toString (id item1)) w0)))).
Proof.
  apply (C3_foreign_item_is_not_found as_carol item1
           (Number_toString (id item1)) w0).
  - exact wf_db0.
  - simpl. auto.
  - discriminate.
  - discriminate.
  - apply parseInt_Number_toString. simpl. lia.
Defined.

(** C1, as stated, fails: the admin asks for item 1, which exists and
    belongs to another account, and is answered 404; the same for an
    update with a valid body. *)
Lemma C1_admin_get_of_foreign_item_is_404 :
  In item1 (vault_items (db w0))
  /\ status (fst (vault_get_id as_alice (lit "1") w0)) = 404
  /\ status (fst (vault_put_id_any 20 as_alice (lit "1")
                   {| Validation.any_name := Some (VText (lit "Renamed"));
                      Validation.any_note := Some (VText (lit "x")) |} w0)) = 404.
Proof. vm_compute. auto. Qed.

(** C1, amended: for an admin and an existing item, the delete succeeds
    (200) and removes the item whoever owns it; reading one item and
    updating it (with a body that passes validation) keep the ownership
    filter for every role.  The read succeeds when the admin owns the
    item and is answered 404 otherwise.  The update of an item of another
    owner never succeeds and leaves the item as it was.  When the name is
    a string and the note parameter can be stored (it holds no U+0000),
    the update is answered 200 for an own item and 404 for one of another
    owner; when the name is an array, or the note parameter holds U+0000,
    it is answered 500 and no table changes.  The note parameter of a
    string note is the sanitized trimmed note. *)
Theorem C1_admin_bypasses_ownership_for_delete_only now P I p b w :
  wf (db w) -> In I (vault_items (db w)) ->
  prole P = admin ->
  parseInt p = Some (id I) ->
  snd (Validation.validateVaultItem_any b) = [] ->
  status (fst (vault_delete_id P p w)) = 200
  /\ ~ In I (vault_items (db (snd (vault_delete_id P p w))))
  /\ fst (vault_get_id P p w)
     = (if (owner_id I =? pid P)%Z
        then {| status := 200; json := JItem (Some (item_row I)) |}
        else {| status := 404; json := JError "Vault item not found" |})
  /\ (owner_id I <> pid P ->
      status (fst (vault_put_id_any now P p b w)) <> 200
      /\ In I (vault_items (db (snd (vault_put_id_any now P p b w)))))
  /\ (forall n, Validation.any_name b = Some (VText n) ->
      sendable (sent_note b) = true ->
      status (fst (vault_put_id_any now P p b w))
      = (if (owner_id I =? pid P)%Z then 200 else 404))
  /\ ((exists l, Validation.any_name b = Some (VList l))
      \/ sendable (sent_note b) = false ->
      status (fst (vault_put_id_any now P p b w)) = 500
      /\ db (snd (vault_put_id_any now P p b w)) = db w)
  /\ (forall o, Validation.any_note b = option_map VText o ->
      sent_note b = sanitizeNote (trim (note_or_empty o))).
Proof.
  intros W HI Hrole Hp Hv.
  pose proof (wf_int4 _ _ W HI) as Hi.
  assert (filter (fun it => id it =? id I)%Z (vault_items (db w)) = [I]) as Fany.
  { apply filter_key; eauto using wf_item_ids, Z.eqb_refl.
    intros J _ E. now apply Z.eqb_eq. }
  assert (role_eqb (prole P) admin = true) as Hr by now apply role_eqb_admin.
  rewrite (vault_delete_id_admin_eval _ _ _ _ Hp Hi Hr), Fany.
  rewrite (vault_get_id_eval _ _ _ _ Hp Hi).
  simpl fst. simpl snd.
  assert (Own : owner_id I = pid P ->
                filter (is_item (id I) (pid P)) (vault_items (db w)) = [I]).
  { intros E. apply filter_key; eauto using wf_item_ids.
    - unfold is_item. rewrite Z.eqb_refl. simpl. now apply Z.eqb_eq.
    - intros. eapply is_item_key; eauto. }
  assert (Foreign : owner_id I <> pid P ->
                    filter (is_item (id I) (pid P)) (vault_items (db w)) = []).
  { intros E. apply filter_other_key with (I := I); eauto using wf_item_ids.
    - unfold is_item. rewrite Z.eqb_refl. simpl. now apply Z.eqb_neq.
    - intros. eapply is_item_key; eauto. }
  split; [reflexivity |]. split; [|split; [|split; [|split; [|split]]]].
  - simpl. rewrite filter_In. intros [_ E]. now rewrite Z.eqb_refl in E.
  - destruct (Z.eqb_spec (owner_id I) (pid P)) as [E|E].
    + now rewrite (Own E).
    + now rewrite (Foreign E).
  - intros E.
    destruct (validated_any_name b Hv) as [(n & Hn) | (l & Hn)].
    + rewrite (vault_put_id_any_eval now P p b w _ n Hv Hn Hp Hi). cbv zeta.
      destruct (sendable (sent_note b)).
      * rewrite (Foreign E). simpl. split; [discriminate |].
        apply in_map_iff. exists I. split; [|assumption].
        unfold is_item. rewrite Z.eqb_refl.
        apply Z.eqb_neq in E. now rewrite E.
      * simpl. split; [discriminate | assumption].
    + rewrite (vault_put_id_any_array_name_eval now P p b l w _ Hv Hn Hp).
      simpl. split; [discriminate | assumption].
  - intros n Hn S.
    rewrite (vault_put_id_any_eval now P p b w _ n Hv Hn Hp Hi). cbv zeta.
    rewrite S.
    destruct (Z.eqb_spec (owner_id I) (pid P)) as [E|E].
    + now rewrite (Own E).
    + now rewrite (Foreign E).
  - intros [(l & Hn) | S].
    + rewrite (vault_put_id_any_array_name_eval now P p b l w _ Hv Hn Hp).
      split; reflexivity.
    + destruct (validated_any_name b Hv) as [(n & Hn) | (l & Hn)].
      * rewrite (vault_put_id_any_eval now P p b w _ n Hv Hn Hp Hi). cbv zeta.
        rewrite S. split; reflexivity.
      * rewrite (vault_put_id_any_array_name_eval now P p b l w _ Hv Hn Hp).
        split; reflexivity.
  - intros o. apply sent_note_text.
Qed.

Lemma C1_admin_witness :
  status (fst (vault_delete_id as_alice (lit "1") w0)) = 200
  /\ ~ In item1 (vault_items (db (snd (vault_delete_id as_alice (lit "1") w0))))
  /\ fst (vault_get_id as_alice (lit "1") w0)
     = {| status := 404; json := JError "Vault item not found" |}
  /\ status (fst (vault_put_id_any 20 as_alice (lit "1")
                    {| Validation.any_name := Some (VText (lit "Renamed"));
                       Validation.any_note := Some (VText (lit "x")) |} w0)) = 404.
Proof.
  destruct (C1_admin_bypasses_ownership_for_delete_only 20 as_alice item1 (lit "1")
              {| Validation.any_name := Some (VText (lit "Renamed"));
                 Validation.any_note := Some (VText (lit "x")) |} w0
              wf_db0 (or_introl eq_refl) eq_refl eq_refl eq_refl)
    as (H1 & H2 & H3 & _ & H5 & _).
  exact (conj H1 (conj H2 (conj H3 (H5 (lit "Renamed") eq_refl eq_refl)))).
Defined.

End AccessClaims.

(* ================================================================== *)
(** ** The claims about user management and path identifiers *)
(* ================================================================== *)

Section UserClaims.

Import Store Routes Scenario.

(** C9: an admin who asks to delete the account with the requester's own
    id is answered 400 [Cannot delete your own account]; no statement is
    sent and no table changes.  Whenever the route does send its [DELETE],
    the target id differs from the requester's. *)
Theorem C9_admin_cannot_delete_own_account P w :
  prole P = admin ->
  (forall p, parseInt p = Some (pid P) ->
     users_delete_id P p w
     = ({| status := 400; json := JError "Cannot delete your own account" |}, w))
  /\ (forall p, snd (users_delete_id P p w) <> w ->
        exists n, parseInt p = Some n /\ n <> pid P
                  /\ log (snd (users_delete_id P p w)) = log w ++ [DeleteUser n]).
Proof.
  intros Hrole. split.
  - intros p Hp. unfold users_delete_id, requireRole, try_catch, send, ret.
    rewrite Hrole, Hp, Z.eqb_refl. reflexivity.
  - intros p. unfold users_delete_id, requireRole, try_catch, send, ret, bind.
    rewrite Hrole. simpl role_eqb. cbv iota.
    destruct (parseInt p) as [n|]; [|intros H; now elim H].
    destruct (Z.eqb_spec n (pid P)) as [E|E]; [intros H; now elim H |].
    intros _. exists n. repeat split; [assumption |].
    unfold delete_user, pool_query.
    destruct (int4 n); [|reflexivity].
    destruct (map u_id (filter (fun u => (u_id u =? n)%Z) (users (db w))));
      reflexivity.
Qed.

Lemma C9_own_account_witness :
  users_delete_id as_alice (lit "1") w0
  = ({| status := 400; json := JError "Cannot delete your own account" |}, w0).
Proof.
  exact (proj1 (C9_admin_cannot_delete_own_account as_alice w0 eq_refl)
               (lit "1") eq_refl).
Defined.

(** Another account is deleted, and its items with it. *)
Example users_delete_other :
  status (fst (users_delete_id as_alice (lit "2") w0)) = 200
  /\ users (db (snd (users_delete_id as_alice (lit "2") w0))) = [alice; carol]
  /\ vault_items (db (snd (users_delete_id as_alice (lit "2") w0))) = [item3; item4].
Proof. vm_compute. auto. Qed.

(** C8: what the routes do with an identifier that is not an integer.
    [parseInt] reads the digits in front and ignores the rest, and it
    accepts a sign: the identifier of the repository's own injection test
    is read as 1 and the [DELETE] is sent (it is answered 404, or 200 with
    item 1 gone when the requester owns it), and a negative identifier is
    looked up as well.  Only an identifier without leading digits is
    answered 400 before any statement. *)
Theorem C8_identifier_with_numeric_prefix_is_not_rejected :
  parseInt (lit "1; DROP TABLE vault_items; --") = Some 1%Z
  /\ vault_delete_id as_carol (lit "1; DROP TABLE vault_items; --") w0
     = ({| status := 404; json := JError "Vault item not found" |},
        logged w0 (DeleteItemOwned 1 3))
  /\ status (fst (vault_delete_id as_bob (lit "1; DROP TABLE vault_items; --") w0))
     = 200
  /\ vault_items (db (snd (vault_delete_id as_bob
                             (lit "1; DROP TABLE vault_items; --") w0)))
     = [item2; item3; item4]
  /\ vault_get_id as_bob (lit "-5") w0
     = ({| status := 404; json := JError "Vault item not found" |},
        logged w0 (SelectItem (-5) 2))
  /\ vault_get_id as_bob (lit "not-a-number") w0
     = ({| status := 400; json := JError "Invalid item ID" |}, w0)
  /\ users_get_id as_alice (lit "2abc") w0
     = ({| status := 200; json := JUser (Some (user_row bob)) |},
        logged w0 (SelectUser 2))
  /\ users_get_id as_alice (lit "abc") w0
     = ({| status := 400; json := JError "Invalid user ID" |}, w0).
Proof. vm_compute. repeat split. Qed.

End UserClaims.

(* ================================================================== *)
(** ** The claims about search *)
(* ================================================================== *)

Section SearchClaims.

Import Store Routes Scenario.

Variable ilike : str -> str -> bool.

Lemma vault_search_rows P b w rows :
  json (fst (vault_search ilike P b w)) = JItems rows ->
  status (fst (vault_search ilike P b w)) = 200
  /\ exists f, rows = map item_row
                      (order_by_created_desc
                         (filter (fun it => (owner_id it =? pid P)%Z && f it)
                                 (vault_items (db w)))).
Proof.
  unfold vault_search, validated.
  destruct (Validation.validateSearch b) as [b' errs].
  destruct errs; [|discriminate].
  unfold try_catch, send, ret, bind, search_items, pool_query.
  assert (rows = [] -> exists f, rows = map item_row
            (order_by_created_desc
               (filter (fun it => (owner_id it =? pid P)%Z && f it)
                       (vault_items (db w))))) as Hnil.
  { intros ->. exists (fun _ => false).
    rewrite filter_none; [reflexivity |].
    intros x _. apply andb_false_r. }
  destruct (Validation.query b') as [q|]; simpl.
  - destruct q as [|c q]; simpl.
    + intros [= <-]. auto.
    + destruct (Nat.eqb (length (trim (c :: q))) 0); simpl.
      * intros [= <-]. auto.
      * destruct (sendable _); simpl; [|discriminate].
        intros [= <-]. split; [reflexivity |]. eexists. reflexivity.
  - intros [= <-]. auto.
Qed.

(** C6: a search with a missing, empty or white-space-only query is
    answered 200 with no item and sends no statement; whatever the query
    and whatever the engine's pattern matching, every row a search returns
    is the row of an item of the requester, and there are no more rows
    than the requester has items; the query of the injection test is
    answered 200 with such rows. *)
Theorem C6_search_returns_only_own_items P w :
  (forall q, trim q = [] ->
     vault_search ilike P {| Validation.query := Some q |} w
     = ({| status := 200; json := JItems [] |}, w))
  /\ vault_search ilike P {| Validation.query := None |} w
     = ({| status := 200; json := JItems [] |}, w)
  /\ (forall b rows,
        json (fst (vault_search ilike P b w)) = JItems rows ->
        (forall row, In row rows ->
           exists it, In it (vault_items (db w))
                      /\ owner_id it = pid P /\ row = item_row it)
        /\ length rows
           <= length (filter (fun it => (owner_id it =? pid P)%Z)
                             (vault_items (db w))))
  /\ (exists rows,
        fst (vault_search ilike P
               {| Validation.query := Some (lit "' OR 1=1 --") |} w)
        = {| status := 200; json := JItems rows |}).
Proof.
  split; [|split; [|split]].
  - intros q Hq. unfold vault_search, validated, Validation.validateSearch,
      Validation.query_chain. simpl. rewrite Hq. reflexivity.
  - reflexivity.
  - intros b rows H. destruct (vault_search_rows _ _ _ _ H) as [_ [f ->]]. split.
    + intros row Hrow. apply in_map_iff in Hrow. destruct Hrow as [it [<- Hit]].
      apply In_order, filter_In in Hit. destruct Hit as [Hit E].
      apply andb_true_iff in E. destruct E as [E _]. apply Z.eqb_eq in E.
      exists it. auto.
    + rewrite length_map, length_order. apply filter_length_le.
      intros x E. apply andb_true_iff in E. tauto.
  - eexists. reflexivity.
Qed.

(** C10: a search whose query, once trimmed, is longer than 100
    characters is answered 400 with the validation errors, before the
    route runs and without any statement; names and notes of that
    length pass their own validation. *)
Theorem C10_search_query_longer_than_100_is_rejected P q w :
  100 < Validation.len (trim q) ->
  vault_search ilike P {| Validation.query := Some q |} w
  = ({| status := 400;
        json := JValidation
                  [{| Validation.field := "query";
                      Validation.message :=
                        "Search query must be at most 100 characters" |}] |}, w)
  /\ snd (Validation.validateVaultItem
            {| Validation.name := Some (repeat_str (lit "a") 101);
               Validation.note := Some (repeat_str (lit "a") 101) |}) = [].
Proof.
  intros H. split; [|vm_compute; reflexivity].
  unfold vault_search, validated, Validation.validateSearch,
    Validation.query_chain, Validation.check, Validation.isLength.
  cbv beta iota zeta delta [Validation.query Validation.len fst snd].
  fold (Validation.len (trim q)).
  apply Nat.leb_gt in H. rewrite H, andb_false_r. reflexivity.
Qed.

End SearchClaims.

Lemma C10_long_query_witness :
  100 < Validation.len (trim (repeat_str (lit "a") 101))
  /\ Routes.vault_search (fun _ _ => true) Scenario.as_bob
       {| Validation.query := Some (repeat_str (lit "a") 101) |} Scenario.w0
     = ({| Routes.status := 400;
           Routes.json := Routes.JValidation
                  [{| Validation.field := "query";
                      Validation.message :=
                        "Search query must be at most 100 characters" |}] |},
        Scenario.w0).
Proof.
  assert (100 < Validation.len (trim (repeat_str (lit "a") 101))) as H
    by (vm_compute; lia).
  split; [exact H |].
  exact (proj1 (C10_search_query_longer_than_100_is_rejected
                  (fun _ _ => true) Scenario.as_bob
                  (repeat_str (lit "a") 101) Scenario.w0 H)).
Defined.

(** Even when the engine matches every row, the injection query returns
    the two items of the requester and not the four of the table. *)
Lemma C6_injection_query_witness :
  Routes.json (fst (Routes.vault_search (fun _ _ => true) Scenario.as_bob
                      {| Validation.query := Some (lit "' OR 1=1 --") |}
                      Scenario.w0))
  = Routes.JItems [Store.item_row Scenario.item2; Store.item_row Scenario.item1]
  /\ length [Store.item_row Scenario.item2; Store.item_row Scenario.item1]
     <= length (filter (fun it => (Store.owner_id it =? 2)%Z)
                       (Store.vault_items Scenario.db0)).
Proof.
  assert (Routes.json (fst (Routes.vault_search (fun _ _ => true) Scenario.as_bob
                      {| Validation.query := Some (lit "' OR 1=1 --") |}
                      Scenario.w0))
          = Routes.JItems [Store.item_row Scenario.item2;
                           Store.item_row Scenario.item1]) as H
    by (vm_compute; reflexivity).
  split; [exact H |].
  exact (proj2 (proj1 (proj2 (proj2
           (C6_search_returns_only_own_items (fun _ _ => true)
              Scenario.as_bob Scenario.w0))) _ _ H)).
Defined.

(* ================================================================== *)
(** ** The claims about item validation and the stored note *)
(* ================================================================== *)

Section ItemClaims.

Import Store Routes Scenario.

Lemma vault_post_eval now P b w :
  snd (Validation.validateVaultItem b) = [] ->
  let b' := fst (Validation.validateVaultItem b) in
  let nm := trim (Validation.toString (Validation.name b')) in
  let nt := sanitizeNote (trim (note_or_empty (Validation.note b))) in
  let i := vault_items_id_seq (db w) in
  let it := {| id := i; owner_id := pid P; name := nm; note := wire nt;
               created_at := now; updated_at := now |} in
  vault_post now P b w =
  if sendable nt then
    if int4 i then
      if existsb (fun u => (u_id u =? pid P)%Z) (users (db w)) then
        ({| status := 201; json := JItem (Some (item_row it)) |},
         {| db := {| users := users (db w);
                     vault_items := vault_items (db w) ++ [it];
                     vault_items_id_seq := (i + 1)%Z |};
            log := log w ++ [InsertItem (pid P) nm nt] |})
      else
        ({| status := 500; json := JError "Internal server error" |},
         {| db := {| users := users (db w);
                     vault_items := vault_items (db w);
                     vault_items_id_seq := (i + 1)%Z |};
            log := log w ++ [InsertItem (pid P) nm nt] |})
    else
      ({| status := 500; json := JError "Internal server error" |},
       logged w (InsertItem (pid P) nm nt))
  else
    ({| status := 500; json := JError "Internal server error" |},
     logged w (InsertItem (pid P) nm nt)).
Proof.
  intros Hv. cbv zeta.
  destruct (validated_name_travels b Hv) as [Sn Vn].
  rewrite <- (note_or_empty_trim (Validation.note b)),
    <- (validateVaultItem_note b).
  unfold vault_post, validated.
  destruct (Validation.validateVaultItem b) as [b' errs]. simpl in Hv. subst errs.
  simpl fst in *.
  unfold try_catch, bind, insert_item, pool_query, send, ret.
  rewrite Sn, Vn. cbn [andb].
  destruct (sendable (sanitizeNote (note_or_empty (Validation.note b'))));
    [|reflexivity].
  destruct (int4 (vault_items_id_seq (db w))); [|reflexivity].
  destruct (existsb (fun u => (u_id u =? pid P)%Z) (users (db w))); reflexivity.
Qed.

End ItemClaims.

Section ItemTheorems.

Import Store Routes Scenario.



(** What an accepted create of a body of strings stores and returns. *)
Lemma stored_note_after_post now P b w :
  status (fst (vault_post now P b w)) = 201 ->
  sendable (sanitizeNote (trim (note_or_empty (Validation.note b)))) = true
  /\ exists it,
    json (fst (vault_post now P b w)) = JItem (Some (item_row it))
    /\ vault_items (db (snd (vault_post now P b w))) = vault_items (db w) ++ [it]
    /\ note it = wire (sanitizeNote (trim (note_or_empty (Validation.note b))))
    /\ includes (note it) (lit "<script>") = false
    /\ (wf (db w) -> forall p, parseInt p = Some (id it) ->
          fst (vault_get_id P p (snd (vault_post now P b w)))
          = {| status := 200; json := JItem (Some (item_row it)) |}).
Proof.
  destruct (snd (Validation.validateVaultItem b)) eqn:Hv.
  2:{ unfold vault_post. rewrite validated_rejects by congruence. discriminate. }
  rewrite (vault_post_eval now P b w Hv). cbv zeta.
  destruct (sendable (sanitizeNote (trim (note_or_empty (Validation.note b)))));
    [|discriminate].
  destruct (int4 (vault_items_id_seq (db w))) eqn:HS; [|discriminate].
  destruct (existsb (fun u => (u_id u =? pid P)%Z) (users (db w)));
    [|discriminate].
  intros _. split; [reflexivity |].
  eexists. split; [reflexivity |]. split; [reflexivity |].
  split; [reflexivity |]. split; [apply stored_note_no_script_tag |].
  intros W p Hp. simpl in Hp.
  rewrite (vault_get_id_eval _ _ _ _ Hp HS). simpl.
  rewrite filter_app. simpl.
  unfold is_item at 2. simpl. rewrite !Z.eqb_refl. simpl.
  rewrite filter_none; [reflexivity |].
  intros J HJ. unfold is_item.
  pose proof (wf_item_range _ W J HJ).
  destruct (Z.eqb_spec (id J) (vault_items_id_seq (db w))); [lia | reflexivity].
Qed.

(** What an accepted update of a body of strings stores and returns. *)
Lemma stored_note_after_put now P p b w :
  status (fst (vault_put_id now P p b w)) = 200 ->
  sendable (sanitizeNote (trim (note_or_empty (Validation.note b)))) = true
  /\ exists i row,
    parseInt p = Some i
    /\ json (fst (vault_put_id now P p b w)) = JItem (Some row)
    /\ r_note row = wire (sanitizeNote (trim (note_or_empty (Validation.note b))))
    /\ includes (r_note row) (lit "<script>") = false
    /\ (forall it, In it (vault_items (db (snd (vault_put_id now P p b w)))) ->
          is_item i (pid P) it = true ->
          note it = wire (sanitizeNote (trim (note_or_empty (Validation.note b))))).
Proof.
  destruct (snd (Validation.validateVaultItem b)) eqn:Hv.
  2:{ unfold vault_put_id. rewrite validated_rejects by congruence. discriminate. }
  destruct (parseInt p) as [i|] eqn:Hp.
  2:{ unfold vault_put_id, validated.
      destruct (Validation.validateVaultItem b) as [b' errs].
      simpl in Hv. subst errs. unfold try_catch, send, ret. rewrite Hp.
      discriminate. }
  destruct (int4 i) eqn:Hi.
  2:{ unfold vault_put_id, validated.
      destruct (Validation.validateVaultItem b) as [b' errs].
      simpl in Hv. subst errs.
      unfold try_catch, bind, update_item, pool_query, send, ret.
      rewrite Hp, Hi, andb_false_r. discriminate. }
  rewrite (vault_put_id_eval now P p b w i Hv Hp Hi). cbv zeta.
  rewrite (validateVaultItem_note b), (note_or_empty_trim (Validation.note b)).
  destruct (sendable (sanitizeNote (trim (note_or_empty (Validation.note b)))));
    [|discriminate].
  destruct (filter (is_item i (pid P)) (vault_items (db w))) as [|it0 rest];
    [discriminate |].
  intros _. split; [reflexivity |].
  exists i. eexists. split; [reflexivity |]. split; [reflexivity |].
  split; [reflexivity |]. split; [apply stored_note_no_script_tag |].
  simpl. intros it Hit E. apply in_map_iff in Hit.
  destruct Hit as [J [HJ _]].
  destruct (is_item i (pid P) J) eqn:EJ; subst it; [reflexivity | congruence].
Qed.

(** C4, as stated, fails: the validation chain trims the note before the
    route sees it, so what is stored is the sanitized trimmed note, which
    differs from [sanitizeNote] of the raw note when that one starts or
    ends with white space. *)
Lemma C4_stored_note_is_not_sanitizeNote_of_raw_note :
  status (fst (vault_post_any 20 as_bob
                 {| Validation.any_name := Some (VText (lit "Item"));
                    Validation.any_note := Some (VText (lit " a ")) |} w0)) = 201
  /\ map note (vault_items (db (snd (vault_post_any 20 as_bob
                 {| Validation.any_name := Some (VText (lit "Item"));
                    Validation.any_note := Some (VText (lit " a ")) |} w0))))
     = [lit "Note 1"; lit "Note 2"; lit "Test"; lit "Test"; lit "a"]
  /\ sanitizeNote (lit " a ") = lit " a "
  /\ sanitizeNote (lit " a ") <> lit "a".
Proof. vm_compute. repeat split. discriminate. Qed.

(** C4, amended: for every accepted create (201) and every accepted update
    (200) whose note is a string (or missing), the note that is stored and
    returned is [sanitizeNote] applied to the trimmed note of the request
    (the empty string when the request has no note), as it reaches the
    database (a surrogate without its other half arrives as U+FFFD, every
    other code unit as it is); it never holds the substring [<script>];
    and the stored note is what a later read of the item by its owner
    returns.  A request is accepted only if its sanitized note holds no
    U+0000. *)
Theorem C4_stored_note_is_sanitized_trimmed_note now P b w :
  (forall o, Validation.any_note b = option_map VText o ->
   status (fst (vault_post_any now P b w)) = 201 ->
   sendable (sanitizeNote (trim (note_or_empty o))) = true
   /\ exists it,
     json (fst (vault_post_any now P b w)) = JItem (Some (item_row it))
     /\ vault_items (db (snd (vault_post_any now P b w))) = vault_items (db w) ++ [it]
     /\ note it = wire (sanitizeNote (trim (note_or_empty o)))
     /\ includes (note it) (lit "<script>") = false
     /\ (wf (db w) -> forall p, parseInt p = Some (id it) ->
           fst (vault_get_id P p (snd (vault_post_any now P b w)))
           = {| status := 200; json := JItem (Some (item_row it)) |}))
  /\ (forall o p, Validation.any_note b = option_map VText o ->
      status (fst (vault_put_id_any now P p b w)) = 200 ->
      sendable (sanitizeNote (trim (note_or_empty o))) = true
      /\ exists i row,
        parseInt p = Some i
        /\ json (fst (vault_put_id_any now P p b w)) = JItem (Some row)
        /\ r_note row = wire (sanitizeNote (trim (note_or_empty o)))
        /\ includes (r_note row) (lit "<script>") = false
        /\ (forall it, In it (vault_items (db (snd (vault_put_id_any now P p b w)))) ->
              is_item i (pid P) it = true ->
              note it = wire (sanitizeNote (trim (note_or_empty o)))))
  /\ (forall s, (forall c, In c s -> isSurrogate c = false) -> wire s = s).
Proof.
  split; [|split].
  - intros o Ho H.
    destruct (any_body_cases b o Ho) as [(l & Hn) | (nm & ->)].
    + destruct (vault_post_any_array_name now P b l w Hn) as [[E|E] _];
        rewrite E in H; discriminate H.
    + rewrite vault_post_any_on_strings in *.
      exact (stored_note_after_post now P _ w H).
  - intros o p Ho H.
    destruct (any_body_cases b o Ho) as [(l & Hn) | (nm & ->)].
    + destruct (vault_put_id_any_array_name now P p b l w Hn) as [[E|E] _];
        rewrite E in H; discriminate H.
    + rewrite vault_put_id_any_on_strings in *.
      exact (stored_note_after_put now P p _ w H).
  - intros s H. apply wire_plain. apply forallb_forall.
    intros c Hc. now rewrite (H c Hc).
Qed.

Lemma C4_stored_note_witness :
  exists it,
    json (fst (vault_post_any 20 as_bob
                 {| Validation.any_name := Some (VText (lit "XSS Test"));
                    Validation.any_note :=
                      Some (VText (lit "<script>alert(1)</script>")) |} w0))
    = JItem (Some (item_row it))
    /\ note it = [].
Proof.
  destruct (proj1 (C4_stored_note_is_sanitized_trimmed_note 20 as_bob
                     {| Validation.any_name := Some (VText (lit "XSS Test"));
                        Validation.any_note :=
                          Some (VText (lit "<script>alert(1)</script>")) |}
                     w0)
              (Some (lit "<script>alert(1)</script>")) eq_refl eq_refl)
    as [_ [it [H1 [_ [H2 _]]]]].
  exists it. split; [exact H1 | exact H2].
Defined.

End ItemTheorems.

(* ================================================================== *)
(** ** Further properties of the routes and of the pipeline *)
(* ================================================================== *)

Section FurtherProperties.

Import Store Routes Scenario.

(** X1: an identifier that [parseInt] cannot read at all is answered 400
    by the item routes and, for an admin, by the user routes, before any
    statement is sent: the state is the one the request found. *)
Theorem unreadable_identifier_is_answered_400 now P p b w :
  parseInt p = None ->
  vault_get_id P p w = ({| status := 400; json := JError "Invalid item ID" |}, w)
  /\ vault_delete_id P p w
     = ({| status := 400; json := JError "Invalid item ID" |}, w)
  /\ (status (fst (vault_put_id now P p b w)) = 400
      /\ snd (vault_put_id now P p b w) = w)
  /\ (prole P = admin ->
      users_get_id P p w
      = ({| status := 400; json := JError "Invalid user ID" |}, w)
      /\ users_delete_id P p w
         = ({| status := 400; json := JError "Invalid user ID" |}, w)).
Proof.
  intros Hp. repeat split.
  - unfold vault_get_id, try_catch, send, ret. now rewrite Hp.
  - unfold vault_delete_id, try_catch, send, ret. now rewrite Hp.
  - unfold vault_put_id, validated.
    destruct (Validation.validateVaultItem b) as [b' [|e errs]]; [|reflexivity].
    unfold try_catch, send, ret. now rewrite Hp.
  - unfold vault_put_id, validated.
    destruct (Validation.validateVaultItem b) as [b' [|e errs]]; [|reflexivity].
    unfold try_catch, send, ret. now rewrite Hp.
  - unfold users_get_id, requireRole, try_catch, send, ret. now rewrite H, Hp.
  - unfold users_delete_id, requireRole, try_catch, send, ret. now rewrite H, Hp.
Qed.

Lemma unreadable_identifier_witness :
  vault_get_id as_bob (lit "not-a-number") w0
  = ({| status := 400; json := JError "Invalid item ID" |}, w0).
Proof.
  exact (proj1 (unreadable_identifier_is_answered_400 0%Z as_bob
                  (lit "not-a-number")
                  {| Validation.name := None; Validation.note := None |}
                  w0 eq_refl)).
Defined.



(** X3: the owner of an item, whatever the role, reads it (200, the row of
    the item) and deletes it (200): the item is gone and every other item
    stays. *)
Theorem owner_reads_and_deletes_own_item P I p w :
  wf (db w) -> In I (vault_items (db w)) ->
  owner_id I = pid P ->
  parseInt p = Some (id I) ->
  fst (vault_get_id P p w)
  = {| status := 200; json := JItem (Some (item_row I)) |}
  /\ status (fst (vault_delete_id P p w)) = 200
  /\ ~ In I (vault_items (db (snd (vault_delete_id P p w))))
  /\ (forall J, In J (vault_items (db w)) -> J <> I ->
        In J (vault_items (db (snd (vault_delete_id P p w))))).
Proof.
  intros W HI Hown Hp.
  pose proof (wf_int4 _ _ W HI) as Hi.
  assert (is_item (id I) (pid P) I = true) as HII
    by (unfold is_item; rewrite Hown, !Z.eqb_refl; reflexivity).
  assert (filter (is_item (id I) (pid P)) (vault_items (db w)) = [I]) as F.
  { apply filter_key; eauto using wf_item_ids.
    intros. eapply is_item_key; eauto. }
  assert (filter (fun it => id it =? id I)%Z (vault_items (db w)) = [I]) as Fany.
  { apply filter_key; eauto using wf_item_ids, Z.eqb_refl.
    intros J _ E. now apply Z.eqb_eq. }
  assert (forall J, In J (vault_items (db w)) -> J <> I ->
                    (id J =? id I)%Z = false) as Other.
  { intros J HJ N. destruct (Z.eqb_spec (id J) (id I)) as [E|E]; [|reflexivity].
    exfalso. apply N.
    assert (In J (filter (fun it => id it =? id I)%Z (vault_items (db w)))) as HJ'
      by (apply filter_In; split; [exact HJ | now apply Z.eqb_eq]).
    rewrite Fany in HJ'. destruct HJ' as [->|[]]. reflexivity. }
  rewrite (vault_get_id_eval _ _ _ _ Hp Hi), F.
  split; [reflexivity |].
  destruct (role_eqb (prole P) admin) eqn:Hr.
  - rewrite (vault_delete_id_admin_eval _ _ _ _ Hp Hi Hr), Fany. simpl.
    split; [reflexivity |]. split.
    + rewrite filter_In. intros [_ E]. now rewrite Z.eqb_refl in E.
    + intros J HJ N. apply filter_In. split; [exact HJ |].
      now rewrite (Other J HJ N).
  - rewrite (vault_delete_id_user_eval _ _ _ _ Hp Hi Hr), F. simpl.
    split; [reflexivity |]. split.
    + rewrite filter_In. intros [_ E]. now rewrite HII in E.
    + intros J HJ N. apply filter_In. split; [exact HJ |].
      unfold is_item. now rewrite (Other J HJ N).
Qed.

Lemma owner_reads_and_deletes_witness :
  fst (vault_get_id as_bob (Number_toString (id item1)) w0)
  = {| status := 200; json := JItem (Some (item_row item1)) |}
  /\ status (fst (vault_delete_id as_bob (Number_toString (id item1)) w0)) = 200.
Proof.
  destruct (owner_reads_and_deletes_own_item as_bob item1
              (Number_toString (id item1)) w0 wf_db0
              (or_introl eq_refl) eq_refl
              (parseInt_Number_toString (id item1) ltac:(simpl; lia)))
    as [H1 [H2 _]].
  split; [exact H1 | exact H2].
Defined.

End FurtherProperties.

(* ================================================================== *)
(** ** The routes keep the constraints of the schema *)
(* ================================================================== *)

Section SchemaInvariant.

Import Store Routes Scenario.

Lemma preserves_ret {A} (a : A) : preserves (ret a).
Proof. intros w W. exact W. Qed.

Lemma preserves_send st j : preserves (send st j).
Proof. apply preserves_ret. Qed.

Lemma preserves_bind {A B} (m : M A) (k : A -> M B) :
  preserves m -> (forall a, preserves (k a)) -> preserves (bind m k).
Proof.
  intros Hm Hk w W. unfold bind. specialize (Hm w W).
  destruct (m w) as [[a|] w1]; simpl in *; [apply Hk, Hm | exact Hm].
Qed.

Lemma preserves_pool_query {A} q (run : DB -> Result A * DB) :
  (forall d, wf d -> wf (snd (run d))) -> preserves (pool_query q run).
Proof.
  intros H w W. unfold pool_query. specialize (H (db w) W).
  destruct (run (db w)) as [r d]. exact H.
Qed.

Lemma keeps_try_catch m : preserves m -> keeps_schema (try_catch m).
Proof.
  intros H w W. unfold try_catch. specialize (H w W).
  destruct (m w) as [[r|] w1]; exact H.
Qed.

Lemma keeps_validated {B} (v : B -> B * list Validation.VError) route b :
  (forall b', keeps_schema (route b')) -> keeps_schema (validated v route b).
Proof.
  intros H w W. unfold validated. destruct (v b) as [b' [|e errs]].
  - apply H, W.
  - exact W.
Qed.

Lemma keeps_requireRole r P h : keeps_schema h -> keeps_schema (requireRole r P h).
Proof.
  intros H w W. unfold requireRole. destruct (role_eqb (prole P) r).
  - apply H, W.
  - exact W.
Qed.

Lemma NoDup_map_filter {A B} (f : A -> B) (g : A -> bool) l :
  NoDup (map f l) -> NoDup (map f (filter g l)).
Proof.
  induction l as [|a l IH]; simpl; intros N; [constructor |].
  inversion N as [|? ? Hnot N']; subst.
  destruct (g a); simpl; [|auto].
  constructor; [|auto]. intros Hin. apply Hnot.
  apply in_map_iff in Hin. destruct Hin as [x [E Hx]].
  apply filter_In in Hx. rewrite <- E. apply in_map. tauto.
Qed.

Lemma wf_filter_items d (g : Item -> bool) :
  wf d ->
  wf {| users := users d; vault_items := filter g (vault_items d);
        vault_items_id_seq := vault_items_id_seq d |}.
Proof.
  intros W. split; simpl.
  - apply NoDup_map_filter, W.
  - intros it H. apply filter_In in H. apply (wf_item_range _ W), H.
  - apply W.
  - apply W.
  - apply W.
  - intros it H. apply filter_In in H. apply (wf_owner _ W), H.
Qed.

Lemma wf_insert now o nm nt d :
  wf d -> int4 (vault_items_id_seq d) = true ->
  existsb (fun u => (u_id u =? o)%Z) (users d) = true ->
  wf {| users := users d;
        vault_items := vault_items d
                       ++ [{| id := vault_items_id_seq d; owner_id := o;
                              name := nm; note := nt;
                              created_at := now; updated_at := now |}];
        vault_items_id_seq := (vault_items_id_seq d + 1)%Z |}.
Proof.
  intros W HS HU. unfold int4 in HS. apply andb_true_iff in HS.
  destruct HS as [Lo Hi]. apply Z.leb_le in Lo, Hi.
  split; simpl.
  - rewrite map_app. simpl. apply NoDup_app; [apply W | repeat constructor; simpl; tauto |].
    intros x Hx [<-|[]]. apply in_map_iff in Hx. destruct Hx as [it [E Hit]].
    pose proof (wf_item_range _ W it Hit). lia.
  - intros it H. apply in_app_iff in H. destruct H as [H|[<-|[]]].
    + pose proof (wf_item_range _ W it H). lia.
    + simpl. pose proof (wf_seq _ W). lia.
  - pose proof (wf_seq _ W). lia.
  - apply W.
  - apply W.
  - intros it H. apply in_app_iff in H. destruct H as [H|[<-|[]]].
    + apply (wf_owner _ W), H.
    + exact HU.
Qed.

Lemma wf_seq_advanced d :
  wf d -> int4 (vault_items_id_seq d) = true ->
  wf {| users := users d; vault_items := vault_items d;
        vault_items_id_seq := (vault_items_id_seq d + 1)%Z |}.
Proof.
  intros W HS. unfold int4 in HS. apply andb_true_iff in HS.
  destruct HS as [Lo Hi]. apply Z.leb_le in Lo, Hi.
  pose proof (wf_seq _ W) as Hseq.
  split; simpl; try apply W; [|lia].
  intros it Hit. pose proof (wf_item_range _ W it Hit). lia.
Qed.

Lemma wf_update d (g : Item -> bool) now nm nt :
  wf d ->
  wf {| users := users d;
        vault_items :=
          map (fun it => if g it then set_item now nm nt it else it)
              (vault_items d);
        vault_items_id_seq := vault_items_id_seq d |}.
Proof.
  intros W.
  assert (forall it, id (if g it then set_item now nm nt it else it) = id it) as Eid
    by (intros it; destruct (g it); reflexivity).
  assert (forall it, owner_id (if g it then set_item now nm nt it else it)
                     = owner_id it) as Eow
    by (intros it; destruct (g it); reflexivity).
  split; simpl; try apply W.
  - rewrite map_map. rewrite (map_ext _ id Eid). apply W.
  - intros it H. apply in_map_iff in H. destruct H as [J [<- HJ]].
    rewrite Eid. apply (wf_item_range _ W), HJ.
  - intros it H. apply in_map_iff in H. destruct H as [J [<- HJ]].
    rewrite Eow. apply (wf_owner _ W), HJ.
Qed.

Lemma wf_delete_user d i :
  wf d ->
  wf {| users := filter (fun u => negb (u_id u =? i)%Z) (users d);
        vault_items :=
          if existsb (fun u => (u_id u =? i)%Z) (users d)
          then filter (fun it => negb (owner_id it =? i)%Z) (vault_items d)
          else vault_items d;
        vault_items_id_seq := vault_items_id_seq d |}.
Proof.
  intros W.
  assert (forall o, o <> i ->
            existsb (fun u => (u_id u =? o)%Z) (users d) = true ->
            existsb (fun u => (u_id u =? o)%Z)
                    (filter (fun u => negb (u_id u =? i)%Z) (users d)) = true) as Keep.
  { intros o N H. apply existsb_exists in H. destruct H as [u [Hu E]].
    apply existsb_exists. exists u. split; [|exact E].
    apply filter_In. split; [exact Hu |].
    apply Z.eqb_eq in E. apply negb_true_iff, Z.eqb_neq. congruence. }
  destruct (existsb (fun u => (u_id u =? i)%Z) (users d)) eqn:Ex.
  - pose proof (wf_filter_items d (fun it => negb (owner_id it =? i)%Z) W) as W'.
    split; simpl; try apply W'.
    + apply NoDup_map_filter, W.
    + intros u H. apply filter_In in H. apply (wf_user_range _ W), H.
    + intros it H. apply filter_In in H. destruct H as [H N].
      apply negb_true_iff, Z.eqb_neq in N.
      apply Keep; [exact N | apply (wf_owner _ W), H].
  - split; simpl; try apply W.
    + apply NoDup_map_filter, W.
    + intros u H. apply filter_In in H. apply (wf_user_range _ W), H.
    + intros it H. apply Keep; [|apply (wf_owner _ W), H].
      intros E. pose proof (wf_owner _ W it H) as O. rewrite E in O.
      rewrite O in Ex. discriminate.
Qed.

Lemma preserves_queries now i o nm nt :
  preserves (select_items_by_owner o) /\ preserves (select_item i o)
  /\ preserves (insert_item now o nm nt) /\ preserves (update_item now nm nt i o)
  /\ preserves (delete_item_any i) /\ preserves (delete_item_owned i o)
  /\ preserves (select_user i) /\ preserves (delete_user i).
Proof.
  repeat apply conj; apply preserves_pool_query; intros d W; simpl.
  - exact W.
  - destruct (int4 i); exact W.
  - destruct (sendable nm && sendable nt); [|exact W].
    destruct (varchar 255 (wire nm)) as [nm'|]; [|exact W].
    destruct (int4 (vault_items_id_seq d)) eqn:HS; [|exact W].
    destruct (existsb (fun u => (u_id u =? o)%Z) (users d)) eqn:HU; simpl.
    + now apply wf_insert.
    + now apply wf_seq_advanced.
  - destruct (sendable nm && sendable nt && int4 i); [|exact W].
    destruct (varchar 255 (wire nm)) as [nm'|]; [|exact W].
    simpl. now apply wf_update.
  - destruct (int4 i); [|exact W]. simpl. now apply wf_filter_items.
  - destruct (int4 i); [|exact W]. simpl. now apply wf_filter_items.
  - destruct (int4 i); exact W.
  - destruct (int4 i); [|exact W]. simpl. now apply wf_delete_user.
Qed.

(** X4: every route keeps the constraints of the schema (unique primary
    keys drawn from the sequence, every item owned by an account): the
    assumption the other properties make on the database holds of every
    state the routes can reach from one that satisfies it. *)
Theorem routes_keep_the_schema (ilike : str -> str -> bool) now P p :
  keeps_schema (vault_get P)
  /\ keeps_schema (vault_get_id P p)
  /\ (forall b, keeps_schema (vault_post now P b))
  /\ (forall b, keeps_schema (vault_put_id now P p b))
  /\ keeps_schema (vault_delete_id P p)
  /\ (forall b, keeps_schema (vault_search ilike P b))
  /\ keeps_schema (users_get_id P p)
  /\ keeps_schema (users_delete_id P p).
Proof.
  repeat apply conj; try intros b.
  - apply keeps_try_catch, preserves_bind;
      [apply (preserves_queries 0 0 (pid P) [] []) | intros; apply preserves_send].
  - apply keeps_try_catch. destruct (parseInt p) as [i|]; [|apply preserves_send].
    apply preserves_bind; [apply (preserves_queries 0 i (pid P) [] []) |].
    intros [|r rows]; apply preserves_send.
  - apply keeps_validated. intros b'. apply keeps_try_catch, preserves_bind;
      [|intros; apply preserves_send].
    apply (preserves_queries now 0 (pid P)).
  - apply keeps_validated. intros b'. apply keeps_try_catch.
    destruct (parseInt p) as [i|]; [|apply preserves_send].
    apply preserves_bind; [apply (preserves_queries now i (pid P)) |].
    intros [|r rows]; apply preserves_send.
  - apply keeps_try_catch. destruct (parseInt p) as [i|]; [|apply preserves_send].
    apply preserves_bind.
    + destruct (role_eqb (prole P) admin);
        apply (preserves_queries 0 i (pid P) [] []).
    + intros [|r rows]; apply preserves_send.
  - apply keeps_validated. intros b'. apply keeps_try_catch.
    destruct (Validation.query b') as [[|c q]|]; try apply preserves_send.
    destruct (Nat.eqb (length (trim (c :: q))) 0); [apply preserves_send |].
    apply preserves_bind; [|intros; apply preserves_send].
    apply preserves_pool_query. intros d W. destruct (sendable _); exact W.
  - apply keeps_requireRole, keeps_try_catch.
    destruct (parseInt p) as [i|]; [|apply preserves_send].
    apply preserves_bind; [apply (preserves_queries 0 i 0 [] []) |].
    intros [|r rows]; apply preserves_send.
  - apply keeps_requireRole, keeps_try_catch.
    destruct (parseInt p) as [i|]; [|apply preserves_send].
    destruct (i =? pid P)%Z; [apply preserves_send |].
    apply preserves_bind; [apply (preserves_queries 0 i 0 [] []) |].
    intros [|r rows]; apply preserves_send.
Qed.

Lemma routes_keep_the_schema_witness :
  wf (db (snd (vault_post 20 as_bob
                 {| Validation.name := Some (lit "Item");
                    Validation.note := Some (lit "note") |} w0)))
  /\ wf (db (snd (users_delete_id as_alice (lit "2") w0))).
Proof.
  destruct (routes_keep_the_schema (fun _ _ => true) 20%Z as_bob (lit "1"))
    as (_ & _ & Hpost & _).
  destruct (routes_keep_the_schema (fun _ _ => true) 20%Z as_alice (lit "2"))
    as (_ & _ & _ & _ & _ & _ & _ & Hdel).
  split.
  - exact (Hpost _ w0 wf_db0).
  - exact (Hdel w0 wf_db0).
Defined.

End SchemaInvariant.

(* ================================================================== *)
(** ** What the stripping and the encoding keep *)
(* ================================================================== *)

Section TextProperties.

Import Notions.

Lemma subseq_refl s : subseq s s.
Proof. induction s; constructor; assumption. Qed.

Lemma subseq_trans a b c : subseq a b -> subseq b c -> subseq a c.
Proof.
  intros Hab Hbc. revert a Hab.
  induction Hbc as [|x s t Hst IH|x s t Hst IH]; intros a Hab.
  - exact Hab.
  - constructor. now apply IH.
  - inversion Hab; subst.
    + apply subseq_skip. now apply IH.
    + apply subseq_keep. now apply IH.
Qed.

Lemma subseq_length s t : subseq s t -> length s <= length t.
Proof. induction 1; simpl; lia. Qed.

Lemma subseq_In s t x : subseq s t -> In x s -> In x t.
Proof.
  induction 1 as [|c s t H IH|c s t H IH]; simpl; [tauto | auto |].
  intros [->|Hx]; auto.
Qed.

Lemma remove_go_subseq m s : forall k,
  subseq (replace_go m (fun _ => []) k s) s.
Proof.
  induction s as [|c t IH]; intros k.
  - destruct k; simpl; [destruct (m []) |]; constructor.
  - destruct k as [|k]; simpl.
    + destruct (m (c :: t)) as [[|n]|]; simpl.
      * apply subseq_keep. apply IH.
      * apply subseq_skip. apply IH.
      * apply subseq_keep. apply IH.
    + apply subseq_skip. apply IH.
Qed.

Lemma remove_all_subseq m s : subseq (remove_all m s) s.
Proof. apply remove_go_subseq. Qed.

(** X5: the stripping stage only deletes.  Whatever the input, the result
    of [sanitizeInput] is the input with some code units removed: nothing
    is added, changed or reordered, so it is never longer and holds no
    character the input did not hold. *)
Theorem sanitizeInput_only_deletes s :
  subseq (sanitizeInput s) s
  /\ length (sanitizeInput s) <= length s
  /\ (forall c, In c (sanitizeInput s) -> In c s).
Proof.
  assert (subseq (sanitizeInput s) s) as H.
  { unfold sanitizeInput.
    eapply subseq_trans; [apply remove_all_subseq |].
    eapply subseq_trans; [apply remove_all_subseq |].
    apply remove_all_subseq. }
  split; [exact H |]. split; [now apply subseq_length |].
  intros c. now apply subseq_In.
Qed.

Lemma entity_head c : exists t, Design.entity c = (if isHtmlSpecial c then 38%N else c) :: t.
Proof.
  unfold Design.entity, isHtmlSpecial.
  destruct (N.eqb_spec c 38); [subst; eexists; reflexivity |].
  destruct (N.eqb_spec c 60); [subst; eexists; reflexivity |].
  destruct (N.eqb_spec c 62); [subst; eexists; reflexivity |].
  destruct (N.eqb_spec c 34); [subst; eexists; reflexivity |].
  destruct (N.eqb_spec c 39); [subst; eexists; reflexivity |].
  eexists; reflexivity.
Qed.

Lemma special_cases c :
  isHtmlSpecial c = true ->
  c = 38%N \/ c = 60%N \/ c = 62%N \/ c = 34%N \/ c = 39%N.
Proof.
  unfold isHtmlSpecial. intros H.
  repeat (apply orb_true_iff in H; destruct H as [H|H]);
    apply N.eqb_eq in H; auto 6.
Qed.

Lemma encode_cons_inj c1 c2 s1 s2 :
  Design.entity c1 ++ s1 = Design.entity c2 ++ s2 -> c1 = c2 /\ s1 = s2.
Proof.
  destruct (isHtmlSpecial c1) eqn:E1; destruct (isHtmlSpecial c2) eqn:E2.
  - apply special_cases in E1. apply special_cases in E2.
    destruct E1 as [->|[->|[->|[->| ->]]]];
      destruct E2 as [->|[->|[->|[->| ->]]]];
      cbn; intros H; inversion H; auto.
  - apply special_cases in E1.
    assert (Design.entity c2 = [c2]) as ->.
    { unfold Design.entity. unfold isHtmlSpecial in E2.
      repeat (apply orb_false_iff in E2; destruct E2 as [E2 ?]).
      now rewrite E2, H, H0, H1, H2. }
    destruct E1 as [->|[->|[->|[->| ->]]]]; cbn; intros H3; inversion H3; subst;
      discriminate.
  - apply special_cases in E2.
    assert (Design.entity c1 = [c1]) as ->.
    { unfold Design.entity. unfold isHtmlSpecial in E1.
      repeat (apply orb_false_iff in E1; destruct E1 as [E1 ?]).
      now rewrite E1, H, H0, H1, H2. }
    destruct E2 as [->|[->|[->|[->| ->]]]]; cbn; intros H3; inversion H3; subst;
      discriminate.
  - assert (forall c, isHtmlSpecial c = false -> Design.entity c = [c]) as Hplain.
    { intros c E. unfold Design.entity. unfold isHtmlSpecial in E.
      repeat (apply orb_false_iff in E; destruct E as [E ?]).
      now rewrite E, H, H0, H1, H2. }
    rewrite (Hplain _ E1), (Hplain _ E2). cbn. intros H; inversion H; auto.
Qed.

Lemma encode_nil_inv s : Design.encode s = [] -> s = [].
Proof.
  destruct s as [|c s]; [reflexivity |]. unfold Design.encode. simpl.
  destruct (entity_head c) as [t ->]. discriminate.
Qed.

(** X6: entity encoding loses nothing.  Two different texts are never
    encoded to the same text: what [escapeHtml] returns determines what it
    was given. *)
Theorem escapeHtml_is_injective a b :
  escapeHtml a = escapeHtml b -> a = b.
Proof.
  rewrite !escapeHtml_encode. revert b.
  induction a as [|c a IH]; intros b H.
  - symmetry. apply encode_nil_inv. now rewrite <- H.
  - destruct b as [|d b].
    + apply encode_nil_inv in H. discriminate.
    + unfold Design.encode in H. simpl in H.
      apply encode_cons_inj in H. destruct H as [-> H].
      f_equal. now apply IH.
Qed.

Lemma escapeHtml_is_injective_witness :
  escapeHtml (lit "a<b") = escapeHtml (lit "a<b") /\ lit "a<b" = lit "a<b".
Proof.
  split; [reflexivity |].
  apply (escapeHtml_is_injective (lit "a<b") (lit "a<b")). reflexivity.
Defined.

(** X7: ordinary text passes through unchanged.  A note that holds none
    of the five significant characters and no [javascript:] token in any
    letter case is returned by [sanitizeNote] exactly as given, and so is
    every such text by [sanitizeInput] and by [escapeHtml]. *)
Theorem plain_text_is_kept s :
  Design.plain s -> Design.has_javascript s = false ->
  sanitizeNote s = s /\ sanitizeInput s = s /\ escapeHtml s = s.
Proof.
  intros P J. split; [now apply plain_stable |].
  assert (escapeHtml s = s) as E
    by (apply replace_go_no_match, plain_no_special, P).
  split; [|exact E].
  unfold Design.has_javascript in J. apply negb_false_iff in J.
  unfold sanitizeInput, remove_all, replace_all.
  rewrite (replace_go_no_match _ _ _ (plain_no_script _ P)).
  rewrite (replace_go_no_match _ _ _ (plain_no_handler _ P)).
  apply replace_go_no_match, J.
Qed.

Lemma plain_text_is_kept_witness :
  sanitizeNote (lit "Valid note content") = lit "Valid note content".
Proof.
  refine (proj1 (plain_text_is_kept (lit "Valid note content") _ eq_refl)).
  intros x Hx. simpl in Hx.
  repeat (destruct Hx as [<-|Hx]; [reflexivity |]). destruct Hx.
Defined.

End TextProperties.

(* ================================================================== *)
(** ** What the item routes return and what they leave alone *)
(* ================================================================== *)

Section ItemRouteProperties.

Import Store Routes Scenario Notions.

Lemma insert_desc_perm x l : Permutation (insert_desc x l) (x :: l).
Proof.
  induction l as [|y l IH]; simpl; [reflexivity |].
  destruct (created_at y <? created_at x)%Z; [reflexivity |].
  rewrite IH. apply perm_swap.
Qed.

Lemma order_perm l : Permutation (order_by_created_desc l) l.
Proof.
  induction l as [|x l IH]; simpl; [reflexivity |].
  rewrite insert_desc_perm. now constructor.
Qed.

Lemma insert_desc_sorted x l :
  StronglySorted newer_first l -> StronglySorted newer_first (insert_desc x l).
Proof.
  induction l as [|y l IH]; simpl; intros S.
  - repeat constructor.
  - apply StronglySorted_inv in S. destruct S as [S F].
    destruct (Z.ltb_spec (created_at y) (created_at x)) as [L|L].
    + constructor; [constructor; assumption |].
      constructor; [unfold newer_first; lia |].
      rewrite Forall_forall in *. intros z Hz. specialize (F z Hz).
      unfold newer_first in *. lia.
    + constructor; [now apply IH |].
      rewrite Forall_forall in *. intros z Hz. apply In_insert_desc in Hz.
      destruct Hz as [->|Hz]; [unfold newer_first; lia | now apply F].
Qed.

Lemma order_sorted l : StronglySorted newer_first (order_by_created_desc l).
Proof.
  induction l as [|x l IH]; simpl; [constructor | now apply insert_desc_sorted].
Qed.

(** X8: [GET /api/vault] answers 200 with the rows of the requester's
    items: all of them, each once, none of another owner, the newest
    first; it sends one statement and changes no table. *)
Theorem own_items_are_listed_newest_first P w :
  exists l,
    vault_get P w
    = ({| status := 200; json := JItems (map item_row l) |},
       logged w (SelectItemsByOwner (pid P)))
    /\ Permutation l (filter (fun it => (owner_id it =? pid P)%Z)
                             (vault_items (db w)))
    /\ StronglySorted newer_first l.
Proof.
  eexists. split; [reflexivity |]. split; [apply order_perm | apply order_sorted].
Qed.

(** X9: the routes that read change no table: the list, the read of one
    item, the search and the read of one account leave the database as
    they found it, whatever the request and whatever they answer. *)
Theorem read_routes_change_nothing (ilike : str -> str -> bool) P p b w :
  db (snd (vault_get P w)) = db w
  /\ db (snd (vault_get_id P p w)) = db w
  /\ db (snd (vault_search ilike P b w)) = db w
  /\ db (snd (users_get_id P p w)) = db w.
Proof.
  repeat apply conj.
  - reflexivity.
  - unfold vault_get_id, try_catch, bind, select_item, pool_query, send, ret.
    destruct (parseInt p) as [i|]; [|reflexivity].
    destruct (int4 i); [|reflexivity].
    destruct (map item_row _); reflexivity.
  - unfold vault_search, validated.
    destruct (Validation.validateSearch b) as [b' [|e errs]]; [|reflexivity].
    unfold try_catch, bind, search_items, pool_query, send, ret.
    destruct (Validation.query b') as [[|c q]|]; try reflexivity.
    destruct (Nat.eqb (length (trim (c :: q))) 0); [reflexivity |].
    destruct (sendable _); reflexivity.
  - unfold users_get_id, requireRole.
    destruct (role_eqb (prole P) admin); [|reflexivity].
    unfold try_catch, bind, select_user, pool_query, send, ret.
    destruct (parseInt p) as [i|]; [|reflexivity].
    destruct (int4 i); [|reflexivity].
    destruct (map user_row _); reflexivity.
Qed.

(** X10: whatever a search returns is also in the requester's list: every
    row of the answer of [POST /api/vault/search] is a row of the answer
    of [GET /api/vault] in the same state. *)
Theorem search_results_are_listed (ilike : str -> str -> bool) P b w rows row :
  json (fst (vault_search ilike P b w)) = JItems rows ->
  In row rows ->
  exists listed,
    json (fst (vault_get P w)) = JItems listed /\ In row listed.
Proof.
  intros H Hrow.
  destruct (vault_search_rows ilike _ _ _ _ H) as [_ [f ->]].
  eexists. split; [reflexivity |].
  apply in_map_iff in Hrow. destruct Hrow as [it [<- Hit]].
  apply in_map. apply In_order. apply In_order, filter_In in Hit.
  destruct Hit as [Hit E]. apply andb_true_iff in E.
  apply filter_In. tauto.
Qed.

Lemma search_results_are_listed_witness :
  exists listed,
    json (fst (vault_get as_bob w0)) = JItems listed
    /\ In (item_row item1) listed.
Proof.
  apply (search_results_are_listed (fun _ _ => true) as_bob
           {| Validation.query := Some (lit "Item") |} w0
           [item_row item2; item_row item1] (item_row item1)).
  - reflexivity.
  - simpl. auto.
Defined.

Lemma vault_put_id_db now P p b w :
  db (snd (vault_put_id now P p b w)) = db w
  \/ exists i nm nt,
       db (snd (vault_put_id now P p b w))
       = {| users := users (db w);
            vault_items :=
              map (fun it => if is_item i (pid P) it
                             then set_item now nm nt it else it)
                  (vault_items (db w));
            vault_items_id_seq := vault_items_id_seq (db w) |}.
Proof.
  unfold vault_put_id, validated.
  destruct (Validation.validateVaultItem b) as [b' [|e errs]]; [|now left].
  unfold try_catch, bind, update_item, pool_query, send, ret.
  destruct (parseInt p) as [i|]; [|now left].
  destruct (sendable _ && sendable _ && int4 i); [|now left].
  destruct (varchar 255 _) as [nm'|]; [|now left].
  right. do 3 eexists.
  destruct (map item_row _); reflexivity.
Qed.

(** X11: an update rewrites only the name, the note and the update time,
    and only of items of the requester.  After [PUT /api/vault/:id],
    whatever the request and the answer, the table holds the same items in
    the same order, each with the id, the owner and the creation time it
    had; every item of another owner is exactly as before; accounts and
    the sequence are untouched. *)
Theorem update_keeps_identity_and_foreign_items now P p b w :
  exists f,
    vault_items (db (snd (vault_put_id now P p b w)))
    = map f (vault_items (db w))
    /\ (forall it, same_identity (f it) it)
    /\ (forall it, owner_id it <> pid P -> f it = it)
    /\ users (db (snd (vault_put_id now P p b w))) = users (db w)
    /\ vault_items_id_seq (db (snd (vault_put_id now P p b w)))
       = vault_items_id_seq (db w).
Proof.
  destruct (vault_put_id_db now P p b w) as [E|[i [nm [nt E]]]]; rewrite E.
  - exists (fun it => it). rewrite map_id. unfold same_identity. auto.
  - eexists. split; [reflexivity |]. simpl. repeat apply conj; auto.
    + intros it. unfold same_identity. destruct (is_item i (pid P) it); auto.
    + intros it N. unfold is_item.
      destruct (Z.eqb_spec (owner_id it) (pid P)); [contradiction |].
      now rewrite andb_false_r.
Qed.

Lemma validated_name b :
  Validation.name (fst (Validation.validateVaultItem b))
  = Some (trim (Validation.toString (Validation.name b))).
Proof.
  unfold Validation.validateVaultItem, Validation.name_chain.
  destruct (Validation.note_chain (Validation.note b)). reflexivity.
Qed.

(** X12: a create adds one item or nothing.  [POST /api/vault] either
    answers 201 and appends exactly one item, owned by the requester, with
    the next id of the sequence, the trimmed name and both times set to
    now, or answers something else and leaves the items as they were; in
    either case the earlier items and the accounts are unchanged. *)
Theorem create_appends_one_own_item_or_nothing now P b w :
  users (db (snd (vault_post now P b w))) = users (db w)
  /\ ((status (fst (vault_post now P b w)) = 201
       /\ exists it,
            vault_items (db (snd (vault_post now P b w)))
            = vault_items (db w) ++ [it]
            /\ owner_id it = pid P
            /\ id it = vault_items_id_seq (db w)
            /\ name it = trim (Validation.toString (Validation.name b))
            /\ created_at it = now /\ updated_at it = now)
      \/ (status (fst (vault_post now P b w)) <> 201
          /\ vault_items (db (snd (vault_post now P b w)))
             = vault_items (db w))).
Proof.
  destruct (snd (Validation.validateVaultItem b)) eqn:Hv.
  - rewrite (vault_post_eval now P b w Hv). cbv zeta.
    destruct (sendable _);
      [destruct (int4 (vault_items_id_seq (db w)));
       [destruct (existsb (fun u => (u_id u =? pid P)%Z) (users (db w))) |] |];
      simpl; split; try reflexivity.
    + left. split; [reflexivity |]. eexists. split; [reflexivity |]. simpl.
      repeat apply conj; try reflexivity.
      rewrite validated_name. simpl. apply trim_idem.
    + right. split; [discriminate | reflexivity].
    + right. split; [discriminate | reflexivity].
    + right. split; [discriminate | reflexivity].
  - unfold vault_post. rewrite validated_rejects by congruence. simpl.
    split; [reflexivity |]. right. split; [discriminate | reflexivity].
Qed.

End ItemRouteProperties.

(* ================================================================== *)
(** ** Identifiers with text after the number; items out of reach *)
(* ================================================================== *)

Section ReachProperties.

Import Store Routes Scenario Notions.

Lemma parseInt_digits_then ds c rest :
  ds <> [] -> forallb isDigit ds = true -> isDigit c = false ->
  parseInt (ds ++ c :: rest) = Some (toNumber (digits_val ds))
  /\ parseInt ((45%N :: ds) ++ c :: rest) = Some (toNumber (- digits_val ds))%Z.
Proof.
  destruct ds as [|d t]; [congruence |]. intros _ H E.
  pose proof (takeWhile_stop isDigit _ _ rest H E) as T.
  simpl in H. apply andb_true_iff in H. destruct H as [Hd Ht].
  destruct (isDigit_plain _ Hd) as [W [M Pl]].
  cbn [app] in T.
  split.
  - unfold parseInt, trimStart. cbn [dropWhile app].
    rewrite W, M, Pl, T. reflexivity.
  - unfold parseInt, trimStart. cbn [dropWhile app].
    change (isWhiteSpace 45%N) with false. cbv iota.
    change (N.eqb 45%N 45%N) with true. cbv iota.
    unfold str, char in *. rewrite T. reflexivity.
Qed.

Lemma parseInt_number_then z c rest :
  isDigit c = false ->
  parseInt (Number_toString z ++ c :: rest) = Some (toNumber z).
Proof.
  intros E.
  assert (forall d, d <> Decimal.Nil ->
            parseInt (uint_chars d ++ c :: rest)
            = Some (toNumber (Z.of_N (N.of_uint d)))
            /\ parseInt ((45%N :: uint_chars d) ++ c :: rest)
               = Some (toNumber (- Z.of_N (N.of_uint d)))%Z) as H.
  { intros d Hd. unfold N.of_uint. rewrite <- digits_of_uint.
    apply parseInt_digits_then; [|apply uint_chars_digits | exact E].
    destruct d; [congruence | ..]; discriminate. }
  destruct z as [|q|q]; unfold Number_toString.
  - destruct (H (N.to_uint 0)) as [H0 _]; [discriminate |]. exact H0.
  - destruct (H (N.to_uint (Npos q))) as [H0 _].
    { apply DecimalPos.Unsigned.to_uint_nonnil. }
    rewrite DecimalN.Unsigned.of_to in H0. exact H0.
  - destruct (H (N.to_uint (Npos q))) as [_ H0].
    { apply DecimalPos.Unsigned.to_uint_nonnil. }
    rewrite DecimalN.Unsigned.of_to in H0. exact H0.
Qed.

(** X13: a path identifier is read up to its first character that is not
    a digit.  For every integer, its decimal numeral followed by any text
    that starts with a non-digit is read as the numeral alone: as the
    integer itself up to 2^53 in magnitude, as the nearest double beyond
    (9007199254740993 is read as 9007199254740992).  The item and user
    routes therefore treat both identifiers alike: same answer, same
    statement, same effect on the tables. *)
Theorem text_after_the_number_is_ignored now P z c rest b w :
  isDigit c = false ->
  parseInt (Number_toString z ++ c :: rest) = parseInt (Number_toString z)
  /\ ((Z.abs z <= 2 ^ 53)%Z ->
      parseInt (Number_toString z ++ c :: rest) = Some z)
  /\ parseInt (Number_toString 9007199254740993 ++ c :: rest)
     = Some 9007199254740992%Z
  /\ vault_get_id P (Number_toString z ++ c :: rest) w
     = vault_get_id P (Number_toString z) w
  /\ vault_put_id now P (Number_toString z ++ c :: rest) b w
     = vault_put_id now P (Number_toString z) b w
  /\ vault_delete_id P (Number_toString z ++ c :: rest) w
     = vault_delete_id P (Number_toString z) w
  /\ users_get_id P (Number_toString z ++ c :: rest) w
     = users_get_id P (Number_toString z) w
  /\ users_delete_id P (Number_toString z ++ c :: rest) w
     = users_delete_id P (Number_toString z) w.
Proof.
  intros E. pose proof (parseInt_number_then z c rest E) as H.
  pose proof (parseInt_numeral z) as H0.
  split; [congruence |].
  split; [intros B; now rewrite H, toNumber_exact |].
  split; [now rewrite parseInt_number_then |].
  unfold vault_get_id, vault_put_id, vault_delete_id, users_get_id,
    users_delete_id.
  rewrite H, H0. auto 6.
Qed.

Lemma text_after_the_number_witness :
  vault_delete_id as_carol
    (Number_toString 1 ++ lit "; DROP TABLE vault_items; --") w0
  = vault_delete_id as_carol (Number_toString 1) w0.
Proof.
  exact (proj1 (proj2 (proj2 (proj2 (proj2 (proj2
           (text_after_the_number_is_ignored 0%Z as_carol 1%Z 59%N
              (lit " DROP TABLE vault_items; --")
              {| Validation.name := None; Validation.note := None |}
              w0 eq_refl))))))).
Defined.

Lemma vault_delete_id_user_db P p w :
  role_eqb (prole P) admin = false ->
  db (snd (vault_delete_id P p w)) = db w
  \/ exists i,
       db (snd (vault_delete_id P p w))
       = {| users := users (db w);
            vault_items := filter (fun it => negb (is_item i (pid P) it))
                                  (vault_items (db w));
            vault_items_id_seq := vault_items_id_seq (db w) |}.
Proof.
  intros Hr.
  unfold vault_delete_id, try_catch, bind, delete_item_owned, pool_query, send, ret.
  rewrite Hr.
  destruct (parseInt p) as [i|]; [|now left].
  destruct (int4 i); [|now left].
  right. exists i. destruct (map id _); reflexivity.
Qed.

(** X14: a principal that is not an admin cannot remove or change an item
    of another owner.  Whatever the request, after a delete, an update or
    a create by such a principal every item that belongs to someone else
    is still in the table, exactly as it was. *)
Theorem foreign_items_are_out_of_reach now P p b it w :
  prole P <> admin ->
  In it (vault_items (db w)) -> owner_id it <> pid P ->
  In it (vault_items (db (snd (vault_delete_id P p w))))
  /\ In it (vault_items (db (snd (vault_put_id now P p b w))))
  /\ In it (vault_items (db (snd (vault_post now P b w)))).
Proof.
  intros Hrole Hit Hown.
  assert (forall i, is_item i (pid P) it = false) as Hno.
  { intros i. unfold is_item.
    destruct (Z.eqb_spec (owner_id it) (pid P)); [contradiction |].
    apply andb_false_r. }
  repeat apply conj.
  - destruct (vault_delete_id_user_db P p w (role_eqb_not_admin _ Hrole))
      as [E|[i E]]; rewrite E; [exact Hit |].
    simpl. apply filter_In. split; [exact Hit |]. now rewrite Hno.
  - destruct (vault_put_id_db now P p b w) as [E|[i [nm [nt E]]]]; rewrite E;
      [exact Hit |].
    simpl. apply in_map_iff. exists it. split; [now rewrite Hno | exact Hit].
  - destruct (snd (Validation.validateVaultItem b)) eqn:Hv.
    + rewrite (vault_post_eval now P b w Hv). cbv zeta.
      destruct (sendable _);
        [destruct (int4 (vault_items_id_seq (db w)));
         [destruct (existsb (fun u => (u_id u =? pid P)%Z) (users (db w))) |] |];
        simpl; [apply in_or_app; now left | exact Hit | exact Hit | exact Hit].
    + unfold vault_post. rewrite validated_rejects by congruence. exact Hit.
Qed.

Lemma foreign_items_witness :
  In item1 (vault_items (db (snd (vault_delete_id as_carol (lit "1") w0)))).
Proof.
  refine (proj1 (foreign_items_are_out_of_reach 0%Z as_carol (lit "1")
                   {| Validation.name := None; Validation.note := None |}
                   item1 w0 _ _ _)).
  - discriminate.
  - simpl. auto.
  - discriminate.
Defined.

(** X15: deleting an account removes that account and its items, nothing
    else.  For an admin and an identifier read as the 32-bit id [i] of
    another account: when the account exists the answer is 200, the
    accounts left are those with another id and the items left are those
    of another owner; when it does not exist the answer is 404 and no
    table changes. *)
Theorem account_deletion_cascades_exactly P p i w :
  prole P = admin -> parseInt p = Some i -> i <> pid P -> int4 i = true ->
  (existsb (fun u => (u_id u =? i)%Z) (users (db w)) = true ->
   status (fst (users_delete_id P p w)) = 200
   /\ (forall u, In u (users (db (snd (users_delete_id P p w))))
                 <-> In u (users (db w)) /\ u_id u <> i)
   /\ (forall it, In it (vault_items (db (snd (users_delete_id P p w))))
                  <-> In it (vault_items (db w)) /\ owner_id it <> i))
  /\ (existsb (fun u => (u_id u =? i)%Z) (users (db w)) = false ->
      status (fst (users_delete_id P p w)) = 404
      /\ db (snd (users_delete_id P p w)) = db w).
Proof.
  intros Hrole Hp Hne Hi.
  unfold users_delete_id, requireRole, try_catch, bind, delete_user, pool_query,
    send, ret.
  rewrite Hrole, Hp. simpl role_eqb. cbv iota.
  destruct (Z.eqb_spec i (pid P)) as [E|_]; [contradiction |].
  rewrite Hi.
  assert (forall (A : Type) (f : A -> Z) l x,
            In x (filter (fun a => negb (f a =? i)%Z) l) <-> In x l /\ f x <> i) as Hf.
  { intros A f l x. rewrite filter_In, negb_true_iff, Z.eqb_neq. tauto. }
  split; intros Ex; rewrite Ex.
  - apply existsb_exists in Ex. destruct Ex as [u [Hu Eu]].
    assert (In u (filter (fun u => (u_id u =? i)%Z) (users (db w)))) as Hin
      by (apply filter_In; auto).
    destruct (filter (fun u => (u_id u =? i)%Z) (users (db w))) as [|u0 l];
      [destruct Hin |].
    simpl. repeat apply conj; try reflexivity.
    + intros v. apply Hf.
    + intros it. apply Hf.
  - assert (forall u, In u (users (db w)) -> (u_id u =? i)%Z = false) as Hnone.
    { intros u Hu. destruct (u_id u =? i)%Z eqn:E; [|reflexivity].
      assert (existsb (fun u => (u_id u =? i)%Z) (users (db w)) = true) as T
        by (apply existsb_exists; eauto).
      congruence. }
    rewrite (filter_none _ _ Hnone). simpl. split; [reflexivity |].
    rewrite filter_all; [apply db_eta |].
    intros u Hu. now rewrite (Hnone u Hu).
Qed.

Lemma account_deletion_witness :
  status (fst (users_delete_id as_alice (lit "2") w0)) = 200
  /\ (forall it, In it (vault_items (db (snd (users_delete_id as_alice (lit "2") w0))))
                 <-> In it (vault_items (db w0)) /\ owner_id it <> 2%Z).
Proof.
  destruct (proj1 (account_deletion_cascades_exactly as_alice (lit "2") 2%Z w0
                     eq_refl eq_refl ltac:(discriminate) eq_refl) eq_refl)
    as [H1 [_ H2]].
  split; [exact H1 | exact H2].
Defined.

End ReachProperties.

(* ================================================================== *)
(** ** The password rule of [validateUser] *)
(* ================================================================== *)

Section PasswordRule.

Import Accounts.

Lemma In_takeWhile f x s : In x (takeWhile f s) -> In x s.
Proof.
  induction s as [|c t IH]; simpl; [tauto |].
  destruct (f c); simpl; tauto.
Qed.

Lemma existsb_first_line cls s :
  existsb cls (first_line s) = true -> existsb cls s = true.
Proof.
  intros H. apply existsb_exists in H. destruct H as [c [Hc E]].
  apply existsb_exists. exists c. split; [|exact E].
  now apply In_takeWhile in Hc.
Qed.

Lemma first_line_cut a c b :
  isLineTerminator c = true -> first_line (a ++ c :: b) = first_line a.
Proof.
  intros E. unfold first_line.
  induction a as [|x a IH]; simpl; [now rewrite E |].
  destruct (negb (isLineTerminator x)); [now rewrite IH | reflexivity].
Qed.

Lemma password_chain_nil p :
  password_chain (Text p) = []
  <-> Validation.isLength 8 (Some 100) p = true /\ matches_password p = true.
Proof.
  unfold password_chain. simpl fieldString. cbv zeta. split.
  - intros H. apply app_eq_nil in H. destruct H as [H1 H2].
    apply check_nil in H1. apply check_nil in H2. auto.
  - intros [H1 H2]. rewrite H1, H2. reflexivity.
Qed.

(** X16: what [validateUser] asks of a password.  A password that passes
    has at least 8 code units and holds a lowercase letter, an uppercase
    letter and a digit.  The converse holds for a password without line
    break that has 8 to 100 characters.  The three classes are looked for
    in the first line only: what follows the first line break does not
    count, so a password whose digit comes after a line break is refused.
    A request whose password is refused fails [validateUser] whatever its
    address. *)
Theorem password_rule p :
  (password_chain (Text p) = [] ->
   8 <= length p
   /\ existsb isLower p = true /\ existsb isUpper p = true
   /\ existsb isDigit p = true)
  /\ (forallb (fun c => negb (isLineTerminator c)) p = true ->
      8 <= Validation.len p <= 100 ->
      existsb isLower p = true -> existsb isUpper p = true ->
      existsb isDigit p = true ->
      password_chain (Text p) = [])
  /\ (forall c rest,
        isLineTerminator c = true ->
        matches_password (p ++ c :: rest) = matches_password p)
  /\ (forall isEmail normalizeEmail e,
        password_chain (Text p) <> [] ->
        snd (validateUser isEmail normalizeEmail
               {| f_email := e; f_password := Text p |}) <> []).
Proof.
  repeat apply conj.
  - intros H. apply password_chain_nil in H. destruct H as [L M].
    unfold Validation.isLength in L. apply andb_true_iff in L.
    destruct L as [L _]. apply Nat.leb_le in L.
    unfold matches_password, ahead in M.
    apply andb_true_iff in M. destruct M as [M D].
    apply andb_true_iff in M. destruct M as [Lo Up].
    repeat apply conj; try now apply existsb_first_line.
    unfold Validation.len in L. lia.
  - intros NB [L1 L2] Lo Up D. apply password_chain_nil. split.
    + unfold Validation.isLength. apply andb_true_iff.
      split; apply Nat.leb_le; assumption.
    + unfold matches_password, ahead, first_line.
      rewrite (takeWhile_all _ _ NB), Lo, Up, D. reflexivity.
  - intros c rest E. unfold matches_password, ahead.
    now rewrite (first_line_cut p c rest E).
  - intros isEmail normalizeEmail e H. unfold validateUser.
    destruct (email_steps isEmail normalizeEmail e) as [e' errs]. simpl.
    intros N. apply app_eq_nil in N. tauto.
Qed.

Lemma password_rule_witness :
  password_chain (Text (lit "TestPass123!")) = []
  /\ matches_password (lit "Abcdefgh" ++ 10%N :: lit "1") = false.
Proof.
  destruct (password_rule (lit "TestPass123!")) as (_ & H & _).
  destruct (password_rule (lit "Abcdefgh")) as (_ & _ & C & _).
  split.
  - apply H; try reflexivity. vm_compute. lia.
  - exact (eq_trans (C 10%N (lit "1") eq_refl) eq_refl).
Defined.

End PasswordRule.


(* ================================================================== *)
(** ** [PUT /api/users/:id] *)
(* ================================================================== *)

Section AccountUpdate.

Import Store Accounts Notions.

Variable isEmail : str -> bool.
Variable normalizeEmail : str -> option str.

Lemma text_eqb_eq a b : text_eqb a b = true <-> a = b.
Proof.
  revert b. induction a as [|x a IH]; intros [|y b]; simpl;
    try (split; [discriminate | congruence]); [tauto |].
  rewrite andb_true_iff, N.eqb_eq, IH. split; [intros [-> ->] | intros [= -> ->]]; auto.
Qed.

Lemma text_eqb_refl a : text_eqb a a = true.
Proof. now apply text_eqb_eq. Qed.

Lemma isIn_In s : isIn role_names s = true <-> In s role_names.
Proof.
  unfold isIn. rewrite existsb_exists. split.
  - intros (x & Hx & E). apply text_eqb_eq in E. now subst.
  - intros H. exists s. split; [assumption | apply text_eqb_refl].
Qed.

Lemma role_of_name_In s : role_of_name s <> None <-> In s role_names.
Proof.
  unfold role_of_name, role_names. split.
  - destruct (text_eqb s (lit "admin")) eqn:A;
      [apply text_eqb_eq in A; subst; simpl; tauto |].
    destruct (text_eqb s (lit "user")) eqn:U;
      [apply text_eqb_eq in U; subst; simpl; tauto |].
    destruct (text_eqb s (lit "auditor")) eqn:T;
      [apply text_eqb_eq in T; subst; simpl; tauto |].
    congruence.
  - intros [<-|[<-|[<-|[]]]]; discriminate.
Qed.

Lemma isIn_role_names s : isIn role_names s = true <-> role_of_name s <> None.
Proof. now rewrite isIn_In, role_of_name_In. Qed.

(** A role name reaches its column as it is. *)
Lemma stored_role_name s x :
  role_of_name s = Some x -> stored_role (Some s) = Some (Some x).
Proof.
  intros R.
  assert (H : In s role_names) by (apply role_of_name_In; congruence).
  destruct H as [<-|[<-|[<-|[]]]]; vm_compute in R; injection R as <-; reflexivity.
Qed.

Lemma stored_email_fits t : chars t <= 255 -> stored_email (Some t) = Some (Some t).
Proof.
  intros L. unfold stored_email, varchar. apply Nat.leb_le in L. now rewrite L.
Qed.

(** What the statement does, when it does not fail. *)
Lemma update_user_cases e r i s :
  (exists pe, update_user e r i s = (Failed pe, noted s (UpdateUser e r i)))
  \/ exists e' r',
       stored_email e = Some e' /\ stored_role r = Some r'
       /\ int4 i = true
       /\ (forall t, e' = Some t ->
             filter (fun u => (u_id u =? i)%Z) (users (tables s)) <> [] ->
             length (filter (fun u => (u_id u =? i)%Z) (users (tables s))) = 1
             /\ forall u, In u (users (tables s)) ->
                          (u_id u =? i)%Z = false -> email u <> t)
       /\ update_user e r i s
          = (Done (map user_row
                     (map (rewrite_user e' r')
                          (filter (fun u => (u_id u =? i)%Z) (users (tables s))))),
             {| tables :=
                  {| users := map (fun u => if (u_id u =? i)%Z
                                            then rewrite_user e' r' u else u)
                                  (users (tables s));
                     vault_items := vault_items (tables s);
                     vault_items_id_seq := vault_items_id_seq (tables s) |};
                users_id_seq := users_id_seq s;
                sent := sent s ++ [UpdateUser e r i] |}).
Proof.
  unfold update_user, query, noted, with_tables.
  destruct (int4 i); cbn [negb]; [|left; eexists; reflexivity].
  destruct (stored_email e) as [e'|]; [|left; eexists; reflexivity].
  destruct (stored_role r) as [r'|]; [|left; eexists; reflexivity].
  destruct e' as [t|].
  - destruct (filter (fun u => (u_id u =? i)%Z) (users (tables s)))
      as [|u0 rest] eqn:F.
    + right. exists (Some t), r'. repeat apply conj; auto.
      intros t' _ N. now contradiction N.
    + destruct (negb (Nat.eqb (length rest) 0)
                || existsb (fun u => negb (u_id u =? i)%Z && text_eqb (email u) t)
                     (users (tables s))) eqn:C;
        [left; eexists; reflexivity |].
      right. exists (Some t), r'. repeat apply conj; auto.
      intros t' [= <-] _. apply orb_false_iff in C as [C1 C2].
      apply negb_false_iff, Nat.eqb_eq in C1.
      split.
      * simpl. now rewrite C1.
      * intros u Hu Hn E.
        assert (X : existsb (fun u => negb (u_id u =? i)%Z && text_eqb (email u) t)
                      (users (tables s)) = true).
        { apply existsb_exists. exists u. split; [assumption |].
          rewrite Hn. simpl. now apply text_eqb_eq. }
        congruence.
  - right. exists None, r'. repeat apply conj; auto. intros t' [=].
Qed.

(** The route behind the role check and a passing validation. *)
Lemma users_put_id_runs P p b b' i e r s :
  Routes.prole P = admin ->
  validateUserUpdate isEmail normalizeEmail b = (b', []) ->
  parseInt p = Some i ->
  e = (if truthy (up_email b') then Some (fieldString (up_email b')) else None) ->
  r = (if truthy (up_role b') then Some (fieldString (up_role b')) else None) ->
  e <> None \/ r <> None ->
  users_put_id isEmail normalizeEmail P p b s
  = (match fst (update_user e r i s) with
     | Done [] => reply 404 (BError "User not found")
     | Done rows => reply 200 (BUser (hd_error rows))
     | Failed unique_violation => reply 400 (BError "Email already exists")
     | Failed other_error => internal_error
     end, snd (update_user e r i s)).
Proof.
  intros A V Pp He Hr N.
  unfold users_put_id, admin_only. rewrite A. cbn [role_eqb].
  unfold checked. rewrite V, Pp. rewrite <- He, <- Hr.
  destruct e as [t|]; [| destruct r as [t|]; [| destruct N; congruence]].
  - destruct (update_user (Some t) r i s) as [[[|a l]|[|]] s']; reflexivity.
  - destruct (update_user None (Some t) i s) as [[[|a l]|[|]] s']; reflexivity.
Qed.

Lemma role_eqb_admin_eq r : role_eqb r admin = true -> r = admin.
Proof. destruct r; simpl; congruence. Qed.

(** The fields of the request as the route reads them, after validation:
    [if (email)], [if (role)]. *)
Lemma users_put_id_cases P p b s :
  let res := users_put_id isEmail normalizeEmail P p b s in
  snd res = s
  \/ exists b' i e r,
       validateUserUpdate isEmail normalizeEmail b = (b', [])
       /\ parseInt p = Some i
       /\ e = (if truthy (up_email b') then Some (fieldString (up_email b')) else None)
       /\ r = (if truthy (up_role b') then Some (fieldString (up_role b')) else None)
       /\ (e <> None \/ r <> None)
       /\ Routes.prole P = admin
       /\ snd res = snd (update_user e r i s)
       /\ fst res
          = match fst (update_user e r i s) with
            | Done [] => reply 404 (BError "User not found")
            | Done rows => reply 200 (BUser (hd_error rows))
            | Failed unique_violation => reply 400 (BError "Email already exists")
            | Failed other_error => internal_error
            end.
Proof.
  cbv zeta. unfold users_put_id, admin_only.
  destruct (role_eqb (Routes.prole P) admin) eqn:A; [|now left].
  apply role_eqb_admin_eq in A.
  unfold checked.
  destruct (validateUserUpdate isEmail normalizeEmail b) as [b' [|er errs]] eqn:V;
    [|now left].
  destruct (parseInt p) as [i|]; [|now left].
  remember (if truthy (up_email b') then Some (fieldString (up_email b')) else None) as e.
  remember (if truthy (up_role b') then Some (fieldString (up_role b')) else None) as r.
  destruct e as [t|]; [| destruct r as [t|]; [| now left]].
  - right. exists b', i, (Some t), r. repeat apply conj; auto;
      try (left; discriminate);
      destruct (update_user (Some t) r i s) as [[[|a l]|[|]] s']; reflexivity.
  - right. exists b', i, None, (Some t). repeat apply conj; auto;
      try (right; discriminate);
      destruct (update_user None (Some t) i s) as [[[|a l]|[|]] s']; reflexivity.
Qed.

(** What a body that passes [validateUserUpdate] holds. *)
Lemma validateUserUpdate_passes b b' :
  validateUserUpdate isEmail normalizeEmail b = (b', []) ->
  up_role b' = up_role b
  /\ (up_role b = Undefined \/ isIn role_names (fieldString (up_role b)) = true)
  /\ (up_email b = Undefined /\ up_email b' = Undefined
      \/ up_email b <> Undefined
         /\ isEmail (fieldString (up_email b)) = true
         /\ Validation.isLength 0 (Some 255) (fieldString (up_email b')) = true
         /\ up_email b' = match normalizeEmail (fieldString (up_email b)) with
                          | Some t => Text t
                          | None => FalseValue
                          end).
Proof.
  unfold validateUserUpdate.
  destruct (email_update_chain isEmail normalizeEmail (up_email b)) as [e errs] eqn:E.
  intros [= <- H]. apply app_eq_nil in H as [H1 H2]. subst errs. cbn [up_role up_email].
  split; [reflexivity |]. split.
  - unfold role_chain in H2. destruct (up_role b) as [|t|]; [now left | |];
      right; now apply check_nil in H2.
  - unfold email_update_chain in E.
    destruct (up_email b) as [|t|] eqn:U; [left; now inversion E | |];
      right; unfold email_steps in E; inversion E as [[E1 E2]];
      apply app_eq_nil in E2 as [E2 E3];
      apply check_nil in E2; apply check_nil in E3;
      (repeat apply conj; [discriminate | exact E2 | exact E3 | reflexivity]).
Qed.

Lemma truthy_text v t :
  (if truthy v then Some (fieldString v) else None) = Some t ->
  v = Text t /\ t <> [].
Proof.
  destruct v as [|[|c s]|]; simpl; try discriminate.
  intros [= <-]. split; [reflexivity | discriminate].
Qed.

(** What the statement can do to the tables. *)
Lemma update_user_frame e r i s :
  exists f,
    users (tables (snd (update_user e r i s))) = map f (users (tables s))
    /\ (forall u, same_account (f u) u)
    /\ (forall u, u_id u <> i -> f u = u)
    /\ vault_items (tables (snd (update_user e r i s))) = vault_items (tables s)
    /\ vault_items_id_seq (tables (snd (update_user e r i s)))
       = vault_items_id_seq (tables s)
    /\ users_id_seq (snd (update_user e r i s)) = users_id_seq s.
Proof.
  destruct (update_user_cases e r i s)
    as [(pe & ->) | (e' & r' & _ & _ & _ & _ & ->)].
  - exists (fun u => u). cbn. rewrite map_id. repeat apply conj; auto.
    intros u; repeat split.
  - exists (fun u => if (u_id u =? i)%Z then rewrite_user e' r' u else u).
    cbn. repeat apply conj; auto.
    + intros u. destruct (u_id u =? i)%Z; repeat split.
    + intros u N. destruct (u_id u =? i)%Z eqn:E; [|reflexivity].
      apply Z.eqb_eq in E. contradiction.
Qed.

Lemma users_put_id_frame P p b s :
  exists f,
    users (tables (snd (users_put_id isEmail normalizeEmail P p b s)))
    = map f (users (tables s))
    /\ (forall u, same_account (f u) u)
    /\ (forall u, parseInt p <> Some (u_id u) -> f u = u)
    /\ vault_items (tables (snd (users_put_id isEmail normalizeEmail P p b s)))
       = vault_items (tables s)
    /\ vault_items_id_seq (tables (snd (users_put_id isEmail normalizeEmail P p b s)))
       = vault_items_id_seq (tables s)
    /\ users_id_seq (snd (users_put_id isEmail normalizeEmail P p b s))
       = users_id_seq s.
Proof.
  destruct (users_put_id_cases P p b s)
    as [-> | (b' & i & e & r & _ & Pi & _ & _ & _ & _ & -> & _)].
  - exists (fun u => u). rewrite map_id. repeat apply conj; auto.
    intros u; repeat split.
  - destruct (update_user_frame e r i s) as (f & F1 & F2 & F3 & F4 & F5 & F6).
    exists f. repeat apply conj; auto.
    intros u N. apply F3. intros E. apply N. now rewrite Pi, E.
Qed.

(** X17: whatever the request, [PUT /api/users/:id] rewrites at most the
    address and the role of the accounts whose id is the number read from
    the path; ids, password digests and creation times, the other
    accounts, the number and the order of the rows, the items and both
    sequences stay as they were. *)
Theorem account_update_touches_address_and_role_only P p b s :
  let s' := snd (users_put_id isEmail normalizeEmail P p b s) in
  exists f,
    users (tables s') = map f (users (tables s))
    /\ (forall u, same_account (f u) u)
    /\ (forall u, parseInt p <> Some (u_id u) -> f u = u)
    /\ vault_items (tables s') = vault_items (tables s)
    /\ vault_items_id_seq (tables s') = vault_items_id_seq (tables s)
    /\ users_id_seq s' = users_id_seq s.
Proof. cbv zeta. apply users_put_id_frame. Qed.

(** The statement keeps the constraints of both tables. *)
Lemma update_user_keeps_wf e r i s :
  Store.wf (tables s) -> Store.wf (tables (snd (update_user e r i s))).
Proof.
  intros [W1 W2 W3 W4 W5 W6].
  destruct (update_user_frame e r i s) as (f & U & Same & _ & V & Q & _).
  assert (Ids : map u_id (map f (users (tables s))) = map u_id (users (tables s))).
  { rewrite map_map. apply map_ext. intros u. apply (Same u). }
  constructor; rewrite ?V, ?Q, ?U; auto.
  - now rewrite Ids.
  - intros u Hu. apply in_map_iff in Hu as (v & <- & Hv).
    destruct (Same v) as [-> _]. now apply W5.
  - intros it Hit. specialize (W6 it Hit).
    apply existsb_exists in W6 as (u & Hu & E). apply existsb_exists.
    exists (f u). split; [now apply in_map |].
    destruct (Same u) as [-> _]. exact E.
Qed.

Lemma users_put_id_keeps_wf P p b s :
  Store.wf (tables s) ->
  Store.wf (tables (snd (users_put_id isEmail normalizeEmail P p b s))).
Proof.
  intros W.
  destruct (users_put_id_cases P p b s)
    as [-> | (b' & i & e & r & _ & _ & _ & _ & _ & _ & -> & _)]; [assumption |].
  now apply update_user_keeps_wf.
Qed.

Lemma filter_user_key i l u :
  NoDup (map u_id l) -> In u l -> u_id u = i ->
  filter (fun v => (u_id v =? i)%Z) l = [u].
Proof.
  induction l as [|a l IH]; simpl; [tauto |].
  intros N HI E. inversion N as [|? ? Hnot N']; subst.
  destruct HI as [->|HI].
  - rewrite Z.eqb_refl. f_equal. apply filter_none. intros v Hv.
    apply Z.eqb_neq. intros E. apply Hnot. rewrite <- E. now apply in_map.
  - destruct (u_id a =? u_id u)%Z eqn:Fa.
    + exfalso. apply Hnot. apply Z.eqb_eq in Fa. rewrite Fa. now apply in_map.
    + now apply IH.
Qed.

Lemma filter_nil_none {A} (f : A -> bool) l :
  filter f l = [] -> forall x, In x l -> f x = false.
Proof.
  induction l as [|a l IH]; simpl; [tauto |].
  destruct (f a) eqn:F; [discriminate |].
  intros H x [<-|Hx]; auto.
Qed.

Lemma map_same_on {A} (f : A -> A) l :
  (forall x, In x l -> f x = x) -> map f l = l.
Proof.
  intros H. rewrite <- (map_id l) at 2. now apply map_ext_in.
Qed.

(** Rewriting the address of one account to a text no other account has
    keeps the addresses distinct. *)
Lemma rewritten_addresses_distinct i t r' l :
  NoDup (map email l) ->
  length (filter (fun u => (u_id u =? i)%Z) l) <= 1 ->
  (forall u, In u l -> (u_id u =? i)%Z = false -> email u <> t) ->
  NoDup (map email (map (fun u => if (u_id u =? i)%Z
                                  then rewrite_user (Some t) r' u else u) l)).
Proof.
  induction l as [|a l IH]; simpl; [constructor |].
  intros N L K. inversion N as [|? ? Hnot N']; subst.
  destruct (u_id a =? i)%Z eqn:Ha.
  - simpl in L.
    assert (F : filter (fun u => (u_id u =? i)%Z) l = []).
    { destruct (filter (fun u => (u_id u =? i)%Z) l); [reflexivity | simpl in L; lia]. }
    rewrite map_same_on.
    + constructor; [|assumption]. cbn [rewrite_user email].
      intros Hin. apply in_map_iff in Hin as (u & Eu & Hu).
      apply (K u (or_intror Hu)); [|assumption].
      exact (filter_nil_none _ _ F u Hu).
    + intros u Hu. now rewrite (filter_nil_none _ _ F u Hu).
  - constructor.
    + intros Hin. apply in_map_iff in Hin as (v & Ev & Hv).
      apply in_map_iff in Hv as (u & <- & Hu).
      destruct (u_id u =? i)%Z eqn:Hu'.
      * cbn [rewrite_user email] in Ev.
        apply (K a (or_introl eq_refl) Ha). now symmetry.
      * apply Hnot. rewrite <- Ev. now apply in_map.
    + apply IH; auto.
Qed.

Lemma update_keeps_accounts_ok e r i s :
  accounts_ok s -> accounts_ok (snd (update_user e r i s)).
Proof.
  intros [O1 O2 O3 O4].
  destruct (update_user_cases e r i s)
    as [(pe & ->) | (e' & r' & _ & _ & _ & K & ->)];
    [now constructor |].
  cbn [snd]. constructor; cbn [tables users users_id_seq]; auto.
  - destruct e' as [t|].
    + destruct (filter (fun u => (u_id u =? i)%Z) (users (tables s))) eqn:F.
      * rewrite map_same_on; [assumption |].
        intros u Hu. now rewrite (filter_nil_none _ _ F u Hu).
      * rewrite <- F in K.
        destruct (K t eq_refl) as (K1 & K2); [rewrite F; discriminate |].
        apply rewritten_addresses_distinct; auto. lia.
    + rewrite map_map. erewrite map_ext; [exact O1 |].
      intros u. now destruct (u_id u =? i)%Z.
  - rewrite map_map. erewrite map_ext; [exact O2 |].
    intros u. now destruct (u_id u =? i)%Z.
  - intros u Hu. apply in_map_iff in Hu as (v & <- & Hv).
    specialize (O3 v Hv). now destruct (u_id v =? i)%Z.
Qed.

Lemma account_update_keeps_accounts_ok P p b s :
  accounts_ok s -> accounts_ok (snd (users_put_id isEmail normalizeEmail P p b s)).
Proof.
  intros O.
  destruct (users_put_id_cases P p b s)
    as [-> | (b' & i & e & r & _ & _ & _ & _ & _ & _ & -> & _)]; [assumption |].
  now apply update_keeps_accounts_ok.
Qed.

(** X19: an admin who sends only a role, spelled as one of the three
    names, for an existing account gets 200 with the rewritten row, and
    that account alone changes, in its role alone.  The account may be the
    admin's own: unlike [DELETE], the route does not compare the id with
    [req.user.id]. *)
Theorem admin_rewrites_a_role P p name x u s :
  accounts_ok s ->
  Routes.prole P = admin ->
  In u (users (tables s)) ->
  parseInt p = Some (u_id u) ->
  role_of_name name = Some x ->
  let res := users_put_id isEmail normalizeEmail P p
               {| up_email := Undefined; up_role := Text name |} s in
  fst res = reply 200 (BUser (Some (user_row (rewrite_user None (Some x) u))))
  /\ users (tables (snd res))
     = map (fun v => if (u_id v =? u_id u)%Z
                     then rewrite_user None (Some x) v else v)
           (users (tables s))
  /\ In (rewrite_user None (Some x) u) (users (tables (snd res)))
  /\ forall v, In v (users (tables s)) -> v <> u -> In v (users (tables (snd res))).
Proof.
  intros O A Hu Pp R. cbv zeta.
  assert (I : isIn role_names name = true) by (apply isIn_role_names; congruence).
  assert (V : validateUserUpdate isEmail normalizeEmail
                {| up_email := Undefined; up_role := Text name |}
              = ({| up_email := Undefined; up_role := Text name |}, [])).
  { unfold validateUserUpdate. cbn [up_email up_role email_update_chain app].
    unfold role_chain. cbn [fieldString]. now rewrite I. }
  assert (T : (if truthy (Text name) then Some (fieldString (Text name)) else None)
              = Some name).
  { destruct name; [discriminate | reflexivity]. }
  rewrite (users_put_id_runs P p _ _ (u_id u) None (Some name) s A V Pp);
    [| reflexivity | now rewrite <- T | right; discriminate].
  destruct (update_user_cases None (Some name) (u_id u) s)
    as [(pe & E) | (e' & r' & Se & Sr & _ & _ & E)].
  - exfalso. revert E. unfold update_user, query, noted.
    destruct O as [_ _ O3 O4]. specialize (O3 u Hu).
    assert (I4 : int4 (u_id u) = true) by (unfold int4; lia).
    rewrite I4, (stored_role_name _ _ R). cbn [negb stored_email].
    destruct (filter (fun v => (u_id v =? u_id u)%Z) (users (tables s)));
      discriminate.
  - rewrite (stored_role_name _ _ R) in Sr. injection Sr as <-.
    cbn [stored_email] in Se. injection Se as <-. rewrite E.
    rewrite (filter_user_key (u_id u) _ u (ok_ids s O) Hu eq_refl).
    cbn [map hd_error fst snd tables users].
    repeat apply conj; auto.
    + apply in_map_iff. exists u. now rewrite Z.eqb_refl.
    + intros v Hv Nv. apply in_map_iff. exists v. split; [|assumption].
      destruct (u_id v =? u_id u)%Z eqn:Ev; [|reflexivity].
      exfalso. apply Nv. apply Z.eqb_eq in Ev.
      assert (F := filter_user_key (u_id u) _ u (ok_ids s O) Hu eq_refl).
      assert (Hin : In v (filter (fun w => (u_id w =? u_id u)%Z) (users (tables s)))).
      { apply filter_In. split; [assumption | now apply Z.eqb_eq]. }
      rewrite F in Hin. destruct Hin as [<-|[]]. reflexivity.
Qed.

(** X20: an address that another account already has is refused: when
    the normalised address of the request is the address of an account
    other than the one to rewrite, the answer is 400 with
    [Email already exists] and no table changes. *)
Theorem taken_address_is_refused P p raw t role_field u v s :
  Routes.prole P = admin ->
  parseInt p = Some (u_id u) ->
  Store.int4 (u_id u) = true ->
  isEmail raw = true ->
  normalizeEmail raw = Some t ->
  t <> [] ->
  chars t <= 255 ->
  Validation.isLength 0 (Some 255) t = true ->
  role_chain role_field = [] ->
  In u (users (tables s)) ->
  In v (users (tables s)) ->
  u_id v <> u_id u ->
  email v = t ->
  let res := users_put_id isEmail normalizeEmail P p
               {| up_email := Text raw; up_role := role_field |} s in
  fst res = reply 400 (BError "Email already exists")
  /\ tables (snd res) = tables s
  /\ users_id_seq (snd res) = users_id_seq s.
Proof.
  intros A Pp I4 E1 E2 Nt Lt L2 Rc Hu Hv Nuv Ev. cbv zeta.
  assert (V : validateUserUpdate isEmail normalizeEmail
                {| up_email := Text raw; up_role := role_field |}
              = ({| up_email := Text t; up_role := role_field |}, [])).
  { unfold validateUserUpdate. cbn [up_email up_role email_update_chain].
    unfold email_steps. cbn [fieldString]. rewrite E1, E2. cbn [fieldString].
    rewrite L2, Rc. reflexivity. }
  assert (T : (if truthy (Text t) then Some (fieldString (Text t)) else None) = Some t).
  { destruct t; [congruence | reflexivity]. }
  set (r := if truthy role_field then Some (fieldString role_field) else None).
  rewrite (users_put_id_runs P p _ _ (u_id u) (Some t) r s A V Pp);
    [| now rewrite <- T | reflexivity | left; discriminate].
  assert (U : update_user (Some t) r (u_id u) s
              = (Failed unique_violation, noted s (UpdateUser (Some t) r (u_id u)))).
  { unfold update_user, query, noted. rewrite I4. cbn [negb].
    rewrite (stored_email_fits _ Lt).
    assert (D : exists r', stored_role r = Some r').
    { subst r. destruct role_field as [|[|c' nm]|]; cbn [truthy];
        try (exists None; reflexivity).
      cbn [fieldString]. unfold role_chain in Rc. cbn [fieldString] in Rc.
      apply check_nil, isIn_role_names in Rc.
      destruct (role_of_name (c' :: nm)) as [x|] eqn:R; [|congruence].
      exists (Some x). now apply stored_role_name. }
    destruct D as [r' ->].
    assert (Hin : In u (filter (fun w => (u_id w =? u_id u)%Z) (users (tables s)))).
    { apply filter_In. split; [assumption | apply Z.eqb_refl]. }
    destruct (filter (fun w => (u_id w =? u_id u)%Z) (users (tables s)))
      as [|u0 rest]; [destruct Hin |].
    assert (C : existsb (fun w => negb (u_id w =? u_id u)%Z && text_eqb (email w) t)
                  (users (tables s)) = true).
    { apply existsb_exists. exists v. split; [assumption |].
      apply Z.eqb_neq in Nuv. rewrite Nuv. cbn [negb andb].
      now apply text_eqb_eq. }
    rewrite C, orb_true_r. reflexivity. }
  rewrite U. repeat apply conj; reflexivity.
Qed.

End AccountUpdate.

(* ================================================================== *)
(** ** [PUT /api/users/:id] on any body *)
(* ================================================================== *)

Section AccountUpdateAny.

Import Store Accounts Notions.

Variable isEmail : str -> bool.
Variable normalizeEmail : str -> option str.

Lemma flat_map_one {A B} (g : A -> list B) x : flat_map g [x] = g x.
Proof. cbn. apply app_nil_r. Qed.

(** On a body of strings the route on any body is the route on
    strings. *)
Lemma users_put_id_any_on_strings P p b s :
  users_put_id_any isEmail normalizeEmail P p (any_update b) s
  = users_put_id isEmail normalizeEmail P p b s.
Proof.
  unfold users_put_id_any, users_put_id, admin_only.
  destruct (role_eqb (Routes.prole P) admin); [|reflexivity].
  unfold checked, validateUserUpdate_any, validateUserUpdate, any_update.
  cbn [any_email any_role].
  assert (R : role_chain_any (any_field (up_role b)) = role_chain (up_role b)).
  { unfold role_chain_any, role_chain.
    destruct (up_role b) as [|t|]; cbn [any_field fieldString];
      [reflexivity | apply check_each_text | apply check_each_text]. }
  rewrite R.
  assert (E : exists a errs,
             email_chain_any isEmail normalizeEmail (any_field (up_email b))
             = (a, errs)
             /\ snd (email_update_chain isEmail normalizeEmail (up_email b)) = errs
             /\ email_param a
                = (if truthy (fst (email_update_chain isEmail normalizeEmail (up_email b)))
                   then Some (fieldString
                                (fst (email_update_chain isEmail normalizeEmail
                                        (up_email b))))
                   else None)).
  { destruct (up_email b) as [|raw|];
      cbn [any_field email_chain_any email_update_chain];
      [do 2 eexists; repeat split | |];
      unfold email_steps; rewrite check_each_text;
      cbn [fieldString Validation.toText].
    - destruct (normalizeEmail raw) as [[|c t]|]; cbv beta iota zeta;
        rewrite flat_map_one; do 2 eexists; repeat split.
    - destruct (normalizeEmail (lit "false")) as [[|c t]|]; cbv beta iota zeta;
        rewrite flat_map_one; do 2 eexists; repeat split. }
  destruct E as (a & errs & -> & E2 & E3).
  destruct (email_update_chain isEmail normalizeEmail (up_email b)) as [e errs'].
  cbn [fst snd] in E2, E3. subst errs'.
  destruct (up_role b) as [|name|] eqn:Ur.
  - destruct (errs ++ role_chain Undefined) as [|er l]; [|reflexivity].
    cbn [up_email up_role]. rewrite E3.
    destruct (parseInt p) as [i|]; [|reflexivity].
    destruct (if truthy e then Some (fieldString e) else None); reflexivity.
  - destruct (errs ++ role_chain (Text name)) as [|er l]; [|reflexivity].
    cbn [up_email up_role]. rewrite E3.
    destruct (parseInt p) as [i|]; [|reflexivity].
    destruct (if truthy e then Some (fieldString e) else None);
      destruct name as [|c t]; reflexivity.
  - assert (N : exists er l, errs ++ role_chain FalseValue = er :: l).
    { destruct errs as [|x errs]; cbn; eauto. }
    destruct N as (er & l & ->). reflexivity.
Qed.


Lemma users_put_id_any_cases P p b s :
  let res := users_put_id_any isEmail normalizeEmail P p b s in
  snd res = s
  \/ exists a i e r,
       validateUserUpdate_any isEmail normalizeEmail b = ((a, any_role b), [])
       /\ parseInt p = Some i
       /\ e = email_param a
       /\ r = role_param (any_role b)
       /\ (e <> None \/ r <> None)
       /\ Routes.prole P = admin
       /\ snd res = snd (update_user e r i s)
       /\ fst res
          = match fst (update_user e r i s) with
            | Done [] => reply 404 (BError "User not found")
            | Done rows => reply 200 (BUser (hd_error rows))
            | Failed unique_violation => reply 400 (BError "Email already exists")
            | Failed other_error => internal_error
            end.
Proof.
  cbv zeta. unfold users_put_id_any, admin_only.
  destruct (role_eqb (Routes.prole P) admin) eqn:A; [|now left].
  apply role_eqb_admin_eq in A.
  assert (V : exists a errs,
             validateUserUpdate_any isEmail normalizeEmail b
             = ((a, any_role b), errs)).
  { unfold validateUserUpdate_any.
    destruct (email_chain_any isEmail normalizeEmail (any_email b)). eauto. }
  destruct V as (a & errs & V). rewrite V.
  destruct errs as [|er errs]; [|now left].
  destruct (parseInt p) as [i|]; [|now left].
  destruct (email_param a) as [t|] eqn:E;
    [| destruct (role_param (any_role b)) as [t|] eqn:R; [| now left]].
  - right. exists a, i, (Some t), (role_param (any_role b)).
    repeat apply conj; auto; try (left; discriminate);
      destruct (update_user (Some t) (role_param (any_role b)) i s)
        as [[[|x l]|[|]] s']; reflexivity.
  - right. exists a, i, None, (Some t). rewrite <- R.
    repeat apply conj; auto; try (right; rewrite R; discriminate); rewrite R;
      destruct (update_user None (Some t) i s) as [[[|x l]|[|]] s']; reflexivity.
Qed.

Lemma update_user_sent e r i s :
  sent (snd (update_user e r i s)) = sent s ++ [UpdateUser e r i].
Proof.
  destruct (update_user_cases e r i s)
    as [(pe & ->) | (e' & r' & _ & _ & _ & _ & ->)]; reflexivity.
Qed.

(** X18: a statement leaves [PUT /api/users/:id] only for an admin, with
    the number read from the path and at least one field.  The role it
    carries is the role of the request as it was sent: a string is one of
    the three names; of an array every element reads as one of the names,
    and the statement carries the array itself.  Every address of the
    request passed [isEmail], and its normalised form has at most 255
    characters; a string address is carried normalised, an array as the
    array of its normalised elements. *)
Theorem account_update_sends_checked_fields_only P p b s :
  let s' := snd (users_put_id_any isEmail normalizeEmail P p b s) in
  sent s' = sent s
  \/ exists i e r,
       sent s' = sent s ++ [UpdateUser e r i]
       /\ Routes.prole P = admin
       /\ parseInt p = Some i
       /\ (e <> None \/ r <> None)
       /\ r = role_param (any_role b)
       /\ (forall v, any_role b = Some v ->
             Forall (fun x => In (Validation.toText x) role_names)
                    (Validation.values_of v))
       /\ (forall name, any_role b = Some (VText name) ->
             In name role_names /\ r = Some name)
       /\ (forall x, any_email b = Some x ->
             Forall (fun y =>
                       isEmail (Validation.toText y) = true
                       /\ Validation.isLength 0 (Some 255)
                            (shown (normalizeEmail (Validation.toText y))) = true)
                    (Validation.values_of x))
       /\ (forall raw, any_email b = Some (VText raw) ->
             e = match normalizeEmail raw with
                 | Some (c :: t) => Some (c :: t)
                 | _ => None
                 end)
       /\ (forall l, any_email b = Some (VList l) ->
             e = Some (123%N
                       :: join [44%N]
                            (map (fun y => escapeElement
                                             (shown (normalizeEmail
                                                       (Validation.toText y)))) l)
                       ++ [125%N])).
Proof.
  cbv zeta.
  destruct (users_put_id_any_cases P p b s)
    as [-> | (a & i & e & r & V & Pi & He & Hr & N & A & -> & _)]; [now left |].
  right. exists i, e, r. rewrite update_user_sent.
  unfold validateUserUpdate_any in V.
  destruct (email_chain_any isEmail normalizeEmail (any_email b)) as [a' errs] eqn:C.
  injection V as <- V. apply app_eq_nil in V as [V1 V2]. subst errs.
  assert (Roles : forall v, any_role b = Some v ->
                    Forall (fun x => In (Validation.toText x) role_names)
                           (Validation.values_of v)).
  { intros v Ev. rewrite Ev in V2. cbn [role_chain_any] in V2.
    apply check_each_nil in V2. eapply Forall_impl; [|exact V2].
    intros x Hx. now apply isIn_In. }
  repeat apply conj; auto.
  - intros name Ev. split.
    + specialize (Roles _ Ev). cbn in Roles. now inversion Roles.
    + rewrite Hr, Ev. specialize (Roles _ Ev). cbn in Roles.
      inversion Roles as [|? ? H _]; subst.
      destruct name as [|c t]; [destruct H as [H|[H|[H|[]]]]; discriminate H |].
      reflexivity.
  - intros x Ex. rewrite Ex in C. cbn [email_chain_any] in C.
    injection C as _ C. apply app_eq_nil in C as [C1 C2].
    apply check_each_nil in C1.
    destruct x as [raw|l]; cbn [Validation.values_of] in *.
    + inversion C1 as [|? ? H1 _]; subst. constructor; [|constructor].
      split; [assumption |].
      cbn [Validation.toText] in *.
      destruct (normalizeEmail raw); rewrite flat_map_one in C2;
        now apply check_nil in C2.
    + clear - C1 C2. induction l as [|y l IH]; [constructor |].
      inversion C1 as [|? ? H1 H2]; subst.
      cbn [map flat_map] in C2. apply app_eq_nil in C2 as [C2 C3].
      constructor; [split; [assumption | now apply check_nil in C2] | now apply IH].
  - intros raw Ex. rewrite Ex in C. cbn [email_chain_any Validation.toText] in C.
    injection C as <- _. rewrite He.
    destruct (normalizeEmail raw) as [[|c t]|]; reflexivity.
  - intros l Ex. rewrite Ex in C. cbn [email_chain_any] in C.
    injection C as <- _. rewrite He. cbn [email_param]. now rewrite map_map.
Qed.

Lemma role_of_text_array t : role_of_text (123%N :: t) = other_role (123%N :: t).
Proof. reflexivity. Qed.

Lemma arrayString_brace l :
  exists t, arrayString (VList l) = 123%N :: t /\ t <> [].
Proof.
  cbn [arrayString]. eexists. split; [reflexivity |].
  destruct (join [44%N] (map arrayString l)); discriminate.
Qed.

Lemma wire_brace t : t <> [] -> exists t', wire (123%N :: t) = 123%N :: t'.
Proof.
  destruct t as [|c t]; [congruence |]. intros _.
  change (wire (123%N :: c :: t))
    with (if Validation.isHighSurrogate 123%N && Validation.isLowSurrogate c
          then 123%N :: c :: wire t
          else (if isSurrogate 123%N then 65533%N else 123%N) :: wire (c :: t)).
  cbn. eauto.
Qed.

(** X27: a role sent as an array passes the chain when each element reads
    as one of the three names, and the account then gets the text of the
    array for a role, which is none of the three.  For an admin, an
    existing account and such an array whose text holds no U+0000 and has
    at most 50 characters, the answer is 200 and the role of the account
    is that text (the request [{"role": ["admin"]}] leaves the account
    with the role [{"admin"}] between braces and quotes). *)
Theorem array_role_is_stored_as_text P p l u s :
  accounts_ok s ->
  Routes.prole P = admin ->
  In u (users (tables s)) ->
  parseInt p = Some (u_id u) ->
  Forall (fun x => In (Validation.toText x) role_names) l ->
  sendable (arrayString (VList l)) = true ->
  chars (wire (arrayString (VList l))) <= 50 ->
  let res := users_put_id_any isEmail normalizeEmail P p
               {| any_email := None; any_role := Some (VList l) |} s in
  let stored := other_role (wire (arrayString (VList l))) in
  fst res = reply 200 (BUser (Some (user_row (rewrite_user None (Some stored) u))))
  /\ In (rewrite_user None (Some stored) u) (users (tables (snd res)))
  /\ role_eqb stored admin = false
  /\ role_eqb stored user = false
  /\ role_eqb stored auditor = false.
Proof.
  intros O A Hu Pp Hl Sn Lc. cbv zeta.
  split; [|split; [|repeat split]].
  - unfold users_put_id_any, admin_only. rewrite A. cbn [role_eqb].
    unfold validateUserUpdate_any. cbn [any_email any_role email_chain_any app].
    assert (V : role_chain_any (Some (VList l)) = []).
    { cbn [role_chain_any]. apply check_each_nil. cbn [Validation.values_of].
      eapply Forall_impl; [|exact Hl]. intros x Hx. now apply isIn_In. }
    rewrite V, Pp. cbn [email_param role_param].
    destruct (arrayString_brace l) as (t & Et & Nt).
    assert (Sr : stored_role (Some (arrayString (VList l)))
                 = Some (Some (other_role (wire (arrayString (VList l)))))).
    { unfold stored_role. rewrite Sn. unfold varchar.
      apply Nat.leb_le in Lc. rewrite Lc. cbn [option_map].
      rewrite Et. destruct (wire_brace t Nt) as (t' & ->). reflexivity. }
    destruct (update_user_cases None (Some (arrayString (VList l))) (u_id u) s)
      as [(pe & E) | (e' & r' & Se & Sr' & _ & _ & E)].
    + exfalso. revert E. unfold update_user, query, noted.
      destruct O as [_ _ O3 O4]. specialize (O3 u Hu).
      assert (I4 : int4 (u_id u) = true) by (unfold int4; lia).
      rewrite I4, Sr. cbn [negb stored_email].
      destruct (filter (fun v => (u_id v =? u_id u)%Z) (users (tables s)));
        discriminate.
    + rewrite Sr in Sr'. injection Sr' as <-.
      cbn [stored_email] in Se. injection Se as <-. rewrite E.
      rewrite (filter_user_key (u_id u) _ u (ok_ids s O) Hu eq_refl).
      reflexivity.
  - destruct (users_put_id_any_cases P p
                {| any_email := None; any_role := Some (VList l) |} s)
      as [Same | (a & i & e & r & V & Pi & He & Hr & N & _ & S & _)].
    + exfalso. revert Same.
      unfold users_put_id_any, admin_only. rewrite A. cbn [role_eqb].
      unfold validateUserUpdate_any. cbn [any_email any_role email_chain_any app].
      assert (V : role_chain_any (Some (VList l)) = []).
      { cbn [role_chain_any]. apply check_each_nil. cbn [Validation.values_of].
        eapply Forall_impl; [|exact Hl]. intros x Hx. now apply isIn_In. }
      rewrite V, Pp. cbn [email_param role_param]. intros Same.
      pose proof (update_user_sent None (Some (arrayString (VList l))) (u_id u) s) as X.
      destruct (update_user None (Some (arrayString (VList l))) (u_id u) s)
        as [[[|x0 l0]|[|]] s']; cbn [snd] in *; subst s';
        apply (f_equal (@length Statement)) in X; rewrite length_app in X;
        simpl in X; lia.
    + rewrite S. rewrite Pp in Pi. injection Pi as <-.
      unfold validateUserUpdate_any in V.
      cbn [any_email any_role email_chain_any] in V. injection V as <- _.
      cbn [email_param any_role role_param] in He, Hr. subst e r.
      destruct (arrayString_brace l) as (t & Et & Nt).
      assert (Sr : stored_role (Some (arrayString (VList l)))
                   = Some (Some (other_role (wire (arrayString (VList l)))))).
      { unfold stored_role. rewrite Sn. unfold varchar.
        apply Nat.leb_le in Lc. rewrite Lc. cbn [option_map].
        rewrite Et. destruct (wire_brace t Nt) as (t' & ->). reflexivity. }
      destruct (update_user_cases None (Some (arrayString (VList l))) (u_id u) s)
        as [(pe & E) | (e' & r' & Se & Sr' & _ & _ & E)].
      * exfalso. revert E. unfold update_user, query, noted.
        destruct O as [_ _ O3 O4]. specialize (O3 u Hu).
        assert (I4 : int4 (u_id u) = true) by (unfold int4; lia).
        rewrite I4, Sr. cbn [negb stored_email].
        destruct (filter (fun v => (u_id v =? u_id u)%Z) (users (tables s)));
          discriminate.
      * rewrite Sr in Sr'. injection Sr' as <-.
        cbn [stored_email] in Se. injection Se as <-. rewrite E.
        cbn [snd tables users]. apply in_map_iff. exists u.
        now rewrite Z.eqb_refl.
Qed.

End AccountUpdateAny.

Section AccountUpdateExamples.

Import Store Accounts Scenario.

Lemma s0_ok : accounts_ok s0.
Proof.
  constructor.
  - simpl. repeat constructor; simpl; intuition discriminate.
  - simpl. repeat constructor; simpl; intuition discriminate.
  - intros u H. simpl in H. intuition (subst; simpl; lia).
  - simpl. lia.
Qed.

(** The admin of the scenario turns its own account into a user's. *)
Lemma admin_rewrites_a_role_witness :
  fst (users_put_id (fun _ => true) (fun a => Some a) as_alice (lit "1")
         {| up_email := Undefined; up_role := Text (lit "user") |} s0)
  = reply 200 (BUser (Some (user_row (rewrite_user None (Some user) alice)))).
Proof.
  exact (proj1 (admin_rewrites_a_role (fun _ => true) (fun a => Some a)
                  as_alice (lit "1") (lit "user") user alice s0
                  s0_ok eq_refl (or_introl eq_refl) eq_refl eq_refl)).
Defined.

(** The third account of the scenario is refused the address of the
    second. *)
Lemma taken_address_is_refused_witness :
  fst (users_put_id (fun _ => true) (fun a => Some a) as_alice (lit "3")
         {| up_email := Text (lit "user@test.com"); up_role := Undefined |} s0)
  = reply 400 (BError "Email already exists").
Proof.
  refine (proj1 (taken_address_is_refused (fun _ => true) (fun a => Some a)
                   as_alice (lit "3") (lit "user@test.com") (lit "user@test.com")
                   Undefined carol bob s0
                   eq_refl eq_refl eq_refl eq_refl eq_refl _ _ eq_refl eq_refl
                   _ _ _ eq_refl)).
  - discriminate.
  - vm_compute. lia.
  - simpl. tauto.
  - simpl. tauto.
  - simpl. lia.
Defined.

(** The admin of the scenario sends the array of one name for the role
    of the second account, which then has the text of the array for a
    role. *)
Lemma array_role_is_stored_as_text_witness :
  fst (users_put_id_any (fun _ => true) (fun a => Some a) as_alice (lit "2")
         {| any_email := None; any_role := Some (VList [VText (lit "admin")]) |} s0)
  = reply 200
      (BUser (Some (user_row
                      (rewrite_user None
                         (Some (other_role (123 :: 34 :: lit "admin" ++ [34; 125])%N))
                         bob)))).
Proof.
  refine (proj1 (array_role_is_stored_as_text (fun _ => true) (fun a => Some a)
                   as_alice (lit "2") [VText (lit "admin")] bob s0
                   s0_ok eq_refl _ eq_refl _ eq_refl _)).
  - simpl. tauto.
  - repeat constructor.
  - vm_compute. lia.
Defined.

End AccountUpdateExamples.

(* ================================================================== *)
(** ** The lists of the admin: [GET /api/users] and [GET /api/vault/all] *)
(* ================================================================== *)

Section AdminLists.

Import Store Accounts Notions.

Lemma In_insert_user_desc x y l :
  In x (insert_user_desc y l) <-> x = y \/ In x l.
Proof.
  induction l as [|z l IH]; simpl; [intuition congruence |].
  destruct (u_created_at z <? u_created_at y)%Z; simpl; [intuition congruence |].
  rewrite IH. intuition congruence.
Qed.

Lemma insert_user_desc_perm x l : Permutation (insert_user_desc x l) (x :: l).
Proof.
  induction l as [|y l IH]; simpl; [reflexivity |].
  destruct (u_created_at y <? u_created_at x)%Z; [reflexivity |].
  rewrite IH. apply perm_swap.
Qed.

Lemma users_newest_first_perm l : Permutation (users_newest_first l) l.
Proof.
  induction l as [|x l IH]; simpl; [reflexivity |].
  rewrite insert_user_desc_perm. now constructor.
Qed.

Lemma insert_user_desc_sorted x l :
  StronglySorted newer_account_first l ->
  StronglySorted newer_account_first (insert_user_desc x l).
Proof.
  induction l as [|y l IH]; simpl; intros S.
  - repeat constructor.
  - apply StronglySorted_inv in S. destruct S as [S F].
    destruct (Z.ltb_spec (u_created_at y) (u_created_at x)) as [L|L].
    + constructor; [constructor; assumption |].
      constructor; [unfold newer_account_first; lia |].
      rewrite Forall_forall in *. intros z Hz. specialize (F z Hz).
      unfold newer_account_first in *. lia.
    + constructor; [now apply IH |].
      rewrite Forall_forall in *. intros z Hz. apply In_insert_user_desc in Hz.
      destruct Hz as [->|Hz]; [unfold newer_account_first; lia | now apply F].
Qed.

Lemma users_newest_first_sorted l :
  StronglySorted newer_account_first (users_newest_first l).
Proof.
  induction l as [|x l IH]; simpl; [constructor | now apply insert_user_desc_sorted].
Qed.

(** X21: for an admin, [GET /api/users] answers 200 with one row for each
    account, the newest first, without the password digest (a row has no
    such field); it sends one statement and changes no table. *)
Theorem accounts_are_listed_newest_first P s :
  Routes.prole P = admin ->
  exists l,
    users_get P s
    = (reply 200 (BUsers (map user_row l)), noted s SelectAllUsers)
    /\ Permutation l (users (tables s))
    /\ StronglySorted newer_account_first l.
Proof.
  intros A. exists (users_newest_first (users (tables s))).
  repeat apply conj.
  - unfold users_get, admin_only. now rewrite A.
  - apply users_newest_first_perm.
  - apply users_newest_first_sorted.
Qed.

(** The foreign key and the primary key of [users] give each item one
    row of the join. *)
Lemma join_owner_one us it :
  NoDup (map u_id us) ->
  existsb (fun u => (u_id u =? owner_id it)%Z) us = true ->
  exists u, In u us /\ u_id u = owner_id it
            /\ join_owner us it = [(item_row it, email u)].
Proof.
  intros N E. apply existsb_exists in E as (u & Hu & E). apply Z.eqb_eq in E.
  exists u. repeat apply conj; auto.
  unfold join_owner.
  rewrite (filter_ext _ (fun v => (u_id v =? owner_id it)%Z));
    [| intros v; apply Z.eqb_sym].
  now rewrite (filter_user_key (owner_id it) us u N Hu E).
Qed.

(** X22: for an admin, on tables that meet the constraints of the schema,
    [GET /api/vault/all] answers 200 with exactly one row for each item of
    the vault, whoever owns it, the newest first, each with the address of
    the item's owner; it changes no table. *)
Theorem all_items_are_listed_with_their_owner P s :
  Routes.prole P = admin ->
  Store.wf (tables s) ->
  exists l rows,
    vault_get_all P s
    = (reply 200 (BItemsWithOwner rows), noted s SelectAllItemsWithOwner)
    /\ Permutation l (vault_items (tables s))
    /\ StronglySorted newer_first l
    /\ Forall2 (fun it row =>
                  exists u, In u (users (tables s))
                            /\ u_id u = owner_id it
                            /\ row = (item_row it, email u))
               l rows.
Proof.
  intros A W.
  exists (order_by_created_desc (vault_items (tables s))).
  exists (flat_map (join_owner (users (tables s)))
                   (order_by_created_desc (vault_items (tables s)))).
  repeat apply conj.
  - unfold vault_get_all, admin_only. now rewrite A.
  - apply order_perm.
  - apply order_sorted.
  - assert (K : forall it, In it (order_by_created_desc (vault_items (tables s))) ->
                           In it (vault_items (tables s)))
      by (intros it; apply In_order).
    induction (order_by_created_desc (vault_items (tables s))) as [|it l IH];
      simpl; [constructor |].
    destruct (join_owner_one (users (tables s)) it (wf_user_ids _ W)
                (wf_owner _ W it (K it (or_introl eq_refl))))
      as (u & Hu & Eu & ->).
    simpl. constructor; [eauto |]. apply IH. intros j Hj. apply K. now right.
Qed.

Lemma accounts_are_listed_witness :
  exists l,
    users_get Scenario.as_alice s0
    = (reply 200 (BUsers (map user_row l)), noted s0 SelectAllUsers)
    /\ Permutation l [Scenario.alice; Scenario.bob; Scenario.carol]
    /\ StronglySorted newer_account_first l.
Proof. exact (accounts_are_listed_newest_first Scenario.as_alice s0 eq_refl). Defined.

Lemma all_items_are_listed_witness :
  exists l rows,
    vault_get_all Scenario.as_alice s0
    = (reply 200 (BItemsWithOwner rows), noted s0 SelectAllItemsWithOwner)
    /\ Permutation l (vault_items Scenario.db0)
    /\ StronglySorted newer_first l
    /\ Forall2 (fun it row =>
                  exists u, In u (users Scenario.db0)
                            /\ u_id u = owner_id it
                            /\ row = (item_row it, email u))
               l rows.
Proof.
  exact (all_items_are_listed_with_their_owner Scenario.as_alice s0 eq_refl wf_db0).
Defined.

End AdminLists.

(* ================================================================== *)
(** ** [setupDatabase] *)
(* ================================================================== *)

Section Setup.

Import Store Accounts.

Lemma existsb_filter_nil {A} (f : A -> bool) l :
  filter f l = [] <-> existsb f l = false.
Proof.
  induction l as [|a l IH]; simpl; [tauto |].
  destruct (f a); simpl; [split; discriminate | exact IH].
Qed.

Lemma has_address_iff e l :
  existsb (fun u => text_eqb (email u) e) l = true <-> In e (map email l).
Proof.
  rewrite existsb_exists, in_map_iff. split.
  - intros (u & Hu & E). apply text_eqb_eq in E. eauto.
  - intros (u & E & Hu). exists u. split; [assumption | now apply text_eqb_eq].
Qed.

Lemma varchar_fits n t : chars t <= n -> varchar n t = Some t.
Proof. intros H. unfold varchar. apply Nat.leb_le in H. now rewrite H. Qed.

(** The account a block of the setup inserts. *)
Lemma ensure_account_cases now e h r s :
  let res := ensure_account now e h r s in
  vault_items (tables (snd res)) = vault_items (tables s)
  /\ vault_items_id_seq (tables (snd res)) = vault_items_id_seq (tables s)
  /\ ((fst res = Done tt
       /\ In e (map email (users (tables s)))
       /\ tables (snd res) = tables s
       /\ users_id_seq (snd res) = users_id_seq s)
      \/ ((exists pe, fst res = Failed pe)
          /\ ~ In e (map email (users (tables s)))
          /\ tables (snd res) = tables s
          /\ (users_id_seq (snd res) = users_id_seq s
              \/ users_id_seq (snd res) = (users_id_seq s + 1)%Z
                 /\ int4 (users_id_seq s) = true)
          /\ (int4 (users_id_seq s) = false
              \/ varchar 255 e = None
              \/ varchar 255 h = None
              \/ exists e', varchar 255 e = Some e'
                            /\ In e' (map email (users (tables s)))))
      \/ (fst res = Done tt
          /\ ~ In e (map email (users (tables s)))
          /\ int4 (users_id_seq s) = true
          /\ exists e' h',
               varchar 255 e = Some e'
               /\ varchar 255 h = Some h'
               /\ ~ In e' (map email (users (tables s)))
               /\ users (tables (snd res))
                  = users (tables s)
                    ++ [{| u_id := users_id_seq s; email := e'; password_hash := h';
                           role := r; u_created_at := now |}]
               /\ users_id_seq (snd res) = (users_id_seq s + 1)%Z)).
Proof.
  cbv zeta. unfold ensure_account, then_, select_user_id_by_email, query.
  cbn [fst snd tables users_id_seq sent].
  destruct (filter (fun u => text_eqb (email u) e) (users (tables s))) as [|u0 l] eqn:F.
  - assert (N : ~ In e (map email (users (tables s)))).
    { intros H. apply has_address_iff in H.
      apply existsb_filter_nil in F. congruence. }
    cbn [map]. unfold insert_user, query, with_tables.
    cbn [tables users_id_seq sent].
    destruct (varchar 255 e) as [e'|] eqn:Ve;
      [destruct (varchar 255 h) as [h'|] eqn:Vh |].
    + destruct (int4 (users_id_seq s)) eqn:I4; cbn [negb].
      * destruct (existsb (fun u => text_eqb (email u) e') (users (tables s))) eqn:X.
        -- cbn. repeat apply conj; auto. right. left.
           repeat apply conj; eauto.
           right. right. right. exists e'. split; [reflexivity |].
           now apply has_address_iff.
        -- cbn. repeat apply conj; auto. right. right.
           repeat apply conj; auto. exists e', h'.
           repeat apply conj; auto.
           intros H. apply has_address_iff in H. congruence.
      * cbn. repeat apply conj; auto. right. left. repeat apply conj; eauto.
    + cbn. repeat apply conj; auto. right. left. repeat apply conj; eauto.
    + cbn. repeat apply conj; auto. right. left. repeat apply conj; eauto.
  - cbn. repeat apply conj; auto. left. repeat apply conj; auto.
    apply has_address_iff. apply existsb_exists. exists u0.
    assert (H : In u0 (filter (fun u => text_eqb (email u) e) (users (tables s))))
      by (rewrite F; now left).
    apply filter_In in H. exact H.
Qed.

Lemma ensure_account_present now e h r s :
  In e (map email (users (tables s))) ->
  ensure_account now e h r s = (Done tt, noted s (SelectUserIdByEmail e)).
Proof.
  intros H. apply has_address_iff in H.
  unfold ensure_account, then_, select_user_id_by_email, query, noted.
  destruct (filter (fun u => text_eqb (email u) e) (users (tables s))) eqn:F.
  - apply existsb_filter_nil in F. congruence.
  - reflexivity.
Qed.

(** The two blocks of the setup run after the three [CREATE] statements;
    the second only when the first did not throw. *)
Lemma setupDatabase_blocks now now' env da du s :
  setupDatabase now now' env da du s
  = match ensure_account now (env_or env (lit "admin@safevault.com")) da admin
            (noted (noted (noted s CreateUsers) CreateVaultItems) CreateOwnerIndex) with
    | (Done _, s4) =>
        match ensure_account now' (lit "user@test.com") du user s4 with
        | (Done _, s5) => (0, s5)
        | (Failed _, s5) => (1, s5)
        end
    | (Failed _, s4) => (1, s4)
    end.
Proof.
  unfold setupDatabase, then_, create_if_not_exists, query, noted.
  cbn [tables users_id_seq sent].
  destruct (ensure_account now (env_or env (lit "admin@safevault.com")) da admin _)
    as [[[]|pe] s4]; reflexivity.
Qed.

(** X23: whatever the tables hold, [setupDatabase] rewrites and removes
    nothing: the accounts that exist stay as they are (an account that
    already has one of the two addresses keeps its role and its password
    digest), the items and their sequence are untouched, and at most two
    accounts are appended, each with an address no account had.  An
    appended account holds the admin address and its digest as the
    columns keep them ([VARCHAR(255)]: cut of the spaces past 255
    characters) with role admin, or [user@test.com] with role user. *)
Theorem setup_only_appends_the_default_accounts now now' env da du s :
  let s' := snd (setupDatabase now now' env da du s) in
  exists added,
    users (tables s') = users (tables s) ++ added
    /\ length added <= 2
    /\ vault_items (tables s') = vault_items (tables s)
    /\ vault_items_id_seq (tables s') = vault_items_id_seq (tables s)
    /\ forall u, In u added ->
         ~ In (email u) (map email (users (tables s)))
         /\ (varchar 255 (env_or env (lit "admin@safevault.com")) = Some (email u)
             /\ role u = admin
             /\ varchar 255 da = Some (password_hash u)
             \/ email u = lit "user@test.com"
                /\ role u = user
                /\ varchar 255 du = Some (password_hash u)).
Proof.
  cbv zeta. rewrite setupDatabase_blocks.
  set (s3 := noted (noted (noted s CreateUsers) CreateVaultItems) CreateOwnerIndex).
  set (A := env_or env (lit "admin@safevault.com")).
  pose proof (ensure_account_cases now A da admin s3) as H1. cbv zeta in H1.
  destruct (ensure_account now A da admin s3) as [o4 s4].
  cbn [fst snd] in H1. destruct H1 as (V1 & Q1 & H1).
  change (tables s3) with (tables s) in *.
  assert (Stop : forall c : nat,
             tables s4 = tables s ->
             exists added,
               users (tables (snd (c, s4))) = users (tables s) ++ added
               /\ length added <= 2
               /\ vault_items (tables (snd (c, s4))) = vault_items (tables s)
               /\ vault_items_id_seq (tables (snd (c, s4))) = vault_items_id_seq (tables s)
               /\ forall u, In u added ->
                    ~ In (email u) (map email (users (tables s)))
                    /\ (varchar 255 A = Some (email u) /\ role u = admin
                        /\ varchar 255 da = Some (password_hash u)
                        \/ email u = lit "user@test.com"
                           /\ role u = user
                           /\ varchar 255 du = Some (password_hash u))).
  { intros c T. exists []. cbn [snd]. rewrite T, app_nil_r.
    repeat apply conj; auto. intros u []. }
  pose proof (ensure_account_cases now' (lit "user@test.com") du user s4) as H2.
  cbv zeta in H2.
  assert (Vu : forall x, varchar 255 (lit "user@test.com") = Some x ->
                         x = lit "user@test.com")
    by (intros x H; rewrite varchar_fits in H by (vm_compute; lia); congruence).
  destruct H1 as [(-> & _ & T1 & _) | [((pe & ->) & _ & T1 & _)
                 | (-> & N1 & _ & e1 & h1 & Ve1 & Vh1 & N1' & U1 & _)]].
  - (* the admin address was there *)
    destruct (ensure_account now' (lit "user@test.com") du user s4) as [o5 s5].
    cbn [fst snd] in H2. destruct H2 as (V2 & Q2 & H2). rewrite T1 in *.
    destruct H2 as [(-> & _ & T2 & _) | [((pe & ->) & _ & T2 & _)
                   | (-> & N2 & _ & e2 & h2 & Ve2 & Vh2 & N2' & U2 & _)]].
    + exists []. cbn [snd]. rewrite T2, app_nil_r.
      repeat apply conj; auto. intros u [].
    + exists []. cbn [snd]. rewrite T2, app_nil_r.
      repeat apply conj; auto. intros u [].
    + eexists. cbn [snd]. split; [exact U2 |].
      repeat apply conj; auto. intros u [<-|[]]. cbn.
      split; [assumption |]. right. rewrite (Vu _ Ve2). auto.
  - exact (Stop 1 T1).
  - (* the admin account was inserted *)
    destruct (ensure_account now' (lit "user@test.com") du user s4) as [o5 s5].
    cbn [fst snd] in H2. destruct H2 as (V2 & Q2 & H2).
    assert (Only : forall c : nat,
               tables s5 = tables s4 ->
               exists added,
                 users (tables (snd (c, s5))) = users (tables s) ++ added
                 /\ length added <= 2
                 /\ vault_items (tables (snd (c, s5))) = vault_items (tables s)
                 /\ vault_items_id_seq (tables (snd (c, s5))) = vault_items_id_seq (tables s)
                 /\ forall u, In u added ->
                      ~ In (email u) (map email (users (tables s)))
                      /\ (varchar 255 A = Some (email u) /\ role u = admin
                          /\ varchar 255 da = Some (password_hash u)
                          \/ email u = lit "user@test.com"
                             /\ role u = user
                             /\ varchar 255 du = Some (password_hash u))).
    { intros c T. eexists. cbn [snd]. rewrite T. split; [exact U1 |].
      repeat apply conj; auto. intros u [<-|[]]. cbn. split; [assumption | tauto]. }
    destruct H2 as [(-> & _ & T2 & _) | [((pe & ->) & _ & T2 & _)
                   | (-> & N2 & _ & e2 & h2 & Ve2 & Vh2 & N2' & U2 & _)]].
    + exact (Only 0 T2).
    + exact (Only 1 T2).
    + eexists. cbn [snd]. rewrite U2, U1, <- app_assoc. split; [reflexivity |].
      repeat apply conj; auto; [congruence | congruence |].
      intros u [<-|[<-|[]]]; cbn.
      * split; [assumption | tauto].
      * split; [| right; rewrite (Vu _ Ve2); auto].
        intros H. apply N2'. rewrite U1, map_app.
        apply in_or_app. now left.
Qed.

(** What a run that exits with 0 leaves: an account for the admin
    address as the column keeps it, and one for [user@test.com]. *)
Lemma setup_done_has_both now now' env da du s :
  fst (setupDatabase now now' env da du s) = 0 ->
  let s' := snd (setupDatabase now now' env da du s) in
  let A := env_or env (lit "admin@safevault.com") in
  (In A (map email (users (tables s')))
   \/ exists a, varchar 255 A = Some a /\ In a (map email (users (tables s'))))
  /\ In (lit "user@test.com") (map email (users (tables s'))).
Proof.
  cbv zeta. set (A := env_or env (lit "admin@safevault.com")).
  rewrite setupDatabase_blocks. fold A.
  set (s3 := noted (noted (noted s CreateUsers) CreateVaultItems) CreateOwnerIndex).
  pose proof (ensure_account_cases now A da admin s3) as H1. cbv zeta in H1.
  destruct (ensure_account now A da admin s3) as [o4 s4].
  cbn [fst snd] in H1. destruct H1 as (_ & _ & H1).
  pose proof (ensure_account_cases now' (lit "user@test.com") du user s4) as H2.
  cbv zeta in H2.
  assert (A4 : o4 = Done tt ->
               In A (map email (users (tables s4)))
               \/ exists a, varchar 255 A = Some a
                            /\ In a (map email (users (tables s4)))).
  { destruct H1 as [(_ & I1 & T1 & _) | [((pe & ->) & _)
                   | (_ & _ & _ & e1 & h1 & Ve1 & _ & _ & U1 & _)]].
    - intros _. left. now rewrite T1.
    - discriminate.
    - intros _. right. exists e1. split; [assumption |].
      rewrite U1, map_app. apply in_or_app. right. now left. }
  destruct o4 as [[]|pe]; [|discriminate].
  specialize (A4 eq_refl).
  destruct (ensure_account now' (lit "user@test.com") du user s4) as [o5 s5].
  cbn [fst snd] in H2. destruct H2 as (_ & _ & H2).
  destruct H2 as [(-> & I2 & T2 & _) | [((pe & ->) & _)
                 | (-> & _ & _ & e2 & h2 & Ve2 & _ & _ & U2 & _)]].
  - intros _. cbn [snd]. rewrite T2. now split.
  - discriminate.
  - intros _. cbn [snd]. rewrite U2, map_app.
    rewrite varchar_fits in Ve2 by (vm_compute; lia). injection Ve2 as <-.
    split.
    + destruct A4 as [A4 | (a & Va & A4)]; [left | right; exists a; split; auto];
        apply in_or_app; now left.
    + apply in_or_app. right. now left.
Qed.

(** X24: exit code 0 means that both default addresses have an account
    afterwards: [user@test.com], and the admin address in full or as the
    column keeps it (cut of the spaces past 255 characters); in full when
    it has at most 255 characters.  When the admin address in full has an
    account, a second run, whatever its clock and its digests, inserts
    nothing: it exits with 0 and leaves the tables and the sequence of
    [users.id] as the first run left them.  When it has none (the column
    kept the address cut), every second run exits with 1 and leaves the
    tables as they were. *)
Theorem setup_twice_is_setup_once now now' env da du s :
  fst (setupDatabase now now' env da du s) = 0 ->
  let s' := snd (setupDatabase now now' env da du s) in
  let A := env_or env (lit "admin@safevault.com") in
  (In A (map email (users (tables s')))
   \/ exists a, varchar 255 A = Some a /\ In a (map email (users (tables s'))))
  /\ In (lit "user@test.com") (map email (users (tables s')))
  /\ (chars A <= 255 -> In A (map email (users (tables s'))))
  /\ (In A (map email (users (tables s'))) ->
      forall t t' da' du',
        fst (setupDatabase t t' env da' du' s') = 0
        /\ tables (snd (setupDatabase t t' env da' du' s')) = tables s'
        /\ users_id_seq (snd (setupDatabase t t' env da' du' s')) = users_id_seq s')
  /\ (~ In A (map email (users (tables s'))) ->
      forall t t' da' du',
        fst (setupDatabase t t' env da' du' s') = 1
        /\ tables (snd (setupDatabase t t' env da' du' s')) = tables s').
Proof.
  cbv zeta. set (A := env_or env (lit "admin@safevault.com")).
  intros Z0.
  destruct (setup_done_has_both now now' env da du s Z0) as [B1 B2].
  cbv zeta in B1, B2. fold A in B1.
  set (s1 := snd (setupDatabase now now' env da du s)) in *.
  repeat apply conj; auto.
  - intros L. destruct B1 as [B1 | (a & Va & B1)]; [exact B1 |].
    rewrite (varchar_fits _ _ L) in Va. now injection Va as <-.
  - intros I1 t t' da' du'.
    rewrite setupDatabase_blocks. fold A.
    rewrite ensure_account_present by exact I1.
    rewrite ensure_account_present by exact B2.
    repeat apply conj; reflexivity.
  - intros N1 t t' da' du'.
    destruct B1 as [B1 | (a & Va & B1)]; [contradiction |].
    rewrite setupDatabase_blocks. fold A.
    set (s3 := noted (noted (noted s1 CreateUsers) CreateVaultItems) CreateOwnerIndex).
    pose proof (ensure_account_cases t A da' admin s3) as H1. cbv zeta in H1.
    destruct (ensure_account t A da' admin s3) as [o4 s4].
    cbn [fst snd] in H1. destruct H1 as (_ & _ & H1).
    change (tables s3) with (tables s1) in H1.
    destruct H1 as [(_ & I1 & _) | [((pe & ->) & _ & T1 & _)
                   | (_ & _ & _ & e1 & h1 & Ve1 & _ & N1' & _)]].
    + contradiction.
    + split; [reflexivity | exact T1].
    + rewrite Va in Ve1. injection Ve1 as <-. contradiction.
Qed.

(** One block keeps the constraints of both tables. *)
Lemma ensure_account_keeps_schema now e h r s :
  Store.wf (tables s) -> accounts_ok s ->
  Store.wf (tables (snd (ensure_account now e h r s)))
  /\ accounts_ok (snd (ensure_account now e h r s)).
Proof.
  intros W O.
  pose proof (ensure_account_cases now e h r s) as H. cbv zeta in H.
  destruct (ensure_account now e h r s) as [o s']. cbn [fst snd] in *.
  destruct H as (V & Q & H).
  destruct O as [O1 O2 O3 O4].
  destruct H as [(_ & _ & T & S) | [(_ & _ & T & S & _)
                | (_ & _ & I4 & e' & h' & _ & _ & N & U & S)]].
  - rewrite T. split; [assumption |]. constructor; rewrite ?T, ?S; auto.
  - rewrite T. split; [assumption |].
    destruct S as [S | [S I4]]; constructor; rewrite ?T, ?S; auto.
    + intros u Hu. specialize (O3 u Hu). lia.
    + unfold int4 in I4. lia.
  - assert (Fresh : ~ In (users_id_seq s) (map u_id (users (tables s)))).
    { intros Hin. apply in_map_iff in Hin as (u & Eu & Hu).
      specialize (O3 u Hu). lia. }
    split.
    + destruct W as [W1 W2 W3 W4 W5 W6].
      constructor; rewrite ?V, ?Q, ?U; auto.
      * rewrite map_app. cbn [map u_id].
        apply Permutation_NoDup with (l := users_id_seq s :: map u_id (users (tables s)));
          [apply Permutation_cons_append | now constructor].
      * intros u Hu. apply in_app_or in Hu as [Hu | [<-|[]]]; [now apply W5 | exact I4].
      * intros it Hit. rewrite existsb_app. now rewrite (W6 it Hit).
    + constructor; rewrite ?U, ?S.
      * rewrite map_app. cbn [map email].
        apply Permutation_NoDup with (l := e' :: map email (users (tables s)));
          [apply Permutation_cons_append | now constructor].
      * rewrite map_app. cbn [map u_id].
        apply Permutation_NoDup with (l := users_id_seq s :: map u_id (users (tables s)));
          [apply Permutation_cons_append | now constructor].
      * intros u Hu. apply in_app_or in Hu as [Hu | [<-|[]]].
        -- specialize (O3 u Hu). lia.
        -- cbn. lia.
      * unfold int4 in I4. lia.
Qed.

Lemma noted_keeps_schema s q :
  Store.wf (tables s) -> accounts_ok s ->
  Store.wf (tables (noted s q)) /\ accounts_ok (noted s q).
Proof.
  intros W [O1 O2 O3 O4]. split; [exact W | now constructor].
Qed.

Lemma setup_keeps_schema now now' env da du s :
  Store.wf (tables s) -> accounts_ok s ->
  Store.wf (tables (snd (setupDatabase now now' env da du s)))
  /\ accounts_ok (snd (setupDatabase now now' env da du s)).
Proof.
  intros W O. rewrite setupDatabase_blocks.
  set (s3 := noted (noted (noted s CreateUsers) CreateVaultItems) CreateOwnerIndex).
  assert (K3 : Store.wf (tables s3) /\ accounts_ok s3).
  { unfold s3. destruct (noted_keeps_schema s CreateUsers W O) as [W1 O1].
    destruct (noted_keeps_schema _ CreateVaultItems W1 O1) as [W2 O2].
    now apply noted_keeps_schema. }
  destruct K3 as [W3 O3].
  pose proof (ensure_account_keeps_schema now (env_or env (lit "admin@safevault.com"))
                da admin s3 W3 O3) as K4.
  destruct (ensure_account now (env_or env (lit "admin@safevault.com")) da admin s3)
    as [[[]|pe] s4]; cbn [snd] in K4; [|exact K4].
  destruct K4 as [W4 O4].
  pose proof (ensure_account_keeps_schema now' (lit "user@test.com") du user s4 W4 O4) as K5.
  destruct (ensure_account now' (lit "user@test.com") du user s4)
    as [[[]|pe] s5]; exact K5.
Qed.

(** An insertion whose texts fit the columns fails only for want of an
    id. *)
Lemma fitting_insert_cannot_fail e h seq l :
  chars e <= 255 -> chars h <= 255 -> int4 seq = true -> ~ In e l ->
  ~ (int4 seq = false
     \/ varchar 255 e = None
     \/ varchar 255 h = None
     \/ exists e', varchar 255 e = Some e' /\ In e' l).
Proof.
  intros Le Lh I N. rewrite (varchar_fits _ _ Le), (varchar_fits _ _ Lh).
  intros [F|[F|[F|(e' & F & H)]]].
  - congruence.
  - discriminate.
  - discriminate.
  - injection F as <-. contradiction.
Qed.

(** X25: on tables that meet the constraints of the schema, with room
    for two more ids, an admin address and digests that fit
    [VARCHAR(255)], no statement of [setupDatabase] fails: the process
    exits with 0. *)
Theorem setup_succeeds_when_values_fit now now' env da du s :
  accounts_ok s ->
  (users_id_seq s + 1 <= 2147483647)%Z ->
  chars (env_or env (lit "admin@safevault.com")) <= 255 ->
  chars da <= 255 ->
  chars du <= 255 ->
  fst (setupDatabase now now' env da du s) = 0.
Proof.
  intros O R LA Lda Ldu. rewrite setupDatabase_blocks.
  set (A := env_or env (lit "admin@safevault.com")) in *.
  set (s3 := noted (noted (noted s CreateUsers) CreateVaultItems) CreateOwnerIndex).
  assert (S3 : users_id_seq s3 = users_id_seq s) by reflexivity.
  assert (I3 : int4 (users_id_seq s3) = true).
  { rewrite S3. destruct O as [_ _ _ O4]. unfold int4. lia. }
  pose proof (ensure_account_cases now A da admin s3) as H1. cbv zeta in H1.
  destruct (ensure_account now A da admin s3) as [o4 s4].
  cbn [fst snd] in H1. destruct H1 as (_ & _ & H1).
  assert (S4 : o4 = Done tt /\ (users_id_seq s4 <= users_id_seq s + 1)%Z
               /\ (1 <= users_id_seq s4)%Z).
  { destruct O as [_ _ _ O4].
    destruct H1 as [(-> & _ & _ & S) | [(_ & N & _ & _ & F)
                   | (-> & _ & _ & e' & h' & _ & _ & _ & _ & S)]].
    - rewrite S, S3. repeat split; lia.
    - exfalso. exact (fitting_insert_cannot_fail A da _ _ LA Lda I3 N F).
    - rewrite S, S3. repeat split; lia. }
  destruct S4 as (-> & S4 & S4').
  pose proof (ensure_account_cases now' (lit "user@test.com") du user s4) as H2.
  cbv zeta in H2.
  destruct (ensure_account now' (lit "user@test.com") du user s4) as [o5 s5].
  cbn [fst snd] in H2. destruct H2 as (_ & _ & H2).
  assert (I4 : int4 (users_id_seq s4) = true) by (unfold int4; lia).
  assert (Lu : chars (lit "user@test.com") <= 255) by (vm_compute; lia).
  destruct H2 as [(-> & _) | [(_ & N & _ & _ & F) | (-> & _)]].
  - reflexivity.
  - exfalso.
    exact (fitting_insert_cannot_fail (lit "user@test.com") du _ _ Lu Ldu I4 N F).
  - reflexivity.
Qed.

Lemma empty_server_ok : accounts_ok empty_server.
Proof.
  constructor; simpl; try constructor; try lia.
Qed.

(** On empty tables the setup exits with 0, and a second run exits with
    0 again; with an admin address of 255 letters and a space, the first
    run exits with 0 and the second with 1. *)
Lemma setup_twice_witness :
  fst (setupDatabase 2 3 None (lit "d3") (lit "d4")
         (snd (setupDatabase 0 1 None (lit "d1") (lit "d2") empty_server))) = 0
  /\ fst (setupDatabase 0 1 (Some (repeat 120%N 255 ++ [32%N]))
            (lit "d1") (lit "d2") empty_server) = 0
  /\ fst (setupDatabase 2 3 (Some (repeat 120%N 255 ++ [32%N]))
            (lit "d3") (lit "d4")
            (snd (setupDatabase 0 1 (Some (repeat 120%N 255 ++ [32%N]))
                    (lit "d1") (lit "d2") empty_server))) = 1.
Proof.
  split; [|split].
  - destruct (setup_twice_is_setup_once 0 1 None (lit "d1") (lit "d2")
                empty_server eq_refl) as (_ & _ & H3 & H4 & _).
    assert (L : chars (env_or None (lit "admin@safevault.com")) <= 255)
      by (vm_compute; lia).
    exact (proj1 (H4 (H3 L) 2%Z 3%Z (lit "d3") (lit "d4"))).
  - vm_compute. reflexivity.
  - assert (Z0 : fst (setupDatabase 0 1 (Some (repeat 120%N 255 ++ [32%N]))
                        (lit "d1") (lit "d2") empty_server) = 0)
      by (vm_compute; reflexivity).
    destruct (setup_twice_is_setup_once 0 1 (Some (repeat 120%N 255 ++ [32%N]))
                (lit "d1") (lit "d2") empty_server Z0) as (_ & _ & _ & _ & H5).
    refine (proj1 (H5 _ 2%Z 3%Z (lit "d3") (lit "d4"))).
    intros H. vm_compute in H.
    destruct H as [H|[H|[]]];
      apply (f_equal (@length N)) in H; vm_compute in H; discriminate H.
Defined.

Lemma setup_succeeds_witness :
  fst (setupDatabase 0 1 (Some (lit "root@example.org")) (lit "d1") (lit "d2") s0) = 0.
Proof.
  apply setup_succeeds_when_values_fit.
  - exact s0_ok.
  - simpl. lia.
  - vm_compute. lia.
  - vm_compute. lia.
  - vm_compute. lia.
Defined.

End Setup.

(* ================================================================== *)
(** ** The constraints of the schema, for the account routes and the setup *)
(* ================================================================== *)

Section AccountSchema.

Import Store Accounts.

(** X26: the routes of this part and [setupDatabase] keep the
    constraints of the schema: from tables where ids and addresses of
    accounts are unique, ids were drawn from their sequences and every
    item has an owner, each of them leads to such tables again, whatever
    the request, the validators' verdicts, the clock and the digests. *)
Theorem account_routes_keep_the_schema s :
  Store.wf (tables s) ->
  accounts_ok s ->
  (forall isEmail normalizeEmail P p b,
      Store.wf (tables (snd (users_put_id isEmail normalizeEmail P p b s)))
      /\ accounts_ok (snd (users_put_id isEmail normalizeEmail P p b s)))
  /\ (forall now now' env da du,
         Store.wf (tables (snd (setupDatabase now now' env da du s)))
         /\ accounts_ok (snd (setupDatabase now now' env da du s)))
  /\ (forall P,
         Store.wf (tables (snd (users_get P s)))
         /\ accounts_ok (snd (users_get P s)))
  /\ (forall P,
         Store.wf (tables (snd (vault_get_all P s)))
         /\ accounts_ok (snd (vault_get_all P s))).
Proof.
  intros W O. repeat apply conj.
  - intros isEmail normalizeEmail P p b. split.
    + now apply users_put_id_keeps_wf.
    + now apply account_update_keeps_accounts_ok.
  - intros. now apply setup_keeps_schema.
  - intros P. unfold users_get, admin_only.
    destruct (role_eqb (Routes.prole P) admin); [|now split].
    now apply noted_keeps_schema.
  - intros P. unfold vault_get_all, admin_only.
    destruct (role_eqb (Routes.prole P) admin); [|now split].
    now apply noted_keeps_schema.
Qed.

Lemma account_routes_keep_the_schema_witness :
  accounts_ok (snd (setupDatabase 0 1 None (lit "d1") (lit "d2") s0))
  /\ accounts_ok (snd (users_put_id (fun _ => true) (fun a => Some a)
                         Scenario.as_alice (lit "3")
                         {| up_email := Text (lit "c@test.com"); up_role := Undefined |}
                         s0)).
Proof.
  destruct (account_routes_keep_the_schema s0 wf_db0 s0_ok) as (H1 & H2 & _).
  split.
  - exact (proj2 (H2 0%Z 1%Z None (lit "d1") (lit "d2"))).
  - exact (proj2 (H1 (fun _ => true) (fun a => Some a) Scenario.as_alice (lit "3")
                    {| up_email := Text (lit "c@test.com"); up_role := Undefined |})).
Defined.

End AccountSchema.

(* ================================================================== *)
(** ** The vault routes on a body with any value in a field *)
(* ================================================================== *)

Section VaultAny.

Import Store Routes Scenario.

(** X28: a note sent as an array is not sanitized.  The chain trims each
    element and checks its length; [sanitizeNote] hands the array back as
    it came, and the statement carries it as the text of an array.  So
    when [POST /api/vault] answers 201 for a string name and an array
    note, every element had at most 5000 characters after trimming, and
    the note of the new item is the text of the array of the trimmed
    elements as it reaches the database, markup included. *)
Theorem array_note_is_stored_as_sent now P n l w :
  let res := vault_post_any now P
               {| Validation.any_name := Some (VText n);
                  Validation.any_note := Some (VList l) |} w in
  let text := arrayString
                (VList (map (fun x => VText (trim (Validation.toText x))) l)) in
  status (fst res) = 201 ->
  Forall (fun x => Validation.isLength 0 (Some 5000)
                     (trim (Validation.toText x)) = true) l
  /\ sendable text = true
  /\ exists it,
       json (fst res) = JItem (Some (item_row it))
       /\ vault_items (db (snd res)) = vault_items (db w) ++ [it]
       /\ owner_id it = pid P
       /\ note it = wire text.
Proof.
  cbv zeta. unfold vault_post_any, validated, Validation.validateVaultItem_any,
    Validation.name_chain_any, Validation.note_chain_any.
  cbn [Validation.any_name Validation.any_note Validation.sanitize_each
       Validation.toText].
  rewrite !check_each_text.
  set (l' := map (fun x => VText (trim (Validation.toText x))) l).
  destruct (Validation.check (Validation.isLength 1 (Some 255) (trim n)) _ _
            ++ Validation.check (Validation.matches_name (trim n)) _ _)
    as [|e1 r1]; [| cbn; discriminate].
  cbn [app].
  destruct (Validation.check_each (Validation.isLength 0 (Some 5000)) "note"
              "Note must be at most 5000 characters" (VList l'))
    as [|e2 r2] eqn:C; [| cbn; discriminate].
  apply check_each_nil in C. cbn [Validation.values_of] in C.
  assert (F : Forall (fun x => Validation.isLength 0 (Some 5000)
                                 (trim (Validation.toText x)) = true) l).
  { unfold l' in C. rewrite Forall_map in C.
    eapply Forall_impl; [|exact C]. intros x Hx. exact Hx. }
  cbn [Validation.any_name Validation.any_note falsy sanitizeNote_any
       sanitizeInput_any escapeHtml_any param_text].
  unfold try_catch, bind, insert_item, pool_query, send, ret.
  destruct (sendable (trim (trim n))); cbn [andb]; [| cbn; discriminate].
  destruct (sendable (arrayString (VList l'))) eqn:Sn; [| cbn; discriminate].
  destruct (varchar 255 (wire (trim (trim n)))) as [nm'|]; [| cbn; discriminate].
  destruct (int4 (vault_items_id_seq (db w))); [| cbn; discriminate].
  destruct (existsb (fun u => (u_id u =? pid P)%Z) (users (db w)));
    [| cbn; discriminate].
  cbn. intros _. repeat apply conj; auto. eexists. repeat apply conj; reflexivity.
Qed.

(** The second account of the scenario posts [<script>alert(1)</script>]
    as the one element of an array: the note of the new item holds it in
    full, between braces and double quotes. *)
Lemma array_note_is_stored_as_sent_witness :
  exists it,
    vault_items (db (snd (vault_post_any 20 as_bob
                            {| Validation.any_name := Some (VText (lit "XSS Test"));
                               Validation.any_note :=
                                 Some (VList [VText (lit "<script>alert(1)</script>")]) |}
                            w0)))
    = vault_items db0 ++ [it]
    /\ note it = (123 :: 34 :: lit "<script>alert(1)</script>" ++ [34; 125])%N
    /\ includes (note it) (lit "<script>") = true.
Proof.
  destruct (array_note_is_stored_as_sent 20 as_bob (lit "XSS Test")
              [VText (lit "<script>alert(1)</script>")] w0 eq_refl)
    as (_ & _ & it & _ & H1 & _ & H2).
  exists it. split; [exact H1 |]. split; [exact H2 |].
  rewrite H2. reflexivity.
Defined.

End VaultAny.

(* ================================================================== *)
(** ** What the routes on any body leave as it was *)
(* ================================================================== *)

Section AccountUpdateAnyFrame.

Import Store Accounts Notions.

Variable isEmail : str -> bool.
Variable normalizeEmail : str -> option str.

(** X29: on a body with any value in a field, [PUT /api/users/:id]
    rewrites at most the address and the role of the accounts whose id is
    the number read from the path; ids, password digests and creation
    times, the other accounts, the number and the order of the rows, the
    items and both sequences stay as they were, and the constraints of
    the schema are kept. *)
Theorem account_update_on_any_body_keeps_the_rest P p b s :
  let s' := snd (users_put_id_any isEmail normalizeEmail P p b s) in
  (exists f,
      users (tables s') = map f (users (tables s))
      /\ (forall u, same_account (f u) u)
      /\ (forall u, parseInt p <> Some (u_id u) -> f u = u)
      /\ vault_items (tables s') = vault_items (tables s)
      /\ vault_items_id_seq (tables s') = vault_items_id_seq (tables s)
      /\ users_id_seq s' = users_id_seq s)
  /\ (Store.wf (tables s) -> Store.wf (tables s'))
  /\ (accounts_ok s -> accounts_ok s').
Proof.
  cbv zeta.
  destruct (users_put_id_any_cases isEmail normalizeEmail P p b s)
    as [-> | (a & i & e & r & _ & Pi & _ & _ & _ & _ & -> & _)].
  - repeat apply conj; auto.
    exists (fun u => u). rewrite map_id.
    repeat apply conj; auto. intros u. repeat split.
  - repeat apply conj.
    + destruct (update_user_frame e r i s) as (f & U & Same & Other & V & Q & S).
      exists f. repeat apply conj; auto.
      intros u Hu. apply Other. intros E. apply Hu. now rewrite Pi, E.
    + apply update_user_keeps_wf.
    + apply update_keeps_accounts_ok.
Qed.

End AccountUpdateAnyFrame.

Section VaultAnySchema.

Import Store Routes.

Lemma preserves_throw {A} : preserves (@throw A).
Proof. intros w W. exact W. Qed.

(** X30: the vault routes keep the constraints of the schema on a body
    with any value in a field too, whatever the arrays the body holds. *)
Theorem any_body_routes_keep_the_schema (ilike : str -> str -> bool) now P p :
  (forall b, keeps_schema (vault_post_any now P b))
  /\ (forall b, keeps_schema (vault_put_id_any now P p b))
  /\ (forall b, keeps_schema (vault_search_any ilike P b)).
Proof.
  repeat apply conj; intros b.
  - apply keeps_validated. intros b'. apply keeps_try_catch.
    destruct (Validation.any_name b') as [[n|l]|]; try apply preserves_throw.
    apply preserves_bind; [|intros; apply preserves_send].
    apply (preserves_queries now 0 (pid P)).
  - apply keeps_validated. intros b'. apply keeps_try_catch.
    destruct (parseInt p) as [i|]; [|apply preserves_send].
    destruct (Validation.any_name b') as [[n|l]|]; try apply preserves_throw.
    apply preserves_bind; [apply (preserves_queries now i (pid P)) |].
    intros [|r rows]; apply preserves_send.
  - apply keeps_validated. intros b'. apply keeps_try_catch.
    destruct (Validation.any_query b') as [[[|c q]|l]|];
      try apply preserves_send; try apply preserves_throw.
    destruct (Nat.eqb (length (trim (c :: q))) 0); [apply preserves_send |].
    apply preserves_bind; [|intros; apply preserves_send].
    apply preserves_pool_query. intros d W. destruct (sendable _); exact W.
Qed.

End VaultAnySchema.
